(** * Sidecar listener synthesis (pilot/pkg/networking/core/v1alpha3/listener.go)

    A shallow embedding of the listener synthesis and conflict-resolution
    code of the sidecar configuration generator, and the properties of it
    that the specification states.

    Conventions.
    - Go [int] values are [Z]; [uint32(x)] is written out as [x mod 2^32].
    - [fmt.Sprintf("%s:%d", bind, port)] is string concatenation with the
      decimal rendering of the port ([pretty]).
    - Go maps are [gmap]s.  A map holding pointers to entries is a map from
      keys to entry values: every entry pointer is stored under exactly one
      key, so updating through the pointer is updating the map at that key.
      Ranging over a map visits the entries in an unspecified order; the one
      loop whose result depends on that order takes the enumeration as an
      argument.
    - A slice is a [list]; the nil slice and the empty slice are both [[]].
    - A pointer that may be nil is an [option].
    - An index out of range or a nil dereference panics in Go; a function
      that can panic returns an [option], [None] being the panic, and the
      assembly of the filter chains, which can also return an error, returns
      an [outcome] with a [Panic] case.
    - [push.Add] is a log of status events, in the order of the calls. *)

From Stdlib Require Import Ascii.
From stdpp Require Import gmap strings list fin_maps pretty sorting.

Local Open Scope Z_scope.

(** ** Protocols *)

Module protocol.

Inductive Instance :=
| GRPC | GRPCWeb | HTTP | HTTP2 | HTTPS | TCP | TLS | UDP
| Mongo | Redis | MySQL | Unsupported.

#[global] Instance Instance_eq_dec : EqDecision Instance.
Proof. solve_decision. Defined.

(** Modelled from the spec: package [pkg/config/protocol] is not among the
    sources.  The spec classifies a protocol as HTTP family, TCP family or
    unsupported; the families are the ones the management-port switch of
    [buildSidecarInboundMgmtListeners] lists. *)
Definition IsHTTP (i : Instance) : bool :=
  match i with
  | HTTP | HTTP2 | GRPC | GRPCWeb => true
  | _ => false
  end.

Definition IsHTTP2 (i : Instance) : bool :=
  match i with
  | HTTP2 | GRPC | GRPCWeb => true
  | _ => false
  end.

Definition IsTCP (i : Instance) : bool :=
  match i with
  | TCP | HTTPS | TLS | Mongo | Redis | MySQL => true
  | _ => false
  end.

End protocol.

(** ** xDS resources (the fields this file reads or writes) *)

(** A protobuf message whose content the code only passes on. *)
Definition Message := string.

Record CidrRange := {
  AddressPrefix : string;
  PrefixLen : Z
}.

Record FilterChainMatch := {
  DestinationPort : option Z;
  PrefixRanges : list CidrRange;
  ServerNames : list string;
  TransportProtocol : string;
  ApplicationProtocols : list string
}.

#[export] Instance CidrRange_eq_dec : EqDecision CidrRange.
Proof. solve_decision. Defined.

#[export] Instance FilterChainMatch_eq_dec : EqDecision FilterChainMatch.
Proof. solve_decision. Defined.

(** [listener.FilterChainMatch{}] *)
Definition emptyMatch : FilterChainMatch :=
  {| DestinationPort := None; PrefixRanges := []; ServerNames := [];
     TransportProtocol := ""; ApplicationProtocols := [] |}.

(** [reflect.DeepEqual] on two match values is structural equality. *)
Definition DeepEqual (a b : FilterChainMatch) : bool := bool_decide (a = b).

Inductive FilterConfigType :=
| Filter_Config (m : Message)
| Filter_TypedConfig (m : Message).

Record Filter := {
  filter_Name : string;
  filter_ConfigType : option FilterConfigType
}.

Record ListenerFilter := { lf_Name : string }.

Record CommonTlsContext := { AlpnProtocols : list string }.

Record DownstreamTlsContext := { tls_CommonTlsContext : option CommonTlsContext }.

Record FilterChain := {
  fc_FilterChainMatch : option FilterChainMatch;
  fc_TlsContext : option DownstreamTlsContext;
  fc_Filters : list Filter;
  fc_Metadata : option Message
}.

(** Modelled from the spec: [util.BuildAddress] is not among the sources.
    The spec identifies a listener by its (bind address, port) pair, and
    that pair is what the address holds. *)
Record Address := {
  addr_Address : string;
  addr_PortValue : Z
}.

#[export] Instance Address_eq_dec : EqDecision Address.
Proof. solve_decision. Defined.

Definition uint32 (x : Z) : Z := x mod 2 ^ 32.

Definition BuildAddress (bind : string) (port : Z) : Address :=
  {| addr_Address := bind; addr_PortValue := port |}.

Inductive TrafficDirection := UNSPECIFIED | INBOUND | OUTBOUND.

Record Listener := {
  l_Name : string;
  l_Address : Address;
  l_ListenerFilters : list ListenerFilter;
  l_FilterChains : list FilterChain;
  (** [Some false] is [DeprecatedV1{BindToPort: false}] *)
  l_DeprecatedV1 : option bool;
  l_TrafficDirection : TrafficDirection
}.

Definition set_FilterChains (l : Listener) (fcs : list FilterChain) : Listener :=
  {| l_Name := l_Name l; l_Address := l_Address l;
     l_ListenerFilters := l_ListenerFilters l; l_FilterChains := fcs;
     l_DeprecatedV1 := l_DeprecatedV1 l;
     l_TrafficDirection := l_TrafficDirection l |}.

Definition set_TrafficDirection (l : Listener) (d : TrafficDirection) : Listener :=
  {| l_Name := l_Name l; l_Address := l_Address l;
     l_ListenerFilters := l_ListenerFilters l;
     l_FilterChains := l_FilterChains l;
     l_DeprecatedV1 := l_DeprecatedV1 l; l_TrafficDirection := d |}.

Definition set_Filters (fc : FilterChain) (fs : list Filter) : FilterChain :=
  {| fc_FilterChainMatch := fc_FilterChainMatch fc;
     fc_TlsContext := fc_TlsContext fc; fc_Filters := fs;
     fc_Metadata := fc_Metadata fc |}.

Definition set_Metadata (fc : FilterChain) (md : option Message) : FilterChain :=
  {| fc_FilterChainMatch := fc_FilterChainMatch fc;
     fc_TlsContext := fc_TlsContext fc; fc_Filters := fc_Filters fc;
     fc_Metadata := md |}.

(** ** The service model (package [model]) *)

Record Port := {
  port_Name : string;
  port_Port : Z;
  port_Protocol : protocol.Instance
}.

Record Service := {
  Hostname : string;
  svc_Address : string;
  Ports : list Port
}.

Record NetworkEndpoint := {
  ep_Address : string;
  ep_Port : Z;
  ep_ServicePort : Port
}.

Record ServiceInstance := {
  Endpoint : NetworkEndpoint;
  si_Service : Service;
  Labels : list (string * string)
}.

Inductive TrafficInterceptionMode :=
| InterceptionNone | InterceptionTproxy | InterceptionRedirect.

#[export] Instance TrafficInterceptionMode_eq_dec :
  EqDecision TrafficInterceptionMode.
Proof. solve_decision. Defined.

Inductive CaptureMode := CaptureMode_DEFAULT | CaptureMode_IPTABLES | CaptureMode_NONE.

#[export] Instance CaptureMode_eq_dec : EqDecision CaptureMode.
Proof. solve_decision. Defined.

(** [networking.Port] of the Sidecar API *)
Record NetworkingPort := {
  np_Number : Z;
  np_Protocol : string;
  np_Name : string
}.

Record IstioIngressListener := {
  ingress_Port : NetworkingPort;
  ingress_Bind : string;
  ingress_CaptureMode : CaptureMode
}.

Record IstioEgressListener := {
  egress_Port : option NetworkingPort;
  egress_Bind : string;
  egress_CaptureMode : CaptureMode
}.

(** [model.IstioEgressListenerWrapper]; [Services()] and
    [VirtualServices()] return the two lists. *)
Record IstioEgressListenerWrapper := {
  IstioListener : option IstioEgressListener;
  Services : list Service;
  VirtualServices : list Message
}.

Record SidecarScope := {
  HasCustomIngressListeners : bool;
  (** the ingress listeners of the Sidecar resource in [Config.Spec] *)
  Ingress : list IstioIngressListener;
  EgressListeners : list IstioEgressListenerWrapper
}.

Inductive NodeType := SidecarProxy | Router.

Record Proxy := {
  ID : string;
  Type_ : NodeType;
  IPAddresses : list string;
  Metadata : gmap string string;
  (** the value [GetInterceptionMode()] returns *)
  InterceptionMode : TrafficInterceptionMode;
  ServiceInstances : list ServiceInstance;
  proxy_SidecarScope : SidecarScope
}.

(** [m[key]] on a Go [map[string]string]: the empty string when absent. *)
Definition metadata (node : Proxy) (key : string) : string :=
  default "" (Metadata node !! key).

Definition NodeMetadataHTTP10 : string := "HTTP10".
Definition NodeMetadataSidecarUID : string := "SIDECAR_UID".

Record Environment := {
  Mesh_ProxyListenPort : Z;
  Mesh_ProxyHttpPort : Z;
  ManagementPorts : string → list Port
}.

(** ** Status events ([push.Add]) *)

Inductive Metric :=
| ProxyStatusConflictInboundListener
| ProxyStatusConflictOutboundListenerTCPOverHTTP
| ProxyStatusConflictOutboundListenerHTTPOverTCP
| ProxyStatusConflictOutboundListenerTCPOverTCP.

#[export] Instance Metric_eq_dec : EqDecision Metric.
Proof. solve_decision. Defined.

Record StatusEvent := {
  ev_metric : Metric;
  ev_key : string;
  ev_proxy : string;
  ev_msg : string
}.

(** The status side of [model.PushContext]. *)
Definition PushContext := list StatusEvent.

Definition push_Add (push : PushContext) (metric : Metric) (key : string)
    (node : Proxy) (msg : string) : PushContext :=
  push ++ [ {| ev_metric := metric; ev_key := key; ev_proxy := ID node;
               ev_msg := msg |} ].

(** ** Plugins (package [plugin]) *)

Module plugin.

Inductive ListenerProtocol :=
| ListenerProtocolUnknown | ListenerProtocolTCP | ListenerProtocolHTTP.

#[global] Instance ListenerProtocol_eq_dec : EqDecision ListenerProtocol.
Proof. solve_decision. Defined.

(** Modelled from the spec: package [plugin] is not among the sources.
    HTTP-family protocols map to the HTTP listener protocol, TCP-family
    ones to the TCP listener protocol, everything else is unknown. *)
Definition ModelProtocolToListenerProtocol (p : protocol.Instance)
    : ListenerProtocol :=
  if protocol.IsHTTP p then ListenerProtocolHTTP
  else if protocol.IsTCP p then ListenerProtocolTCP
  else ListenerProtocolUnknown.

(** The listener types of the EnvoyFilter API; [ANY] is the zero value. *)
Inductive ListenerCategory := ANY | SIDECAR_INBOUND | SIDECAR_OUTBOUND | GATEWAY.

Record HttpFilter := { HttpFilter_Name : string }.

Record InputParams := {
  ListenerProtocol_ : ListenerProtocol;
  DeprecatedListenerCategory : ListenerCategory;
  ListenerCategory_ : ListenerCategory;
  Env : Environment;
  Node : Proxy;
  ServiceInstance_ : option ServiceInstance;
  Port_ : Port;
  Service_ : option Service;
  Bind : string
}.

(** [plugin.FilterChain] *)
Record FilterChain := {
  FilterChainMatch_ : option FilterChainMatch;
  TLSContext : option DownstreamTlsContext;
  ListenerFilters : list ListenerFilter;
  HTTP_ : list HttpFilter;
  TCP_ : list Filter
}.

(** the zero value [plugin.FilterChain{}] *)
Definition emptyFilterChain : FilterChain :=
  {| FilterChainMatch_ := None; TLSContext := None; ListenerFilters := [];
     HTTP_ := []; TCP_ := [] |}.

Record MutableObjects := {
  Listener_ : Listener;
  FilterChains : list FilterChain
}.

(** The hooks of the [Plugin] interface that the sidecar listener code
    calls.  A hook receives the mutable objects by pointer: it returns the
    objects as it leaves them, and its error if any. *)
Record Plugin := {
  OnInboundFilterChains : InputParams → list FilterChain;
  OnInboundListener : InputParams → MutableObjects → MutableObjects * option string;
  OnOutboundListener : InputParams → MutableObjects → MutableObjects * option string
}.

End plugin.

Record ConfigGeneratorImpl := { Plugins : list plugin.Plugin }.

(** ** Listener options (listener.go) *)

Inductive ForwardClientCertDetails := SANITIZE | APPEND_FORWARD.

Record SetCurrentClientCertDetails := {
  cert_Subject : bool;
  cert_Uri : bool;
  cert_Dns : bool
}.

Record Http1ProtocolOptions := {
  AllowAbsoluteUrl : bool;
  AcceptHttp_10 : bool
}.

(** The fields of [http_conn.HttpConnectionManager] that the callers of
    [buildHTTPConnectionManager] set on the basis they hand over. *)
Record HttpConnectionManager := {
  hcm_ForwardClientCertDetails : ForwardClientCertDetails;
  hcm_SetCurrentClientCertDetails : option SetCurrentClientCertDetails;
  hcm_ServerName : string;
  hcm_Http2ProtocolOptions : option unit;
  hcm_HttpProtocolOptions : option Http1ProtocolOptions
}.

Definition emptyHttpConnectionManager : HttpConnectionManager :=
  {| hcm_ForwardClientCertDetails := SANITIZE;
     hcm_SetCurrentClientCertDetails := None; hcm_ServerName := "";
     hcm_Http2ProtocolOptions := None; hcm_HttpProtocolOptions := None |}.

Inductive Tracing_OperationName := INGRESS | EGRESS.

Record httpListenerOpts := {
  routeConfig : option Message;
  rds : string;
  connectionManager : option HttpConnectionManager;
  statPrefix : string;
  direction : Tracing_OperationName;
  addGRPCWebFilter : bool;
  useRemoteAddress : bool
}.

Definition set_statPrefix (o : httpListenerOpts) (s : string) : httpListenerOpts :=
  {| routeConfig := routeConfig o; rds := rds o;
     connectionManager := connectionManager o; statPrefix := s;
     direction := direction o; addGRPCWebFilter := addGRPCWebFilter o;
     useRemoteAddress := useRemoteAddress o |}.

Record filterChainOpts := {
  sniHosts : list string;
  destinationCIDRs : list string;
  fco_metadata : option Message;
  tlsContext : option DownstreamTlsContext;
  httpOpts : option httpListenerOpts;
  fco_match : option FilterChainMatch;
  listenerFilters : list ListenerFilter;
  networkFilters : list Filter
}.

(** the zero value [filterChainOpts{}] *)
Definition emptyFilterChainOpts : filterChainOpts :=
  {| sniHosts := []; destinationCIDRs := []; fco_metadata := None;
     tlsContext := None; httpOpts := None; fco_match := None;
     listenerFilters := []; networkFilters := [] |}.

Record buildListenerOpts := {
  env : option Environment;
  proxy : option Proxy;
  proxyInstances : list ServiceInstance;
  proxyLabels : list (list (string * string));
  bind : string;
  port : Z;
  filterChainOpts_ : list filterChainOpts;
  bindToPort : bool;
  skipUserFilters : bool
}.

Definition set_filterChainOpts (o : buildListenerOpts)
    (fcs : list filterChainOpts) : buildListenerOpts :=
  {| env := env o; proxy := proxy o; proxyInstances := proxyInstances o;
     proxyLabels := proxyLabels o; bind := bind o; port := port o;
     filterChainOpts_ := fcs; bindToPort := bindToPort o;
     skipUserFilters := skipUserFilters o |}.

Definition set_bind (o : buildListenerOpts) (b : string) : buildListenerOpts :=
  {| env := env o; proxy := proxy o; proxyInstances := proxyInstances o;
     proxyLabels := proxyLabels o; bind := b; port := port o;
     filterChainOpts_ := filterChainOpts_ o; bindToPort := bindToPort o;
     skipUserFilters := skipUserFilters o |}.

Record inboundListenerEntry := {
  ile_bind : string;
  instanceHostname : string
}.

Record outboundListenerEntry := {
  services : list Service;
  servicePort : Port;
  ole_bind : string;
  listener : Listener;
  locked : bool
}.

Definition set_locked (e : outboundListenerEntry) (b : bool) : outboundListenerEntry :=
  {| services := services e; servicePort := servicePort e;
     ole_bind := ole_bind e; listener := listener e; locked := b |}.

Definition set_services (e : outboundListenerEntry) (s : list Service)
    : outboundListenerEntry :=
  {| services := s; servicePort := servicePort e; ole_bind := ole_bind e;
     listener := listener e; locked := locked e |}.

Definition set_listener (e : outboundListenerEntry) (l : Listener)
    : outboundListenerEntry :=
  {| services := services e; servicePort := servicePort e;
     ole_bind := ole_bind e; listener := l; locked := locked e |}.

(** ** Results of code that can fail or panic *)

Inductive outcome (A : Type) :=
| Ok (a : A)
| Err (msg : string)
| Panic.

Arguments Ok {A} a.
Arguments Err {A} msg.
Arguments Panic {A}.

(** ** Collaborators

    Functions of other packages and of other files of this package that the
    listener code calls; the listener code is stated over any implementation
    of them. *)

Record Collaborators := {
  (** package [net] *)
  IP : Type;
  ParseIP : string → option IP;
  To4 : IP → option IP;
  IsGlobalUnicast : IP → bool;
  IP_String : IP → string;
  (** package [features] *)
  features_HTTP10 : bool;
  features_UseRemoteAddress : bool;
  features_RestrictPodIPTrafficLoops : bool;
  features_EnableFallthroughRoute : bool;
  features_DefaultPortHTTPProxy : Z;
  (** package [util] *)
  ConvertAddressToCidr : string → option CidrRange;
  IsXDSMarshalingToAnyEnabled : Proxy → bool;
  (** package [protocol] *)
  protocol_Parse : string → protocol.Instance;
  (** methods of the model and generated validation *)
  GetServiceAddressForProxy : Service → Proxy → string;
  Listener_Validate : Listener → option string;
  (** other files of this package *)
  isAllowAnyOutbound : Proxy → bool;
  buildInboundNetworkFilters :
    Environment → Proxy → ServiceInstance → list Filter;
  buildSidecarInboundHTTPRouteConfig :
    Environment → Proxy → ServiceInstance → Message;
  buildSidecarOutboundTCPTLSFilterChainOpts :
    Environment → Proxy → list Message → string → option Service → Port →
    list (list (string * string)) → list filterChainOpts;
  findServiceInstanceForIngressListener :
    list ServiceInstance → IstioIngressListener → option ServiceInstance;
  (** the serialised connection manager that [buildHTTPConnectionManager]
      assembles from the options of one HTTP chain *)
  buildHTTPConnectionManager :
    Proxy → option Environment → httpListenerOpts → list plugin.HttpFilter →
    Message;
  (** package [envoyfilter]: the listener as the call leaves it, and the
      error it returns *)
  DeprecatedInsertUserFilters :
    plugin.InputParams → Listener → list (option Message) →
    Listener * option string
}.

(** ** Constants *)

Definition WildcardAddress : string := "0.0.0.0".
Definition WildcardIPv6Address : string := "::".
Definition LocalhostAddress : string := "127.0.0.1".
Definition LocalhostIPv6Address : string := "::1".
Definition EnvoyServerName : string := "istio-envoy".
Definition RDSHttpProxy : string := "http_proxy".

(** constants of [xdsutil], [util] and [constants] *)
Definition xdsutil_TlsInspector : string := "envoy.listener.tls_inspector".
Definition xdsutil_TCPProxy : string := "envoy.tcp_proxy".
Definition xdsutil_HTTPConnectionManager : string := "envoy.http_connection_manager".
Definition util_PassthroughCluster : string := "PassthroughCluster".
Definition util_BlackHoleCluster : string := "BlackHoleCluster".
Definition constants_UnspecifiedIP : string := "0.0.0.0".

(** [sort.Strings] *)
Definition sort_Strings : list string → list string :=
  merge_sort (λ a b : string, Is_true (String.leb a b)).

(** [fmt.Sprintf("%s:%d", bind, port)] *)
Definition listenerKey (b : string) (p : Z) : string :=
  b +:+ ":" +:+ pretty p.

(** * SDS secret configuration (pilot/pkg/security/model)

    The functions that build the SDS configuration of a listener's TLS
    context.  The marshalled form of the credentials plugin configuration
    is kept in a package-level map, [fileBasedMetadataConfigAnyMap]; the
    functions that read or write it take the map and return it.  The
    marshalling of that message is not deterministic: the marshaller is an
    argument, so that two calls can be given different ones, and [None] is
    its error, after which the code dereferences a nil pointer.  (The
    accesses to the map are taken one call at a time.) *)

Module authn_model.

Definition SDSStatPrefix : string := "sdsstat".
Definition K8sSATrustworthyJwtFileName : string :=
  "/var/run/secrets/tokens/istio-token".
Definition FileBasedMetadataPlugName : string :=
  "envoy.grpc_credentials.file_based_metadata".
Definition K8sSAJwtTokenHeaderKey : string := "istio_sds_credentials_header-bin".

(** [types.Any]: the marshalled bytes. *)
Definition Any := Message.

Record FileBasedMetadataConfig := {
  SecretData_Filename : string;
  HeaderKey : string
}.

(** [core.GrpcService_GoogleGrpc_CallCredentials] with credentials from a
    plugin *)
Record CallCredentials := {
  FromPlugin_Name : string;
  FromPlugin_TypedConfig : Any
}.

Record GoogleGrpc := {
  TargetUri : string;
  StatPrefix : string;
  (** whether the channel credentials (local credentials) are set *)
  ChannelCredentials_Local : bool;
  CredentialsFactoryName : string;
  CallCredentials_ : list CallCredentials
}.

(** [auth.SdsSecretConfig]; its configuration source is an API
    configuration source of type GRPC with the given services. *)
Record SdsSecretConfig := {
  sds_Name : string;
  GrpcServices : list GoogleGrpc;
  InitialFetchTimeout : Message
}.

Record CertificateValidationContext := {
  TrustedCa_Filename : string;
  VerifySubjectAltName : list string
}.

Section Sds.

(** [model.NodeMetadataSdsTokenPath] and [features.InitialFetchTimeout] *)
Variable NodeMetadataSdsTokenPath : string.
Variable features_InitialFetchTimeout : Message.

(** [types.MarshalAny] on the credentials plugin configuration *)
Variable MarshalAny : FileBasedMetadataConfig → option Any.

Definition findOrMarshalFileBasedMetadataConfig
    (tokenFileName headerKey : string) (fbMetadata : FileBasedMetadataConfig)
    (fileBasedMetadataConfigAnyMap : gmap (string * string) Any)
    : option (Any * gmap (string * string) Any) :=
  let key := (tokenFileName, headerKey) in
  match fileBasedMetadataConfigAnyMap !! key with
  | Some v => Some (v, fileBasedMetadataConfigAnyMap)
  | None =>
    any ← MarshalAny fbMetadata;
    Some (any, <[ key := any ]> fileBasedMetadataConfigAnyMap)
  end.

Definition ConstructgRPCCallCredentials (tokenFileName headerKey : string)
    (fileBasedMetadataConfigAnyMap : gmap (string * string) Any)
    : option (list CallCredentials * gmap (string * string) Any) :=
  let config :=
    {| SecretData_Filename := tokenFileName; HeaderKey := headerKey |} in
  '(any, anyMap) ←
    findOrMarshalFileBasedMetadataConfig tokenFileName headerKey config
      fileBasedMetadataConfigAnyMap;
  Some ([ {| FromPlugin_Name := FileBasedMetadataPlugName;
             FromPlugin_TypedConfig := any |} ], anyMap).

Definition ConstructSdsSecretConfigForGatewayListener (name sdsUdsPath : string)
    : option SdsSecretConfig :=
  if String.eqb name "" || String.eqb sdsUdsPath "" then None
  else
    Some {| sds_Name := name;
            GrpcServices :=
              [ {| TargetUri := sdsUdsPath; StatPrefix := SDSStatPrefix;
                   ChannelCredentials_Local := false;
                   CredentialsFactoryName := "";
                   CallCredentials_ := [] |} ];
            InitialFetchTimeout := features_InitialFetchTimeout |}.

(** nil is [Some (None, _)]; the outer [None] is the panic. *)
Definition ConstructSdsSecretConfig (name sdsUdsPath : string)
    (metadata : gmap string string)
    (fileBasedMetadataConfigAnyMap : gmap (string * string) Any)
    : option (option SdsSecretConfig * gmap (string * string) Any) :=
  if String.eqb name "" || String.eqb sdsUdsPath "" then
    Some (None, fileBasedMetadataConfigAnyMap)
  else
    '(callCredentials, anyMap) ←
      match metadata !! NodeMetadataSdsTokenPath with
      | Some sdsTokenPath =>
        if bool_decide (0 < String.length sdsTokenPath)%nat then
          ConstructgRPCCallCredentials sdsTokenPath K8sSAJwtTokenHeaderKey
            fileBasedMetadataConfigAnyMap
        else
          ConstructgRPCCallCredentials K8sSATrustworthyJwtFileName
            K8sSAJwtTokenHeaderKey fileBasedMetadataConfigAnyMap
      | None =>
        ConstructgRPCCallCredentials K8sSATrustworthyJwtFileName
          K8sSAJwtTokenHeaderKey fileBasedMetadataConfigAnyMap
      end;
    Some (Some {| sds_Name := name;
                  GrpcServices :=
                    [ {| TargetUri := sdsUdsPath; StatPrefix := SDSStatPrefix;
                         ChannelCredentials_Local := true;
                         CredentialsFactoryName := FileBasedMetadataPlugName;
                         CallCredentials_ := callCredentials |} ];
                  InitialFetchTimeout := features_InitialFetchTimeout |},
          anyMap).

Definition ConstructValidationContext (rootCAFilePath : string)
    (subjectAltNames : list string) : CertificateValidationContext :=
  {| TrustedCa_Filename := rootCAFilePath;
     VerifySubjectAltName :=
       if bool_decide (0 < length subjectAltNames)%nat
       then subjectAltNames else [] |}.

(** The token file that the workload's SDS configuration names: the one of
    the node metadata when there is a non-empty one, the default one
    otherwise. *)
Definition tokenFileOf (metadata : gmap string string) : string :=
  match metadata !! NodeMetadataSdsTokenPath with
  | Some sdsTokenPath =>
    if bool_decide (0 < String.length sdsTokenPath)%nat
    then sdsTokenPath else K8sSATrustworthyJwtFileName
  | None => K8sSATrustworthyJwtFileName
  end.


End Sds.

End authn_model.

(** * Validation of the service model (pilot/pkg/model/validation.go)

    The validation functions collect their errors with
    [multierror.Append]; the collected errors are a list, nil being the
    empty list, and an error is the format of its [fmt.Errorf] with the
    arguments it is given. *)

Module validation.

Inductive ValidationError :=
| InvalidType (type : string)
  (** ["invalid plural: %q"] is given the type, not the plural *)
| InvalidPlural (type : string)
| UnknownMessageType (messageName : string)
| DuplicateType (type : string)
| DuplicateMessageType (messageName : string)
| EmptyHostname
| InvalidHostnamePart (part : string)
| NoPort
| EmptyPortName
| InvalidPortName (name : string)
| InvalidServicePort (port : Z) (name : string) (err : string)
| MissingService
| InvalidLabels (err : string)
| InvalidEndpointPort (err : string)
| MissingServicePort
| UnknownServicePort (name : string)
| UnexpectedPort (port expected : Z)
| UnexpectedProtocol (p expected : protocol.Instance).

(** [model.ProtoSchema], the fields that the validation reads *)
Record ProtoSchema := {
  schema_Type : string;
  schema_Plural : string;
  schema_MessageName : string;
  schema_ClusterScoped : bool
}.

(** [model.ServiceInstance] with its two pointers that may be nil *)
Record ServiceInstance := {
  instance_Service : option Service;
  instance_Labels : list (string * string);
  instance_EndpointPort : Z;
  instance_ServicePort : option Port
}.

(** [strings.Split] with a separator of one byte *)
Fixpoint strings_Split (s : string) (sep : ascii) : list string :=
  match s with
  | EmptyString => [EmptyString]
  | String c rest =>
    if Ascii.eqb c sep then EmptyString :: strings_Split rest sep
    else
      match strings_Split rest sep with
      | [] => [String c EmptyString]
      | w :: ws => String c w :: ws
      end
  end.

Section Validation.

(** [labels.IsDNS1123Label]; whether [proto.MessageType] finds the message;
    [config.ValidatePort] and [Labels.Validate], with the error as its
    text; [PortList.Get] *)
Variable IsDNS1123Label : string → bool.
Variable proto_MessageType : string → bool.
Variable config_ValidatePort : Z → option string.
Variable Labels_Validate : list (string * string) → option string.
Variable PortList_Get : list Port → string → option Port.

(** The state of the loop of [ConfigDescriptor.Validate]: the errors and
    the three maps of what was seen. *)
Record descriptorState := {
  errs : list ValidationError;
  descriptorTypes : gset string;
  messages : gset string;
  clusterMessages : gset string
}.

Definition validateSchema (st : descriptorState) (v : ProtoSchema)
    : descriptorState :=
  let errs := errs st in
  let errs :=
    if negb (IsDNS1123Label (schema_Type v))
    then errs ++ [InvalidType (schema_Type v)] else errs in
  let errs :=
    if negb (IsDNS1123Label (schema_Plural v))
    then errs ++ [InvalidPlural (schema_Type v)] else errs in
  let errs :=
    if negb (proto_MessageType (schema_MessageName v))
    then errs ++ [UnknownMessageType (schema_MessageName v)] else errs in
  let errs :=
    if bool_decide (schema_Type v ∈ descriptorTypes st)
    then errs ++ [DuplicateType (schema_Type v)] else errs in
  let descriptorTypes := {[ schema_Type v ]} ∪ descriptorTypes st in
  if schema_ClusterScoped v then
    {| errs :=
         if bool_decide (schema_MessageName v ∈ clusterMessages st)
         then errs ++ [DuplicateMessageType (schema_MessageName v)] else errs;
       descriptorTypes := descriptorTypes;
       messages := messages st;
       clusterMessages := {[ schema_MessageName v ]} ∪ clusterMessages st |}
  else
    {| errs :=
         if bool_decide (schema_MessageName v ∈ messages st)
         then errs ++ [DuplicateMessageType (schema_MessageName v)] else errs;
       descriptorTypes := descriptorTypes;
       messages := {[ schema_MessageName v ]} ∪ messages st;
       clusterMessages := clusterMessages st |}.

Definition ConfigDescriptor_Validate (descriptor : list ProtoSchema)
    : list ValidationError :=
  errs (foldl validateSchema
          {| errs := []; descriptorTypes := ∅; messages := ∅;
             clusterMessages := ∅ |}
          descriptor).

(** The body of the loop of [Service.Validate] over the ports. *)
Definition validateServicePort (s : Service) (errs : list ValidationError)
    (port : Port) : list ValidationError :=
  let errs :=
    if String.eqb (port_Name port) "" then
      if bool_decide (1 < length (Ports s))%nat
      then errs ++ [EmptyPortName] else errs
    else if negb (IsDNS1123Label (port_Name port))
    then errs ++ [InvalidPortName (port_Name port)]
    else errs in
  match config_ValidatePort (port_Port port) with
  | Some err =>
    errs ++ [InvalidServicePort (port_Port port) (port_Name port) err]
  | None => errs
  end.

Definition Service_Validate (s : Service) : list ValidationError :=
  let errs :=
    if bool_decide (String.length (Hostname s) = 0%nat)
    then [EmptyHostname] else [] in
  let parts := strings_Split (Hostname s) "." in
  let errs :=
    foldl (λ errs part,
             if negb (IsDNS1123Label part)
             then errs ++ [InvalidHostnamePart part] else errs)
          errs parts in
  let errs :=
    if bool_decide (length (Ports s) = 0%nat) then errs ++ [NoPort]
    else errs in
  foldl (validateServicePort s) errs (Ports s).

Definition ServiceInstance_Validate (instance : ServiceInstance)
    : list ValidationError :=
  let errs :=
    match instance_Service instance with
    | None => [MissingService]
    | Some service => Service_Validate service
    end in
  let errs :=
    match Labels_Validate (instance_Labels instance) with
    | Some err => errs ++ [InvalidLabels err]
    | None => errs
    end in
  let errs :=
    match config_ValidatePort (instance_EndpointPort instance) with
    | Some err => errs ++ [InvalidEndpointPort err]
    | None => errs
    end in
  match instance_ServicePort instance with
  | None => errs ++ [MissingServicePort]
  | Some port =>
    match instance_Service instance with
    | Some service =>
      match PortList_Get (Ports service) (port_Name port) with
      | None => errs ++ [UnknownServicePort (port_Name port)]
      | Some expected =>
        let errs :=
          if negb (bool_decide (port_Port expected = port_Port port))
          then errs ++ [UnexpectedPort (port_Port port) (port_Port expected)]
          else errs in
        if negb (bool_decide (port_Protocol expected = port_Protocol port))
        then errs ++ [UnexpectedProtocol (port_Protocol port)
                        (port_Protocol expected)]
        else errs
      end
    | None => errs
    end
  end.

(** A schema that passes the checks on its own: its type and its plural
    are DNS labels and its message is known. *)
Definition schemaWellFormed (v : ProtoSchema) : bool :=
  IsDNS1123Label (schema_Type v) && IsDNS1123Label (schema_Plural v)
  && proto_MessageType (schema_MessageName v).

(** A port of a service that passes the checks: it has a name that is a
    DNS label, or no name if it is the only port, and its number is valid. *)
Definition servicePortValid (s : Service) (port : Port) : bool :=
  (if String.eqb (port_Name port) ""
   then negb (bool_decide (1 < length (Ports s))%nat)
   else IsDNS1123Label (port_Name port))
  && bool_decide (config_ValidatePort (port_Port port) = None).

End Validation.

End validation.

Section Synthesis.

Variable D : Collaborators.
Variable configgen : ConfigGeneratorImpl.

(** ** Address resolution *)

(** The loop of [getActualWildcardAndLocalHost] over the addresses that are
    left: an address that does not parse is skipped, the first one with a
    4-byte form decides for IPv4. *)
Fixpoint wildcardAndLocalHostOf (addrs : list string) : string * string :=
  match addrs with
  | [] => (WildcardIPv6Address, LocalhostIPv6Address)
  | a :: rest =>
    match ParseIP D a with
    | None => wildcardAndLocalHostOf rest
    | Some addr =>
      match To4 D addr with
      | Some _ => (WildcardAddress, LocalhostAddress)
      | None => wildcardAndLocalHostOf rest
      end
    end
  end.

Definition getActualWildcardAndLocalHost (node : Proxy) : string * string :=
  wildcardAndLocalHostOf (IPAddresses node).

Fixpoint firstGlobalUnicast (addrs : list string) : option string :=
  match addrs with
  | [] => None
  | ipAddr :: rest =>
    match ParseIP D ipAddr with
    | Some ip =>
      if IsGlobalUnicast D ip then Some (IP_String D ip)
      else firstGlobalUnicast rest
    | None => firstGlobalUnicast rest
    end
  end.

Definition getSidecarInboundBindIP (node : Proxy) : string :=
  let defaultInboundIP := fst (getActualWildcardAndLocalHost node) in
  default defaultInboundIP (firstGlobalUnicast (IPAddresses node)).

Definition validatePort (node : Proxy) (i : Z) (bindToPort : bool) : bool :=
  if negb bindToPort then true
  else if bool_decide (i > 1024) then true
  else String.eqb (metadata node NodeMetadataSidecarUID) "0".

(** ** Filter chain assembly *)

Definition needsInspector (chain : filterChainOpts) : bool :=
  let needsALPN :=
    match tlsContext chain with
    | Some tc =>
      match tls_CommonTlsContext tc with
      | Some c => bool_decide (0 < length (AlpnProtocols c))%nat
      | None => false
      end
    | None => false
    end in
  bool_decide (0 < length (sniHosts chain))%nat || needsALPN.

Definition set_ServerNames (m : FilterChainMatch) (names : list string)
    : FilterChainMatch :=
  {| DestinationPort := DestinationPort m; PrefixRanges := PrefixRanges m;
     ServerNames := names; TransportProtocol := TransportProtocol m;
     ApplicationProtocols := ApplicationProtocols m |}.

Definition set_PrefixRanges (m : FilterChainMatch) (rs : list CidrRange)
    : FilterChainMatch :=
  {| DestinationPort := DestinationPort m; PrefixRanges := rs;
     ServerNames := ServerNames m; TransportProtocol := TransportProtocol m;
     ApplicationProtocols := ApplicationProtocols m |}.

(** One step of the loop over the (sorted) destination CIDRs. *)
Definition addPrefixRange (m : FilterChainMatch) (d : string) : FilterChainMatch :=
  if bool_decide (String.length d = 0%nat) then m
  else
    match ConvertAddressToCidr D d with
    | Some cidr =>
      if negb (String.eqb (AddressPrefix cidr) constants_UnspecifiedIP)
      then set_PrefixRanges m (PrefixRanges m ++ [cidr])
      else m
    | None => m
    end.

(** The match that [buildListener] gives the chain built from [chain]. *)
Definition chainMatch (chain : filterChainOpts) : option FilterChainMatch :=
  let needMatch := bool_decide (is_Some (fco_match chain)) in
  let match0 := default emptyMatch (fco_match chain) in
  let match1 :=
    if bool_decide (0 < length (sniHosts chain))%nat then
      let sorted := sort_Strings (sniHosts chain) in
      let fullWildcardFound := existsb (String.eqb "*") sorted in
      if negb fullWildcardFound then set_ServerNames match0 sorted else match0
    else match0 in
  let match2 :=
    if bool_decide (0 < length (destinationCIDRs chain))%nat then
      foldl addPrefixRange match1 (sort_Strings (destinationCIDRs chain))
    else match1 in
  if negb needMatch && DeepEqual match2 emptyMatch then None else Some match2.

(** The listener filters of one chain, each added unless one of its name is
    there already. *)
Definition addListenerFilter (st : gset string * list ListenerFilter)
    (f : ListenerFilter) : gset string * list ListenerFilter :=
  if bool_decide (lf_Name f ∈ st.1) then st
  else ({[ lf_Name f ]} ∪ st.1, st.2 ++ [f]).

Definition buildListener (opts : buildListenerOpts) : Listener :=
  let needTLSInspector := existsb needsInspector (filterChainOpts_ opts) in
  let st0 : gset string * list ListenerFilter :=
    if needTLSInspector
    then ({[ xdsutil_TlsInspector ]}, [ {| lf_Name := xdsutil_TlsInspector |} ])
    else (∅, []) in
  let '(st, filterChains) :=
    foldl (λ '(st, fcs) chain,
             (foldl addListenerFilter st (listenerFilters chain),
              fcs ++ [ {| fc_FilterChainMatch := chainMatch chain;
                          fc_TlsContext := tlsContext chain;
                          fc_Filters := []; fc_Metadata := None |} ]))
          (st0, []) (filterChainOpts_ opts) in
  let deprecatedV1 := if negb (bindToPort opts) then Some false else None in
  {| l_Name := bind opts +:+ "_" +:+ pretty (port opts);
     l_Address := BuildAddress (bind opts) (uint32 (port opts));
     l_ListenerFilters := st.2;
     l_FilterChains := filterChains;
     l_DeprecatedV1 := deprecatedV1;
     l_TrafficDirection := UNSPECIFIED |}.

(** [fc.FilterChainMatch == nil || reflect.DeepEqual(fc.FilterChainMatch, wildcardMatch)] *)
Definition isWildcardChain (fc : FilterChain) : bool :=
  match fc_FilterChainMatch fc with
  | None => true
  | Some m => DeepEqual m emptyMatch
  end.

Definition passthroughFilter (node : Proxy) : Filter :=
  let tcpProxy : Message := util_PassthroughCluster in
  {| filter_Name := xdsutil_TCPProxy;
     filter_ConfigType :=
       Some (if IsXDSMarshalingToAnyEnabled D node
             then Filter_TypedConfig tcpProxy else Filter_Config tcpProxy) |}.

Definition appendListenerFallthroughRoute (l : Listener)
    (opts : buildListenerOpts) (node : Proxy)
    (currentListenerEntry : option outboundListenerEntry)
    : Listener * buildListenerOpts :=
  if features_EnableFallthroughRoute D && isAllowAnyOutbound D node then
    if existsb isWildcardChain (l_FilterChains l) then (l, opts)
    else if match currentListenerEntry with
            | Some e => existsb isWildcardChain (l_FilterChains (listener e))
            | None => false
            end then (l, opts)
    else
      (set_FilterChains l
         (l_FilterChains l ++
          [ {| fc_FilterChainMatch := Some emptyMatch; fc_TlsContext := None;
               fc_Filters := []; fc_Metadata := None |} ]),
       set_filterChainOpts opts
         (filterChainOpts_ opts ++
          [ {| sniHosts := []; destinationCIDRs := []; fco_metadata := None;
               tlsContext := None; httpOpts := None; fco_match := None;
               listenerFilters := [];
               networkFilters := [passthroughFilter node] |} ]))
  else (l, opts).

(** The body of the loop of [buildCompleteFilterChain] for one chain: the
    filters appended to the chain of the listener, and the connection
    manager when the chain is an HTTP one. *)
Definition completeChain (node : Proxy) (e : option Environment) (name : string)
    (chain : plugin.FilterChain) (opt : filterChainOpts) (fc : FilterChain)
    : FilterChain * option Message :=
  let fc := set_Metadata fc (fco_metadata opt) in
  match httpOpts opt with
  | None =>
    if bool_decide (0 < length (networkFilters opt))%nat then
      let n := length (networkFilters opt) in
      (set_Filters fc
         (fc_Filters fc ++ take (n - 1)%nat (networkFilters opt) ++
          plugin.TCP_ chain ++ drop (n - 1)%nat (networkFilters opt)),
       None)
    else (set_Filters fc (fc_Filters fc ++ plugin.TCP_ chain), None)
  | Some ho =>
    let ho := set_statPrefix ho name in
    let hcm := buildHTTPConnectionManager D node e ho (plugin.HTTP_ chain) in
    let filter :=
      {| filter_Name := xdsutil_HTTPConnectionManager;
         filter_ConfigType :=
           Some (if IsXDSMarshalingToAnyEnabled D node
                 then Filter_TypedConfig hcm else Filter_Config hcm) |} in
    (set_Filters fc (fc_Filters fc ++ plugin.TCP_ chain ++ [filter]), Some hcm)
  end.

(** The loop [for i := range mutable.FilterChains]: [None] when an index is
    out of range. *)
Fixpoint completeChains (node : Proxy) (e : option Environment) (name : string)
    (i : nat) (chains : list plugin.FilterChain) (opts : list filterChainOpts)
    (fcs : list FilterChain) (hcms : list (option Message))
    : option (list FilterChain * list (option Message)) :=
  match chains with
  | [] => Some (fcs, hcms)
  | chain :: rest =>
    opt ← opts !! i;
    fc ← fcs !! i;
    let '(fc', hcm) := completeChain node e name chain opt fc in
    completeChains node e name (S i) rest opts (<[i := fc']> fcs) (hcms ++ [hcm])
  end.

Definition buildCompleteFilterChain (pluginParams : plugin.InputParams)
    (mutable : plugin.MutableObjects) (opts : buildListenerOpts)
    : outcome Listener :=
  if bool_decide (length (filterChainOpts_ opts) = 0%nat) then
    Err "must have more than 0 chains in listener"
  else
    let l := plugin.Listener_ mutable in
    match completeChains (plugin.Node pluginParams) (env opts) (l_Name l) 0
            (plugin.FilterChains mutable) (filterChainOpts_ opts)
            (l_FilterChains l) [] with
    | None => Panic
    | Some (fcs, httpConnectionManagers) =>
      let l := set_FilterChains l fcs in
      if negb (skipUserFilters opts) then
        match DeprecatedInsertUserFilters D pluginParams l httpConnectionManagers with
        | (_, Some err) => Err err
        | (l', None) => Ok l'
        end
      else Ok l
    end.

(** A loop whose body can panic. *)
Fixpoint forEach {A S : Type} (body : S → A → option S) (s : S) (l : list A)
    : option S :=
  match l with
  | [] => Some s
  | x :: rest => s' ← body s x; forEach body s' rest
  end.

(** The hooks are called in registration order; a hook's error is logged and
    the objects are used as the hook left them. *)
Definition callHooks
    (hook : plugin.Plugin → plugin.InputParams → plugin.MutableObjects →
            plugin.MutableObjects * option string)
    (pluginParams : plugin.InputParams) (mutable : plugin.MutableObjects)
    : plugin.MutableObjects :=
  foldl (λ mu p, (hook p pluginParams mu).1) mutable (Plugins configgen).

(** [make([]plugin.FilterChain, len(l.FilterChains))] *)
Definition newMutableObjects (l : Listener) : plugin.MutableObjects :=
  {| plugin.Listener_ := l;
     plugin.FilterChains :=
       replicate (length (l_FilterChains l)) plugin.emptyFilterChain |}.

(** ** Inbound listeners *)

Definition buildSidecarInboundHTTPListenerOptsForPortOrUDS (node : Proxy)
    (pluginParams : plugin.InputParams) (instance : ServiceInstance)
    : httpListenerOpts :=
  let p := port_Protocol (ep_ServicePort (Endpoint instance)) in
  {| routeConfig :=
       Some (buildSidecarInboundHTTPRouteConfig D (plugin.Env pluginParams)
               (plugin.Node pluginParams) instance);
     rds := "";
     useRemoteAddress := false;
     direction := INGRESS;
     connectionManager :=
       Some {| hcm_ForwardClientCertDetails := APPEND_FORWARD;
               hcm_SetCurrentClientCertDetails :=
                 Some {| cert_Subject := true; cert_Uri := true;
                         cert_Dns := true |};
               hcm_ServerName := EnvoyServerName;
               hcm_Http2ProtocolOptions :=
                 if protocol.IsHTTP2 p then Some tt else None;
               hcm_HttpProtocolOptions :=
                 if features_HTTP10 D
                    || String.eqb (metadata node NodeMetadataHTTP10) "1"
                 then Some {| AllowAbsoluteUrl := false; AcceptHttp_10 := true |}
                 else None |};
     statPrefix := "";
     addGRPCWebFilter :=
       protocol.IsHTTP2 p && bool_decide (p = protocol.GRPCWeb) |}.

(** The loop over [allChains] of [buildSidecarInboundListenerForPortOrUDS]:
    the chain options appended to [acc], or [None] when the listener
    protocol is unsupported and the function returns nil. *)
Fixpoint inboundFilterChainOpts (node : Proxy)
    (pluginParams : plugin.InputParams) (instance : ServiceInstance)
    (acc : list filterChainOpts) (allChains : list plugin.FilterChain)
    : option (list filterChainOpts) :=
  match allChains with
  | [] => Some acc
  | chain :: rest =>
    let add (ho : option httpListenerOpts) (tcpNetworkFilters : list Filter) :=
      inboundFilterChainOpts node pluginParams instance
        (acc ++ [ {| sniHosts := []; destinationCIDRs := [];
                     fco_metadata := None;
                     tlsContext := plugin.TLSContext chain;
                     httpOpts := ho;
                     fco_match := plugin.FilterChainMatch_ chain;
                     listenerFilters := plugin.ListenerFilters chain;
                     networkFilters := tcpNetworkFilters |} ]) rest in
    match plugin.ListenerProtocol_ pluginParams with
    | plugin.ListenerProtocolHTTP =>
      add (Some (buildSidecarInboundHTTPListenerOptsForPortOrUDS node
                   pluginParams instance)) []
    | plugin.ListenerProtocolTCP =>
      add None (buildInboundNetworkFilters D (plugin.Env pluginParams)
                  (plugin.Node pluginParams) instance)
    | plugin.ListenerProtocolUnknown => None
    end
  end.

(** The part of [buildSidecarInboundListenerForPortOrUDS] between the check
    for a duplicate and the registration of the key: the chain options, the
    listener, the hooks and the assembly.  [None] when the listener protocol
    is unsupported and the function returns nil. *)
Definition assembleInboundListener (node : Proxy)
    (listenerOpts : buildListenerOpts) (pluginParams : plugin.InputParams)
    (instance : ServiceInstance) : option (outcome Listener) :=
  let allChains :=
    flat_map (λ p, plugin.OnInboundFilterChains p pluginParams)
             (Plugins configgen) in
  let allChains :=
    if bool_decide (length allChains ≠ 0%nat) then allChains
    else [plugin.emptyFilterChain] in
  fcos ← inboundFilterChainOpts node pluginParams instance
            (filterChainOpts_ listenerOpts) allChains;
  let listenerOpts := set_filterChainOpts listenerOpts fcos in
  let l := set_TrafficDirection (buildListener listenerOpts) INBOUND in
  let mutable :=
    callHooks plugin.OnInboundListener pluginParams (newMutableObjects l) in
  Some (buildCompleteFilterChain pluginParams mutable listenerOpts).

(** [buildSidecarInboundListenerForPortOrUDS]: the listener it returns (nil
    is [None]), and the listener map and the status events as it leaves
    them.  The outer [None] is a panic.  Every path of the source reads
    [pluginParams.ServiceInstance], so the instance is taken first. *)
Definition buildSidecarInboundListenerForPortOrUDS (node : Proxy)
    (listenerOpts : buildListenerOpts) (pluginParams : plugin.InputParams)
    (listenerMap : gmap string inboundListenerEntry) (push : PushContext)
    : option (option Listener * gmap string inboundListenerEntry * PushContext) :=
  instance ← plugin.ServiceInstance_ pluginParams;
  let listenerMapKey := listenerKey (bind listenerOpts) (port listenerOpts) in
  match listenerMap !! listenerMapKey with
  | Some old =>
    Some (None, listenerMap,
          push_Add push ProxyStatusConflictInboundListener
            (ID (plugin.Node pluginParams)) (plugin.Node pluginParams)
            ("Conflicting inbound listener:" +:+ listenerMapKey +:+
             ". existing: " +:+ instanceHostname old +:+
             ", incoming: " +:+ Hostname (si_Service instance)))
  | None =>
    match assembleInboundListener node listenerOpts pluginParams instance with
    | None => Some (None, listenerMap, push)
    | Some Panic => None
    | Some (Err _) => Some (None, listenerMap, push)
    | Some (Ok l) =>
      Some (Some l,
            <[ listenerMapKey :=
                 {| ile_bind := bind listenerOpts;
                    instanceHostname := Hostname (si_Service instance) |} ]>
              listenerMap,
            push)
    end
  end.

(** The state of the loops of [buildSidecarInboundListeners]. *)
Record inboundState := {
  in_listeners : list Listener;
  in_listenerMap : gmap string inboundListenerEntry;
  in_push : PushContext
}.

(** [if l := ...ForPortOrUDS(...); l != nil { listeners = append(listeners, l) }] *)
Definition inboundAppend (node : Proxy) (st : inboundState)
    (listenerOpts : buildListenerOpts) (pluginParams : plugin.InputParams)
    : option inboundState :=
  '(l, listenerMap, push) ←
    buildSidecarInboundListenerForPortOrUDS node listenerOpts pluginParams
      (in_listenerMap st) (in_push st);
  Some {| in_listeners :=
            match l with
            | Some l => in_listeners st ++ [l]
            | None => in_listeners st
            end;
          in_listenerMap := listenerMap; in_push := push |}.

Definition proxyLabelsOf (node : Proxy) : list (list (string * string)) :=
  Labels <$> ServiceInstances node.

(** The body of the loop over the service instances of the proxy. *)
Definition inboundFromInstance (e : Environment) (node : Proxy)
    (st : inboundState) (instance : ServiceInstance) : option inboundState :=
  let endpoint := Endpoint instance in
  let bind := ep_Address endpoint in
  let listenerOpts :=
    {| env := Some e; proxy := Some node; proxyInstances := ServiceInstances node;
       proxyLabels := proxyLabelsOf node; bind := bind;
       port := ep_Port endpoint; filterChainOpts_ := [];
       bindToPort := false; skipUserFilters := false |} in
  let pluginParams :=
    {| plugin.ListenerProtocol_ :=
         plugin.ModelProtocolToListenerProtocol
           (port_Protocol (ep_ServicePort endpoint));
       plugin.DeprecatedListenerCategory := plugin.SIDECAR_INBOUND;
       plugin.ListenerCategory_ := plugin.ANY;
       plugin.Env := e; plugin.Node := node;
       plugin.ServiceInstance_ := Some instance;
       plugin.Port_ := ep_ServicePort endpoint;
       plugin.Service_ := None; plugin.Bind := bind |} in
  inboundAppend node st listenerOpts pluginParams.

(** The body of the loop over the ingress listeners of the Sidecar
    resource.  [findServiceInstanceForIngressListener] returns a copy of the
    instance it finds, which the body then updates. *)
Definition inboundFromIngress (e : Environment) (node : Proxy)
    (noneMode : bool) (st : inboundState)
    (ingressListener : IstioIngressListener) : option inboundState :=
  let bindToPort :=
    if noneMode then true
    else bool_decide (ingress_CaptureMode ingressListener = CaptureMode_NONE) in
  let listenPort :=
    {| port_Port := np_Number (ingress_Port ingressListener);
       port_Protocol :=
         protocol_Parse D (np_Protocol (ingress_Port ingressListener));
       port_Name := np_Name (ingress_Port ingressListener) |} in
  match findServiceInstanceForIngressListener D (ServiceInstances node)
          ingressListener with
  | None => Some st
  | Some instance =>
    let bind := ingress_Bind ingressListener in
    let bind :=
      if bool_decide (String.length bind = 0%nat) && bindToPort
      then getSidecarInboundBindIP node
      else if bool_decide (String.length bind = 0%nat)
      then ep_Address (Endpoint instance)
      else bind in
    let listenerOpts :=
      {| env := Some e; proxy := Some node; proxyInstances := ServiceInstances node;
         proxyLabels := proxyLabelsOf node; bind := bind;
         port := port_Port listenPort; filterChainOpts_ := [];
         bindToPort := bindToPort; skipUserFilters := false |} in
    let instance :=
      {| Endpoint :=
           {| ep_Address := bind; ep_Port := port_Port listenPort;
              ep_ServicePort := listenPort |};
         si_Service := si_Service instance; Labels := Labels instance |} in
    let pluginParams :=
      {| plugin.ListenerProtocol_ :=
           plugin.ModelProtocolToListenerProtocol (port_Protocol listenPort);
         plugin.DeprecatedListenerCategory := plugin.SIDECAR_INBOUND;
         plugin.ListenerCategory_ := plugin.ANY;
         plugin.Env := e; plugin.Node := node;
         plugin.ServiceInstance_ := Some instance;
         plugin.Port_ := listenPort;
         plugin.Service_ := None; plugin.Bind := bind |} in
    inboundAppend node st listenerOpts pluginParams
  end.

(** [buildSidecarInboundListeners]: the listeners and the status events; the
    listener map is local to the call. *)
Definition buildSidecarInboundListeners (e : Environment) (node : Proxy)
    (push : PushContext) : option (list Listener * PushContext) :=
  let st0 := {| in_listeners := []; in_listenerMap := ∅; in_push := push |} in
  let sidecarScope := proxy_SidecarScope node in
  let noneMode := bool_decide (InterceptionMode node = InterceptionNone) in
  if negb (HasCustomIngressListeners sidecarScope) then
    if bool_decide (InterceptionMode node = InterceptionNone) then Some ([], push)
    else
      st ← forEach (inboundFromInstance e node) st0 (ServiceInstances node);
      Some (in_listeners st, in_push st)
  else
    st ← forEach (inboundFromIngress e node noneMode) st0 (Ingress sidecarScope);
    Some (in_listeners st, in_push st).

(** ** Outbound listeners *)

Definition protocolName (p : protocol.Instance) : string :=
  match plugin.ModelProtocolToListenerProtocol p with
  | plugin.ListenerProtocolHTTP => "HTTP"
  | plugin.ListenerProtocolTCP => "TCP"
  | plugin.ListenerProtocolUnknown => "UNKNOWN"
  end.

Record outboundListenerConflict := {
  olc_metric : Metric;
  olc_node : Proxy;
  listenerName : string;
  currentProtocol : protocol.Instance;
  currentServices : list Service;
  newHostname : string;
  newProtocol : protocol.Instance
}.

Definition addMetric (c : outboundListenerConflict) (push : PushContext)
    : PushContext :=
  let currentHostnames := Hostname <$> currentServices c in
  let concatHostnames := String.concat "," currentHostnames in
  push_Add push (olc_metric c) (listenerName c) (olc_node c)
    ("Listener=" +:+ listenerName c +:+
     " Accepted" +:+ protocolName (currentProtocol c) +:+ "=" +:+
     concatHostnames +:+
     " Rejected" +:+ protocolName (newProtocol c) +:+ "=" +:+ newHostname c +:+
     " " +:+ protocolName (currentProtocol c) +:+ "Services=" +:+
     pretty (length (currentServices c))).

(** What the two functions that prepare the chain options of an outbound
    listener return and leave in the variables they receive by pointer. *)
Record outboundOpts := {
  ret : bool;
  opts : list filterChainOpts;
  oo_destinationCIDR : string;
  oo_listenerMapKey : string;
  oo_currentListenerEntry : option outboundListenerEntry;
  oo_listenerOpts : buildListenerOpts;
  oo_listenerMap : gmap string outboundListenerEntry;
  oo_push : PushContext
}.

Definition buildSidecarOutboundHTTPListenerOptsForPortOrUDS
    (listenerOpts : buildListenerOpts) (pluginParams : plugin.InputParams)
    (listenerMap : gmap string outboundListenerEntry) (push : PushContext)
    (actualWildcard : string) : outboundOpts :=
  let listenerOpts :=
    if bool_decide (String.length (bind listenerOpts) = 0%nat)
    then set_bind listenerOpts actualWildcard else listenerOpts in
  let listenerMapKey :=
    listenerKey (bind listenerOpts) (port_Port (plugin.Port_ pluginParams)) in
  let result r o m p :=
    {| ret := r; opts := o; oo_destinationCIDR := "";
       oo_listenerMapKey := listenerMapKey;
       oo_currentListenerEntry := listenerMap !! listenerMapKey;
       oo_listenerOpts := listenerOpts; oo_listenerMap := m; oo_push := p |} in
  match listenerMap !! listenerMapKey with
  | Some currentListenerEntry =>
    if locked currentListenerEntry then result false [] listenerMap push
    else
      match plugin.Service_ pluginParams with
      | Some service =>
        let push :=
          if negb (protocol.IsHTTP
                     (port_Protocol (servicePort currentListenerEntry)))
          then
            addMetric
              {| olc_metric := ProxyStatusConflictOutboundListenerTCPOverHTTP;
                 olc_node := plugin.Node pluginParams;
                 listenerName := listenerMapKey;
                 currentServices := services currentListenerEntry;
                 currentProtocol :=
                   port_Protocol (servicePort currentListenerEntry);
                 newHostname := Hostname service;
                 newProtocol := port_Protocol (plugin.Port_ pluginParams) |}
              push
          else push in
        result false []
          (<[ listenerMapKey :=
                set_services currentListenerEntry
                  (services currentListenerEntry ++ [service]) ]> listenerMap)
          push
      | None => result false [] listenerMap push
      end
  | None =>
    let rdsName :=
      if bool_decide (port_Port (plugin.Port_ pluginParams) = 0)
      then bind listenerOpts
      else pretty (port_Port (plugin.Port_ pluginParams)) in
    let ho :=
      {| routeConfig := None; rds := rdsName;
         connectionManager :=
           if features_HTTP10 D
              || String.eqb (metadata (plugin.Node pluginParams)
                               NodeMetadataHTTP10) "1"
           then Some {| hcm_ForwardClientCertDetails := SANITIZE;
                        hcm_SetCurrentClientCertDetails := None;
                        hcm_ServerName := "";
                        hcm_Http2ProtocolOptions := None;
                        hcm_HttpProtocolOptions :=
                          Some {| AllowAbsoluteUrl := false;
                                  AcceptHttp_10 := true |} |}
           else None;
         statPrefix := ""; direction := EGRESS; addGRPCWebFilter := false;
         useRemoteAddress := features_UseRemoteAddress D |} in
    result true
      [ {| sniHosts := []; destinationCIDRs := []; fco_metadata := None;
           tlsContext := None; httpOpts := Some ho; fco_match := None;
           listenerFilters := []; networkFilters := [] |} ]
      listenerMap push
  end.

(** [None] is the panic of calling [GetServiceAddressForProxy] on a nil
    service. *)
Definition buildSidecarOutboundTCPListenerOptsForPortOrUDS
    (listenerOpts : buildListenerOpts) (pluginParams : plugin.InputParams)
    (listenerMap : gmap string outboundListenerEntry) (push : PushContext)
    (virtualServices : list Message) (actualWildcard : string)
    : option outboundOpts :=
  '(destinationCIDR, listenerOpts) ←
    (if bool_decide (String.length (bind listenerOpts) = 0%nat) then
       service ← plugin.Service_ pluginParams;
       let svcListenAddress :=
         GetServiceAddressForProxy D service (plugin.Node pluginParams) in
       if bool_decide (0 < String.length svcListenAddress)%nat then
         if negb (bool_decide (is_Some (String.index 0 "/" svcListenAddress)))
         then Some ("", set_bind listenerOpts svcListenAddress)
         else Some (svcListenAddress, set_bind listenerOpts actualWildcard)
       else Some ("", listenerOpts)
     else Some ("", listenerOpts));
  let listenerMapKey :=
    listenerKey (bind listenerOpts) (port_Port (plugin.Port_ pluginParams)) in
  let result r o p :=
    {| ret := r; opts := o; oo_destinationCIDR := destinationCIDR;
       oo_listenerMapKey := listenerMapKey;
       oo_currentListenerEntry := listenerMap !! listenerMapKey;
       oo_listenerOpts := listenerOpts; oo_listenerMap := listenerMap;
       oo_push := p |} in
  let build :=
    result true
      (buildSidecarOutboundTCPTLSFilterChainOpts D (plugin.Env pluginParams)
         (plugin.Node pluginParams) virtualServices destinationCIDR
         (plugin.Service_ pluginParams) (plugin.Port_ pluginParams)
         (proxyLabels listenerOpts))
      push in
  match listenerMap !! listenerMapKey with
  | Some currentListenerEntry =>
    if locked currentListenerEntry then Some (result false [] push)
    else if negb (protocol.IsTCP
                    (port_Protocol (servicePort currentListenerEntry))) then
      let newHostname :=
        match plugin.Service_ pluginParams with
        | Some service => Hostname service
        | None => "sidecar-config-egress-http-listener"
        end in
      Some (result false []
              (addMetric
                 {| olc_metric := ProxyStatusConflictOutboundListenerHTTPOverTCP;
                    olc_node := plugin.Node pluginParams;
                    listenerName := listenerMapKey;
                    currentServices := services currentListenerEntry;
                    currentProtocol :=
                      port_Protocol (servicePort currentListenerEntry);
                    newHostname := newHostname;
                    newProtocol := port_Protocol (plugin.Port_ pluginParams) |}
                 push))
    else Some build
  | None => Some build
  end.

(** The loop labelled [compareWithExisting]: whether the incoming chain
    conflicts with one of the existing chains. *)
Fixpoint conflictFound (incomingFilterChain : FilterChain)
    (existing : list FilterChain) : bool :=
  match existing with
  | [] => false
  | existingFilterChain :: rest =>
    match fc_FilterChainMatch existingFilterChain,
          fc_FilterChainMatch incomingFilterChain with
    | None, None => true
    | None, Some _ => conflictFound incomingFilterChain rest
    | Some _, None => conflictFound incomingFilterChain rest
    | Some em, Some im =>
      if DeepEqual em im then true
      else conflictFound incomingFilterChain rest
    end
  end.

(** The state of the loop that merges the chains of a new listener into the
    entry of the existing one: the new chain list, the entry (the loop
    appends to its services), the status events. *)
Definition mergeState : Type :=
  list FilterChain * outboundListenerEntry * PushContext.

Definition mergeFilterChain (pluginParams : plugin.InputParams)
    (listenerMapKey : string) (existing : list FilterChain)
    (st : mergeState) (incomingFilterChain : FilterChain) : mergeState :=
  let '(newFilterChains, entry, push) := st in
  if conflictFound incomingFilterChain existing then
    let newHostname :=
      match plugin.Service_ pluginParams with
      | Some service => Hostname service
      | None => "sidecar-config-egress-tcp-listener"
      end in
    (newFilterChains, entry,
     addMetric
       {| olc_metric := ProxyStatusConflictOutboundListenerTCPOverTCP;
          olc_node := plugin.Node pluginParams;
          listenerName := listenerMapKey;
          currentServices := services entry;
          currentProtocol := port_Protocol (servicePort entry);
          newHostname := newHostname;
          newProtocol := port_Protocol (plugin.Port_ pluginParams) |}
       push)
  else
    (newFilterChains ++ [incomingFilterChain],
     match plugin.Service_ pluginParams with
     | Some service => set_services entry (services entry ++ [service])
     | None => entry
     end,
     push).

(** The merge of the newly built listener into the current entry. *)
Definition mergeListener (pluginParams : plugin.InputParams)
    (listenerMapKey : string) (currentListenerEntry : outboundListenerEntry)
    (newListener : Listener) (push : PushContext)
    : outboundListenerEntry * PushContext :=
  let existing := l_FilterChains (listener currentListenerEntry) in
  let '(newFilterChains, entry, push) :=
    foldl (mergeFilterChain pluginParams listenerMapKey existing)
          (existing, currentListenerEntry, push)
          (l_FilterChains newListener) in
  (set_listener entry (set_FilterChains (listener entry) newFilterChains), push).

(** Modelled from the spec: the two blackhole filters are variables of
    another file of the package; the chain they make terminates the
    connection. *)
Definition blackholeFilter (node : Proxy) : Filter :=
  let tcpProxy : Message := util_BlackHoleCluster in
  {| filter_Name := xdsutil_TCPProxy;
     filter_ConfigType :=
       Some (if IsXDSMarshalingToAnyEnabled D node
             then Filter_TypedConfig tcpProxy else Filter_Config tcpProxy) |}.

(** The listener that [buildSidecarOutboundListenerForPortOrUDS] builds from
    the chain options, before it is merged or registered: [Err] when the
    function returns after the assembly error. *)
Definition buildOutboundListener (r : outboundOpts)
    (pluginParams : plugin.InputParams) (actualWildcard : string)
    : outcome (Listener * buildListenerOpts) :=
  let listenerOpts := set_filterChainOpts (oo_listenerOpts r) (opts r) in
  let listenerOpts :=
    if String.eqb (bind listenerOpts) actualWildcard
       && features_RestrictPodIPTrafficLoops D
    then
      set_filterChainOpts listenerOpts
        ({| sniHosts := [];
            destinationCIDRs := IPAddresses (plugin.Node pluginParams);
            fco_metadata := None; tlsContext := None; httpOpts := None;
            fco_match := None; listenerFilters := [];
            networkFilters := [blackholeFilter (plugin.Node pluginParams)] |}
         :: filterChainOpts_ listenerOpts)
    else listenerOpts in
  let l := buildListener listenerOpts in
  let '(l, listenerOpts) :=
    appendListenerFallthroughRoute l listenerOpts (plugin.Node pluginParams)
      (oo_currentListenerEntry r) in
  let l := set_TrafficDirection l OUTBOUND in
  let mutable :=
    callHooks plugin.OnOutboundListener pluginParams (newMutableObjects l) in
  match buildCompleteFilterChain pluginParams mutable listenerOpts with
  | Panic => Panic
  | Err msg => Err msg
  | Ok l' => Ok (l', listenerOpts)
  end.

(** The part of [buildSidecarOutboundListenerForPortOrUDS] after the chain
    options are there.  The source registers a new entry with the service
    pointer as it is; the model has no nil service in an entry and gives no
    result for one (no caller in this file passes a nil service). *)
Definition registerOutboundListener (r : outboundOpts)
    (pluginParams : plugin.InputParams) (actualWildcard : string)
    : option (gmap string outboundListenerEntry * PushContext) :=
  match buildOutboundListener r pluginParams actualWildcard with
  | Panic => None
  | Err _ => Some (oo_listenerMap r, oo_push r)
  | Ok (l, listenerOpts) =>
    match oo_currentListenerEntry r with
    | Some currentListenerEntry =>
      let '(entry, push) :=
        mergeListener pluginParams (oo_listenerMapKey r) currentListenerEntry
          l (oo_push r) in
      Some (<[ oo_listenerMapKey r := entry ]> (oo_listenerMap r), push)
    | None =>
      service ← plugin.Service_ pluginParams;
      Some (<[ oo_listenerMapKey r :=
                 {| services := [service];
                    servicePort := plugin.Port_ pluginParams;
                    ole_bind := bind listenerOpts;
                    listener := l; locked := false |} ]> (oo_listenerMap r),
            oo_push r)
    end
  end.

(** [buildSidecarOutboundListenerForPortOrUDS]: the listener map and the
    status events as the call leaves them; [None] is a panic. *)
Definition buildSidecarOutboundListenerForPortOrUDS
    (listenerOpts : buildListenerOpts) (pluginParams : plugin.InputParams)
    (listenerMap : gmap string outboundListenerEntry) (push : PushContext)
    (virtualServices : list Message) (actualWildcard : string)
    : option (gmap string outboundListenerEntry * PushContext) :=
  match plugin.ListenerProtocol_ pluginParams with
  | plugin.ListenerProtocolHTTP =>
    let r :=
      buildSidecarOutboundHTTPListenerOptsForPortOrUDS listenerOpts
        pluginParams listenerMap push actualWildcard in
    if negb (ret r) then Some (oo_listenerMap r, oo_push r)
    else registerOutboundListener r pluginParams actualWildcard
  | plugin.ListenerProtocolTCP =>
    r ← buildSidecarOutboundTCPListenerOptsForPortOrUDS listenerOpts
          pluginParams listenerMap push virtualServices actualWildcard;
    if negb (ret r) then Some (oo_listenerMap r, oo_push r)
    else registerOutboundListener r pluginParams actualWildcard
  | plugin.ListenerProtocolUnknown => Some (listenerMap, push)
  end.

(** [for _, e := range listenerMap { e.locked = true }] *)
Definition lockAll (listenerMap : gmap string outboundListenerEntry)
    : gmap string outboundListenerEntry :=
  (λ e, set_locked e true) <$> listenerMap.

Definition outboundState : Type :=
  gmap string outboundListenerEntry * PushContext.

(** The body of the loop over the egress listeners of the sidecar scope. *)
Definition outboundFromEgress (e : Environment) (node : Proxy)
    (noneMode : bool) (actualWildcard actualLocalHostAddress : string)
    (st : outboundState) (egressListener : IstioEgressListenerWrapper)
    : option outboundState :=
  let services := Services egressListener in
  let virtualServices := VirtualServices egressListener in
  let bindToPort :=
    if noneMode then true
    else
      match IstioListener egressListener with
      | Some il => bool_decide (egress_CaptureMode il = CaptureMode_NONE)
      | None => false
      end in
  let listenerOpts b p :=
    {| env := Some e; proxy := Some node;
       proxyInstances := ServiceInstances node;
       proxyLabels := proxyLabelsOf node; bind := b; port := p;
       filterChainOpts_ := []; bindToPort := bindToPort;
       skipUserFilters := false |} in
  let pluginParams b (p : Port) service :=
    {| plugin.ListenerProtocol_ :=
         plugin.ModelProtocolToListenerProtocol (port_Protocol p);
       plugin.DeprecatedListenerCategory := plugin.SIDECAR_OUTBOUND;
       plugin.ListenerCategory_ := plugin.ANY;
       plugin.Env := e; plugin.Node := node;
       plugin.ServiceInstance_ := None; plugin.Port_ := p;
       plugin.Service_ := Some service; plugin.Bind := b |} in
  match IstioListener egressListener ≫= egress_Port with
  | Some ilPort =>
    let listenPort :=
      {| port_Port := np_Number ilPort;
         port_Protocol := protocol_Parse D (np_Protocol ilPort);
         port_Name := np_Name ilPort |} in
    let bind := default "" (egress_Bind <$> IstioListener egressListener) in
    let bind :=
      if bindToPort && String.eqb bind "" then actualLocalHostAddress
      else if bool_decide (String.length bind = 0%nat) then actualWildcard
      else bind in
    forEach
      (λ (st : outboundState) service,
         buildSidecarOutboundListenerForPortOrUDS
           (listenerOpts bind (port_Port listenPort))
           (pluginParams bind listenPort service) st.1 st.2
           virtualServices actualWildcard)
      st services
  | None =>
    let st : outboundState := (lockAll st.1, st.2) in
    let bind :=
      match IstioListener egressListener with
      | Some il => if negb (String.eqb (egress_Bind il) "") then egress_Bind il else ""
      | None => ""
      end in
    let bind :=
      if bindToPort && String.eqb bind "" then actualLocalHostAddress
      else bind in
    forEach
      (λ (st : outboundState) service,
         forEach
           (λ (st : outboundState) servicePort,
              if negb (validatePort node (port_Port servicePort) bindToPort)
              then Some st
              else
                buildSidecarOutboundListenerForPortOrUDS
                  (listenerOpts bind (port_Port servicePort))
                  (pluginParams bind servicePort service) st.1 st.2
                  virtualServices actualWildcard)
           st (Ports service))
      st services
  end.

(** The registry that the loop over the egress listeners leaves. *)
Definition outboundListenerMap (e : Environment) (node : Proxy)
    (push : PushContext) : option outboundState :=
  let noneMode := bool_decide (InterceptionMode node = InterceptionNone) in
  let '(actualWildcard, actualLocalHostAddress) :=
    getActualWildcardAndLocalHost node in
  forEach (outboundFromEgress e node noneMode actualWildcard
             actualLocalHostAddress)
          (∅, push) (EgressListeners (proxy_SidecarScope node)).

(** The loop that validates and collates the listeners of the registry, over
    the entries in the order the range visits them: the TCP listeners and
    the HTTP listeners.  (The count of invalid listeners goes to a gauge.) *)
Definition collate (entries : list (string * outboundListenerEntry))
    : list Listener * list Listener :=
  foldl (λ '(tcpListeners, httpListeners) '(name, l),
           match Listener_Validate D (listener l) with
           | Some err => (tcpListeners, httpListeners)
           | None =>
             if protocol.IsTCP (port_Protocol (servicePort l))
             then (tcpListeners ++ [listener l], httpListeners)
             else (tcpListeners, httpListeners ++ [listener l])
           end)
        ([], []) entries.

Definition int32 (x : Z) : Z := (x + 2 ^ 31) mod 2 ^ 32 - 2 ^ 31.

(** [buildHTTPProxy]: nil is [Some None].  The parameters it hands to
    [buildCompleteFilterChain] have no port and no service; the port of the
    parameters, a nil pointer there, is a port of zero values here, and
    nothing reads it. *)
Definition buildHTTPProxy (e : Environment) (node : Proxy)
    : option (option Listener) :=
  let httpProxyPort := Mesh_ProxyHttpPort e in
  let noneMode := bool_decide (InterceptionMode node = InterceptionNone) in
  let actualLocalHostAddress := (getActualWildcardAndLocalHost node).2 in
  let httpProxyPort :=
    if bool_decide (httpProxyPort = 0) && noneMode
    then int32 (features_DefaultPortHTTPProxy D) else httpProxyPort in
  if bool_decide (httpProxyPort = 0) then Some None
  else
    let ho :=
      {| AllowAbsoluteUrl := true;
         AcceptHttp_10 :=
           features_HTTP10 D
           || String.eqb (metadata node NodeMetadataHTTP10) "1" |} in
    let opts :=
      {| env := Some e; proxy := Some node;
         proxyInstances := ServiceInstances node; proxyLabels := [];
         bind := actualLocalHostAddress; port := httpProxyPort;
         filterChainOpts_ :=
           [ {| sniHosts := []; destinationCIDRs := []; fco_metadata := None;
                tlsContext := None;
                httpOpts :=
                  Some {| routeConfig := None; rds := RDSHttpProxy;
                          connectionManager :=
                            Some {| hcm_ForwardClientCertDetails := SANITIZE;
                                    hcm_SetCurrentClientCertDetails := None;
                                    hcm_ServerName := "";
                                    hcm_Http2ProtocolOptions := None;
                                    hcm_HttpProtocolOptions := Some ho |};
                          statPrefix := ""; direction := EGRESS;
                          addGRPCWebFilter := false;
                          useRemoteAddress := false |};
                fco_match := None; listenerFilters := [];
                networkFilters := [] |} ];
         bindToPort := true; skipUserFilters := true |} in
    let l := buildListener opts in
    let mutable :=
      {| plugin.Listener_ := l;
         plugin.FilterChains := [plugin.emptyFilterChain] |} in
    let pluginParams :=
      {| plugin.ListenerProtocol_ := plugin.ListenerProtocolHTTP;
         plugin.DeprecatedListenerCategory := plugin.ANY;
         plugin.ListenerCategory_ := plugin.SIDECAR_OUTBOUND;
         plugin.Env := e; plugin.Node := node;
         plugin.ServiceInstance_ := None;
         plugin.Port_ :=
           {| port_Name := ""; port_Port := 0;
              port_Protocol := protocol.Unsupported |};
         plugin.Service_ := None; plugin.Bind := "" |} in
    match buildCompleteFilterChain pluginParams mutable opts with
    | Panic => None
    | Err _ => Some None
    | Ok l => Some (Some l)
    end.

(** The order in which [range] visits the entries of the registry. *)
Variable rangeOrder :
  gmap string outboundListenerEntry → list (string * outboundListenerEntry).

Definition buildSidecarOutboundListeners (e : Environment) (node : Proxy)
    (push : PushContext) : option (list Listener * PushContext) :=
  '(listenerMap, push) ← outboundListenerMap e node push;
  let '(tcpListeners, httpListeners) := collate (rangeOrder listenerMap) in
  let tcpListeners := tcpListeners ++ httpListeners in
  httpProxy ← buildHTTPProxy e node;
  match httpProxy with
  | Some httpProxy =>
    Some (tcpListeners ++ [set_TrafficDirection httpProxy OUTBOUND], push)
  | None => Some (tcpListeners, push)
  end.

(** ** Management listeners *)

(** Modelled from the spec: [util.GetByAddress] is not among the sources.
    It finds the listener "whose address collides" with the given one. *)
Definition GetByAddress (listeners : list Listener) (addr : Address)
    : option Listener :=
  List.find (λ l, bool_decide (l_Address l = addr)) listeners.

Definition ManagementClusterHostname : string := "mgmtCluster".

Definition isManagementProtocol (p : protocol.Instance) : bool :=
  match p with
  | protocol.HTTP | protocol.HTTP2 | protocol.GRPC | protocol.GRPCWeb
  | protocol.TCP | protocol.HTTPS | protocol.TLS | protocol.Mongo
  | protocol.Redis | protocol.MySQL => true
  | _ => false
  end.

(** The body of the loop over the management ports. *)
Definition mgmtFromPort (node : Proxy) (e : Environment)
    (managementIP : string) (listeners : list Listener) (mPort : Port)
    : option (list Listener) :=
  if isManagementProtocol (port_Protocol mPort) then
    let instance :=
      {| Endpoint :=
           {| ep_Address := managementIP; ep_Port := port_Port mPort;
              ep_ServicePort := mPort |};
         si_Service :=
           {| Hostname := ManagementClusterHostname; svc_Address := "";
              Ports := [] |};
         Labels := [] |} in
    let listenerOpts :=
      {| env := None; proxy := None; proxyInstances := []; proxyLabels := [];
         bind := managementIP; port := port_Port mPort;
         filterChainOpts_ :=
           [ {| sniHosts := []; destinationCIDRs := []; fco_metadata := None;
                tlsContext := None; httpOpts := None; fco_match := None;
                listenerFilters := [];
                networkFilters := buildInboundNetworkFilters D e node instance |} ];
         bindToPort := false; skipUserFilters := true |} in
    let l := set_TrafficDirection (buildListener listenerOpts) INBOUND in
    let mutable :=
      {| plugin.Listener_ := l;
         plugin.FilterChains := [plugin.emptyFilterChain] |} in
    let pluginParams :=
      {| plugin.ListenerProtocol_ := plugin.ListenerProtocolTCP;
         plugin.DeprecatedListenerCategory := plugin.SIDECAR_OUTBOUND;
         plugin.ListenerCategory_ := plugin.ANY;
         plugin.Env := e; plugin.Node := node;
         plugin.ServiceInstance_ := None; plugin.Port_ := mPort;
         plugin.Service_ := None; plugin.Bind := "" |} in
    match buildCompleteFilterChain pluginParams mutable listenerOpts with
    | Panic => None
    | Err _ => Some listeners
    | Ok l => Some (listeners ++ [l])
    end
  else Some listeners.

(** [None] is the panic of [node.IPAddresses[0]] on a proxy without
    addresses. *)
Definition buildSidecarInboundMgmtListeners (node : Proxy) (e : Environment)
    (managementPorts : list Port) (managementIP : string)
    : option (list Listener) :=
  managementIP ←
    (if String.eqb managementIP "" then
       first ← IPAddresses node !! 0%nat;
       match ParseIP D first with
       | Some addr =>
         match To4 D addr with
         | None => Some "::1"
         | Some _ => Some "127.0.0.1"
         end
       | None => Some "127.0.0.1"
       end
     else Some managementIP);
  if bool_decide (InterceptionMode node = InterceptionNone) then Some []
  else forEach (mgmtFromPort node e managementIP) [] managementPorts.

Definition generateManagementListeners (node : Proxy) (noneMode : bool)
    (e : Environment) (listeners : list Listener) : option (list Listener) :=
  let generate :=
    negb (HasCustomIngressListeners (proxy_SidecarScope node) || noneMode) in
  if generate then
    mgmtListeners ←
      forEach (λ mgmtListeners ip,
                 management ←
                   buildSidecarInboundMgmtListeners node e
                     (ManagementPorts e ip) ip;
                 Some (mgmtListeners ++ management))
              [] (IPAddresses node);
    Some (foldl (λ listeners m,
                   match GetByAddress listeners (l_Address m) with
                   | Some _ => listeners
                   | None => listeners ++ [m]
                   end)
                listeners mgmtListeners)
  else Some listeners.

(** ** The stages of one proxy

    Modelled from the spec: the ListenerBuilder that [buildSidecarListeners]
    drives is not among the sources.  The orchestrator runs the inbound, the
    outbound and the management stage in that order and returns the final
    set; the management stage is [generateManagementListeners] above, which
    receives the service listeners built so far.  The listeners of the
    virtual (traffic-capture) stage are built by code that is not among the
    sources and are not part of this set. *)
Definition buildSidecarListeners (e : Environment) (node : Proxy)
    (push : PushContext) : option (list Listener * PushContext) :=
  if bool_decide (Mesh_ProxyListenPort e > 0) then
    '(inbound, push) ← buildSidecarInboundListeners e node push;
    '(outbound, push) ← buildSidecarOutboundListeners e node push;
    let noneMode := bool_decide (InterceptionMode node = InterceptionNone) in
    listeners ← generateManagementListeners node noneMode e (inbound ++ outbound);
    Some (listeners, push)
  else Some ([], push).

(** ** A concrete mesh

    One implementation of the collaborators and a few proxies and services,
    on which the functions above can be run. *)

Fixpoint splitOn (sep : ascii) (s : string) : list string :=
  match s with
  | EmptyString => [EmptyString]
  | String c rest =>
    if Ascii.eqb c sep then EmptyString :: splitOn sep rest
    else
      match splitOn sep rest with
      | [] => [String c EmptyString]
      | w :: ws => String c w :: ws
      end
  end.

Definition digitOf (c : ascii) : option Z :=
  let n := Z.of_nat (nat_of_ascii c) in
  if bool_decide (48 ≤ n ≤ 57) then Some (n - 48) else None.

Fixpoint dtoi (acc : Z) (s : string) : option Z :=
  match s with
  | EmptyString => Some acc
  | String c rest => d ← digitOf c; dtoi (10 * acc + d) rest
  end.

Definition parseNumber (s : string) : option Z :=
  if bool_decide (String.length s = 0%nat) then None else dtoi 0 s.

(** Dotted-decimal IPv4 literals: four fields of at most 255. *)
Definition parseIPv4 (s : string) : option (list Z) :=
  let parts := splitOn "." s in
  if bool_decide (length parts = 4%nat) then
    bs ← mapM parseNumber parts;
    if forallb (λ b, bool_decide (b ≤ 255)) bs then Some bs else None
  else None.

(** An address is its list of bytes: an IPv4 literal has four, and anything
    else with a colon stands for an IPv6 address. *)
Definition exampleParseIP (s : string) : option (list Z) :=
  match parseIPv4 s with
  | Some bs => Some bs
  | None =>
    if bool_decide (is_Some (String.index 0 ":" s))
    then Some (replicate 16 0) else None
  end.

Definition exampleConvertAddressToCidr (s : string) : option CidrRange :=
  match splitOn "/" s with
  | [a] => Some {| AddressPrefix := a; PrefixLen := 32 |}
  | [a; n] =>
    len ← parseNumber n; Some {| AddressPrefix := a; PrefixLen := len |}
  | _ => None
  end.

Definition tcpProxyTo (cluster : string) : Filter :=
  {| filter_Name := xdsutil_TCPProxy;
     filter_ConfigType := Some (Filter_Config cluster) |}.

(** The collaborators of the examples: capture-loop restriction off, every
    proxy allowed any outbound traffic, no user filters, every listener
    valid.  The fallthrough route, the inbound network filters and the TCP
    chain options of a service (given its destination CIDR) vary. *)
Definition exampleCollaboratorsWith (fallthrough : bool)
    (inboundFilters : ServiceInstance → list Filter)
    (tcpChains : string → option Service → list filterChainOpts)
    : Collaborators :=
  {| IP := list Z;
     ParseIP := exampleParseIP;
     To4 := λ ip, if bool_decide (length ip = 4%nat) then Some ip else None;
     IsGlobalUnicast := λ ip, negb (bool_decide (ip !! 0%nat = Some 127));
     IP_String := λ ip, String.concat "." (pretty <$> ip);
     features_HTTP10 := false;
     features_UseRemoteAddress := false;
     features_RestrictPodIPTrafficLoops := false;
     features_EnableFallthroughRoute := fallthrough;
     features_DefaultPortHTTPProxy := 15002;
     ConvertAddressToCidr := exampleConvertAddressToCidr;
     IsXDSMarshalingToAnyEnabled := λ _, false;
     protocol_Parse := λ s,
       if String.eqb s "HTTP" then protocol.HTTP
       else if String.eqb s "TCP" then protocol.TCP
       else protocol.Unsupported;
     GetServiceAddressForProxy := λ s _, svc_Address s;
     Listener_Validate := λ _, None;
     isAllowAnyOutbound := λ _, true;
     buildInboundNetworkFilters := λ _ _ si, inboundFilters si;
     buildSidecarInboundHTTPRouteConfig := λ _ _ _, "inbound-route";
     buildSidecarOutboundTCPTLSFilterChainOpts := λ _ _ _ destinationCIDR svc _ _,
       tcpChains destinationCIDR svc;
     findServiceInstanceForIngressListener := λ sis il,
       List.find (λ si, bool_decide (ep_Port (Endpoint si)
                                     = np_Number (ingress_Port il))) sis;
     buildHTTPConnectionManager := λ _ _ ho _, "hcm|" +:+ rds ho;
     DeprecatedInsertUserFilters := λ _ l _, (l, None) |}.

(** One TCP proxy filter towards the instance. *)
Definition exampleInboundFilters (si : ServiceInstance) : list Filter :=
  [tcpProxyTo ("inbound|" +:+ Hostname (si_Service si))].

(** One TCP chain per service, matching the destination CIDR when there is
    one. *)
Definition exampleTCPChains (destinationCIDR : string) (svc : option Service)
    : list filterChainOpts :=
  [ {| sniHosts := []; destinationCIDRs := [destinationCIDR];
       fco_metadata := None; tlsContext := None; httpOpts := None;
       fco_match := None; listenerFilters := [];
       networkFilters :=
         [tcpProxyTo ("outbound|" +:+ default "" (Hostname <$> svc))] |} ].

Definition exampleCollaborators : Collaborators :=
  exampleCollaboratorsWith true exampleInboundFilters exampleTCPChains.

(** Collaborators that contribute no inbound filter and no TCP chain, with
    the fallthrough route off. *)
Definition bareCollaborators : Collaborators :=
  exampleCollaboratorsWith false (λ _, []) (λ _ _, []).

Definition noPlugins : ConfigGeneratorImpl := {| Plugins := [] |}.

Definition tcp9080 : Port :=
  {| port_Name := "tcp"; port_Port := 9080; port_Protocol := protocol.TCP |}.

Definition http9080 : Port :=
  {| port_Name := "http"; port_Port := 9080; port_Protocol := protocol.HTTP |}.

Definition http15002 : Port :=
  {| port_Name := "http"; port_Port := 15002; port_Protocol := protocol.HTTP |}.

(** A TCP service on an address range. *)
Definition svcRangeTCP : Service :=
  {| Hostname := "range.default.svc"; svc_Address := "10.0.0.0/24";
     Ports := [tcp9080] |}.

(** A TCP service without an address of its own. *)
Definition svcHeadlessTCP : Service :=
  {| Hostname := "headless.default.svc"; svc_Address := "0.0.0.0";
     Ports := [tcp9080] |}.

(** A TCP service with an address of its own. *)
Definition svcVipTCP : Service :=
  {| Hostname := "vip.default.svc"; svc_Address := "10.9.9.9";
     Ports := [tcp9080] |}.

Definition svcHTTP : Service :=
  {| Hostname := "web.default.svc"; svc_Address := "0.0.0.0";
     Ports := [http9080] |}.

Definition svcHTTP2 : Service :=
  {| Hostname := "api.default.svc"; svc_Address := "0.0.0.0";
     Ports := [http9080] |}.

Definition svcHTTP15002 : Service :=
  {| Hostname := "admin.default.svc"; svc_Address := "0.0.0.0";
     Ports := [http15002] |}.

(** A proxy whose sidecar scope is the default one: a single catch-all
    egress listener over the given services. *)
Definition exampleProxy (mode : TrafficInterceptionMode) (ips : list string)
    (svcs : list Service) : Proxy :=
  {| ID := "sidecar~10.1.1.1~pod.default";
     Type_ := SidecarProxy;
     IPAddresses := ips;
     Metadata := ∅;
     InterceptionMode := mode;
     ServiceInstances := [];
     proxy_SidecarScope :=
       {| HasCustomIngressListeners := false; Ingress := [];
          EgressListeners :=
            [ {| IstioListener := None; Services := svcs;
                 VirtualServices := [] |} ] |} |}.

Definition exampleEnvironment : Environment :=
  {| Mesh_ProxyListenPort := 15001; Mesh_ProxyHttpPort := 0;
     ManagementPorts := λ _, [] |}.

(** The registry after the TCP service on an address range was resolved for
    a proxy in redirect mode: one listener on the wildcard address with the
    chain for the range and the pass-through chain. *)
Definition rangeMatch : FilterChainMatch :=
  {| DestinationPort := None;
     PrefixRanges := [ {| AddressPrefix := "10.0.0.0"; PrefixLen := 24 |} ];
     ServerNames := []; TransportProtocol := ""; ApplicationProtocols := [] |}.

Definition rangeTCPListener : Listener :=
  {| l_Name := "0.0.0.0_9080";
     l_Address := BuildAddress "0.0.0.0" 9080;
     l_ListenerFilters := [];
     l_FilterChains :=
       [ {| fc_FilterChainMatch := Some rangeMatch; fc_TlsContext := None;
            fc_Filters := [tcpProxyTo "outbound|range.default.svc"];
            fc_Metadata := None |};
         {| fc_FilterChainMatch := Some emptyMatch; fc_TlsContext := None;
            fc_Filters := [tcpProxyTo "PassthroughCluster"];
            fc_Metadata := None |} ];
     l_DeprecatedV1 := Some false;
     l_TrafficDirection := OUTBOUND |}.

Definition rangeTCPEntry : outboundListenerEntry :=
  {| services := [svcRangeTCP]; servicePort := tcp9080;
     ole_bind := "0.0.0.0"; listener := rangeTCPListener; locked := false |}.

Definition rangeTCPRegistry : gmap string outboundListenerEntry :=
  {[ "0.0.0.0:9080" := rangeTCPEntry ]}.

(** A second TCP service on the same address range. *)
Definition svcRangeTCP2 : Service :=
  {| Hostname := "range2.default.svc"; svc_Address := "10.0.0.0/24";
     Ports := [tcp9080] |}.

(** The options and the parameters that the catch-all egress listener of a
    proxy in redirect mode hands to
    [buildSidecarOutboundListenerForPortOrUDS] for a port of a service. *)
Definition catchAllListenerOpts (node : Proxy) (p : Port) : buildListenerOpts :=
  {| env := Some exampleEnvironment; proxy := Some node;
     proxyInstances := ServiceInstances node;
     proxyLabels := Labels <$> ServiceInstances node;
     bind := ""; port := port_Port p; filterChainOpts_ := [];
     bindToPort := false; skipUserFilters := false |}.

Definition catchAllUnit (node : Proxy) (p : Port) (service : Service)
    : plugin.InputParams :=
  {| plugin.ListenerProtocol_ :=
       plugin.ModelProtocolToListenerProtocol (port_Protocol p);
     plugin.DeprecatedListenerCategory := plugin.SIDECAR_OUTBOUND;
     plugin.ListenerCategory_ := plugin.ANY;
     plugin.Env := exampleEnvironment; plugin.Node := node;
     plugin.ServiceInstance_ := None; plugin.Port_ := p;
     plugin.Service_ := Some service; plugin.Bind := "" |}.

(** A proxy in redirect mode with one address and no service instance. *)
Definition redirectProxy (svcs : list Service) : Proxy :=
  exampleProxy InterceptionRedirect ["10.1.1.1"] svcs.

(** A proxy with two local service instances: a TCP one on port 8080 and
    one on port 5353 with a protocol that has no listener protocol. *)
Definition tcp8080 : Port :=
  {| port_Name := "tcp"; port_Port := 8080; port_Protocol := protocol.TCP |}.

Definition udp5353 : Port :=
  {| port_Name := "dns"; port_Port := 5353; port_Protocol := protocol.UDP |}.

Definition tcp5353 : Port :=
  {| port_Name := "dns-tcp"; port_Port := 5353; port_Protocol := protocol.TCP |}.

Definition localInstance (p : Port) (hostname : string) : ServiceInstance :=
  {| Endpoint :=
       {| ep_Address := "10.1.1.1"; ep_Port := port_Port p;
          ep_ServicePort := p |};
     si_Service :=
       {| Hostname := hostname; svc_Address := "10.8.8.8"; Ports := [p] |};
     Labels := [] |}.

Definition proxyWithInstances (instances : list ServiceInstance)
    (svcs : list Service) : Proxy :=
  {| ID := "sidecar~10.1.1.1~pod.default";
     Type_ := SidecarProxy;
     IPAddresses := ["10.1.1.1"];
     Metadata := ∅;
     InterceptionMode := InterceptionRedirect;
     ServiceInstances := instances;
     proxy_SidecarScope :=
       {| HasCustomIngressListeners := false; Ingress := [];
          EgressListeners :=
            [ {| IstioListener := None; Services := svcs;
                 VirtualServices := [] |} ] |} |}.

(** The options and the parameters that [buildSidecarInboundListeners] hands
    to [buildSidecarInboundListenerForPortOrUDS] for a service instance. *)
Definition instanceListenerOpts (node : Proxy) (instance : ServiceInstance)
    : buildListenerOpts :=
  {| env := Some exampleEnvironment; proxy := Some node;
     proxyInstances := ServiceInstances node;
     proxyLabels := Labels <$> ServiceInstances node;
     bind := ep_Address (Endpoint instance);
     port := ep_Port (Endpoint instance); filterChainOpts_ := [];
     bindToPort := false; skipUserFilters := false |}.

Definition instanceUnit (node : Proxy) (instance : ServiceInstance)
    : plugin.InputParams :=
  {| plugin.ListenerProtocol_ :=
       plugin.ModelProtocolToListenerProtocol
         (port_Protocol (ep_ServicePort (Endpoint instance)));
     plugin.DeprecatedListenerCategory := plugin.SIDECAR_INBOUND;
     plugin.ListenerCategory_ := plugin.ANY;
     plugin.Env := exampleEnvironment; plugin.Node := node;
     plugin.ServiceInstance_ := Some instance;
     plugin.Port_ := ep_ServicePort (Endpoint instance);
     plugin.Service_ := None;
     plugin.Bind := ep_Address (Endpoint instance) |}.

(** The registry after the first HTTP service on port 9080 was resolved for
    a proxy in redirect mode: one listener on the wildcard address with the
    HTTP chain. *)
Definition webHTTPListener : Listener :=
  {| l_Name := "0.0.0.0_9080";
     l_Address := BuildAddress "0.0.0.0" 9080;
     l_ListenerFilters := [];
     l_FilterChains :=
       [ {| fc_FilterChainMatch := None; fc_TlsContext := None;
            fc_Filters :=
              [ {| filter_Name := xdsutil_HTTPConnectionManager;
                   filter_ConfigType := Some (Filter_Config "hcm|9080") |} ];
            fc_Metadata := None |} ];
     l_DeprecatedV1 := Some false;
     l_TrafficDirection := OUTBOUND |}.

Definition webHTTPEntry : outboundListenerEntry :=
  {| services := [svcHTTP]; servicePort := http9080;
     ole_bind := "0.0.0.0"; listener := webHTTPListener; locked := false |}.

Definition webHTTPRegistry : gmap string outboundListenerEntry :=
  {[ "0.0.0.0:9080" := webHTTPEntry ]}.

(** ** Notions used in the statements *)

(** Whether an address of the proxy parses and has a 4-byte form. *)
Definition parsesAsIPv4 (a : string) : bool :=
  match ParseIP D a with
  | Some addr => bool_decide (is_Some (To4 D addr))
  | None => false
  end.

(** The TCP-over-HTTP record of [buildSidecarOutboundHTTPListenerOptsForPortOrUDS]. *)
Definition conflictTCPOverHTTP (pluginParams : plugin.InputParams)
    (key : string) (cur : outboundListenerEntry) (service : Service)
    : outboundListenerConflict :=
  {| olc_metric := ProxyStatusConflictOutboundListenerTCPOverHTTP;
     olc_node := plugin.Node pluginParams;
     listenerName := key;
     currentServices := services cur;
     currentProtocol := port_Protocol (servicePort cur);
     newHostname := Hostname service;
     newProtocol := port_Protocol (plugin.Port_ pluginParams) |}.

(** The HTTP-over-TCP record of [buildSidecarOutboundTCPListenerOptsForPortOrUDS]. *)
Definition conflictHTTPOverTCP (pluginParams : plugin.InputParams)
    (key : string) (cur : outboundListenerEntry) : outboundListenerConflict :=
  {| olc_metric := ProxyStatusConflictOutboundListenerHTTPOverTCP;
     olc_node := plugin.Node pluginParams;
     listenerName := key;
     currentServices := services cur;
     currentProtocol := port_Protocol (servicePort cur);
     newHostname :=
       match plugin.Service_ pluginParams with
       | Some service => Hostname service
       | None => "sidecar-config-egress-http-listener"
       end;
     newProtocol := port_Protocol (plugin.Port_ pluginParams) |}.

(** The chain options that [buildSidecarOutboundListenerForPortOrUDS] asks
    of the option builder of the unit's protocol; a unit of another protocol
    gets none. *)
Definition outboundUnitOpts (listenerOpts : buildListenerOpts)
    (pluginParams : plugin.InputParams)
    (listenerMap : gmap string outboundListenerEntry) (push : PushContext)
    (virtualServices : list Message) (actualWildcard : string)
    : option outboundOpts :=
  match plugin.ListenerProtocol_ pluginParams with
  | plugin.ListenerProtocolHTTP =>
    Some (buildSidecarOutboundHTTPListenerOptsForPortOrUDS listenerOpts
            pluginParams listenerMap push actualWildcard)
  | plugin.ListenerProtocolTCP =>
    buildSidecarOutboundTCPListenerOptsForPortOrUDS listenerOpts
      pluginParams listenerMap push virtualServices actualWildcard
  | plugin.ListenerProtocolUnknown => None
  end.

(** The registry key that the unit is resolved against. *)
Definition resolutionKey (listenerOpts : buildListenerOpts)
    (pluginParams : plugin.InputParams)
    (listenerMap : gmap string outboundListenerEntry) (push : PushContext)
    (virtualServices : list Message) (actualWildcard : string)
    : option string :=
  oo_listenerMapKey <$>
    outboundUnitOpts listenerOpts pluginParams listenerMap push
      virtualServices actualWildcard.

(** An egress listener of the sidecar scope without a port is the catch-all
    one. *)
Definition isCatchAll (egressListener : IstioEgressListenerWrapper) : Prop :=
  IstioListener egressListener ≫= egress_Port = None.

(** A new chain clashes with the existing chains when its match predicate is
    structurally equal to the predicate of one of them; two absent
    predicates are equal. *)
Definition clashes (existing : list FilterChain) (c : FilterChain) : Prop :=
  Exists (λ ex, fc_FilterChainMatch ex = fc_FilterChainMatch c) existing.

#[global] Instance clashes_dec existing c : Decision (clashes existing c).
Proof. unfold clashes. apply _. Defined.

(** A status event of the TCP-over-TCP kind for the given listener key. *)
Definition isTCPOverTCP (key : string) (ev : StatusEvent) : Prop :=
  ev_metric ev = ProxyStatusConflictOutboundListenerTCPOverTCP
  ∧ ev_key ev = key.

(** The hooks of the plugins and the insertion of user filters work on the
    filter chains of a listener: they leave its address as it is. *)
Definition hooksKeepAddress : Prop :=
  (∀ p pluginParams mutable, p ∈ Plugins configgen →
     l_Address (plugin.Listener_
                  (plugin.OnInboundListener p pluginParams mutable).1)
     = l_Address (plugin.Listener_ mutable))
  ∧ (∀ p pluginParams mutable, p ∈ Plugins configgen →
       l_Address (plugin.Listener_
                    (plugin.OnOutboundListener p pluginParams mutable).1)
       = l_Address (plugin.Listener_ mutable))
  ∧ (∀ pluginParams l hcms,
       l_Address (DeprecatedInsertUserFilters D pluginParams l hcms).1
       = l_Address l).

(** A port number that [uint32] leaves as it is. *)
Definition validPort (p : Z) : bool := bool_decide (0 ≤ p < 2 ^ 32).

(** Every port the proxy's listeners are built for is one: the ports of its
    service instances and ingress listeners, the ports of its egress
    listeners and of the services they select. *)
Definition portsInRange (node : Proxy) : bool :=
  forallb (λ si, validPort (ep_Port (Endpoint si))) (ServiceInstances node)
  && forallb (λ il, validPort (np_Number (ingress_Port il)))
             (Ingress (proxy_SidecarScope node))
  && forallb
       (λ egressListener,
          match IstioListener egressListener ≫= egress_Port with
          | Some p => validPort (np_Number p)
          | None => true
          end
          && forallb (λ s, forallb (λ p, validPort (port_Port p)) (Ports s))
                     (Services egressListener))
       (EgressListeners (proxy_SidecarScope node)).

(** The registry key of the listener with the given address. *)
Definition keyOfAddress (a : Address) : string :=
  listenerKey (addr_Address a) (addr_PortValue a).

(** Every entry of the registry is stored under the key of the address of
    its listener. *)
Definition registryKeyed (m : gmap string outboundListenerEntry) : Prop :=
  ∀ k e, m !! k = Some e → keyOfAddress (l_Address (listener e)) = k.

(** No two listeners of the list share a (bind address, port) pair. *)
Definition distinctAddresses (ls : list Listener) : Prop :=
  NoDup (l_Address <$> ls).

(** The address of the listener of a registry entry. *)
Definition entryAddress (ke : string * outboundListenerEntry) : Address :=
  l_Address (listener ke.2).

(** The addresses and the names of the listeners of a stage's result. *)
Definition addressesOf (r : option (list Listener * PushContext))
    : option (list Address) :=
  match r with
  | Some (ls, _) => Some (l_Address <$> ls)
  | None => None
  end.

Definition namesOf (r : option (list Listener * PushContext))
    : option (list string) :=
  match r with
  | Some (ls, _) => Some (l_Name <$> ls)
  | None => None
  end.

(** ** Notions used in the further properties *)

(** The chain that [buildListener] makes of one chain option: the match
    and the TLS context, and no filter yet. *)
Definition chainOf (chain : filterChainOpts) : FilterChain :=
  {| fc_FilterChainMatch := chainMatch chain;
     fc_TlsContext := tlsContext chain;
     fc_Filters := []; fc_Metadata := None |}.

(** The listener filter that inspects the TLS handshake. *)
Definition tlsInspector : ListenerFilter := {| lf_Name := xdsutil_TlsInspector |}.

(** The prefix range that a destination CIDR of a chain option adds to the
    match of its chain: none for the empty string, for an address that does
    not convert, and for the unspecified address. *)
Definition cidrOf (d : string) : option CidrRange :=
  if bool_decide (String.length d = 0%nat) then None
  else
    match ConvertAddressToCidr D d with
    | Some cidr =>
      if negb (String.eqb (AddressPrefix cidr) constants_UnspecifiedIP)
      then Some cidr else None
    | None => None
    end.

(** The network filter that carries the connection manager of an HTTP chain
    of the listener called [name]. *)
Definition connectionManagerFilter (node : Proxy) (e : option Environment)
    (name : string) (ho : httpListenerOpts) (httpFilters : list plugin.HttpFilter)
    : Filter :=
  let hcm :=
    buildHTTPConnectionManager D node e (set_statPrefix ho name) httpFilters in
  {| filter_Name := xdsutil_HTTPConnectionManager;
     filter_ConfigType :=
       Some (if IsXDSMarshalingToAnyEnabled D node
             then Filter_TypedConfig hcm else Filter_Config hcm) |}.

(** The filters that the assembly appends to a chain, in their order: for an
    HTTP chain the TCP filters of the plugins and then the connection
    manager; for a TCP chain the network filters of the options but the
    last, the TCP filters of the plugins, and the last network filter. *)
Definition appendedFilters (node : Proxy) (e : option Environment)
    (name : string) (chain : plugin.FilterChain) (opt : filterChainOpts)
    : list Filter :=
  match httpOpts opt with
  | Some ho =>
    plugin.TCP_ chain
    ++ [connectionManagerFilter node e name ho (plugin.HTTP_ chain)]
  | None =>
    take (length (networkFilters opt) - 1) (networkFilters opt)
    ++ plugin.TCP_ chain
    ++ drop (length (networkFilters opt) - 1) (networkFilters opt)
  end.

(** A hook of the plugins keeps the chains as many as they are: the chains
    of the plugins and the chains of the listener, which the assembly walks
    by one index. *)
Definition keepsChains
    (hook : plugin.Plugin → plugin.InputParams → plugin.MutableObjects →
            plugin.MutableObjects * option string) : Prop :=
  ∀ p pluginParams mutable, p ∈ Plugins configgen →
    length (plugin.FilterChains (hook p pluginParams mutable).1)
    = length (plugin.FilterChains mutable)
    ∧ length (l_FilterChains (plugin.Listener_ (hook p pluginParams mutable).1))
      = length (l_FilterChains (plugin.Listener_ mutable)).

(** The service instance that stands for a management port, and the
    listener of the port: bound to the management IP, inbound, traffic
    redirected to it rather than bound to the port, one chain without a
    match that holds the inbound network filters of the instance. *)
Definition managementInstance (managementIP : string) (mPort : Port)
    : ServiceInstance :=
  {| Endpoint :=
       {| ep_Address := managementIP; ep_Port := port_Port mPort;
          ep_ServicePort := mPort |};
     si_Service :=
       {| Hostname := ManagementClusterHostname; svc_Address := "";
          Ports := [] |};
     Labels := [] |}.

Definition managementListener (e : Environment) (node : Proxy)
    (managementIP : string) (mPort : Port) : Listener :=
  {| l_Name := managementIP +:+ "_" +:+ pretty (port_Port mPort);
     l_Address := BuildAddress managementIP (uint32 (port_Port mPort));
     l_ListenerFilters := [];
     l_FilterChains :=
       [ {| fc_FilterChainMatch := None; fc_TlsContext := None;
            fc_Filters :=
              buildInboundNetworkFilters D e node
                (managementInstance managementIP mPort);
            fc_Metadata := None |} ];
     l_DeprecatedV1 := Some false;
     l_TrafficDirection := INBOUND |}.

(** An entry of the registry as a later unit may leave it: the port (and so
    the protocol) and the bind it was registered with, the services and the
    chains it had in front of any that were added, the other fields of its
    listener as they were; a locked entry is left as it is. *)
Definition entryExtends (e e' : outboundListenerEntry) : Prop :=
  servicePort e' = servicePort e
  ∧ ole_bind e' = ole_bind e
  ∧ services e `prefix_of` services e'
  ∧ l_FilterChains (listener e) `prefix_of` l_FilterChains (listener e')
  ∧ set_FilterChains (listener e') [] = set_FilterChains (listener e) []
  ∧ (locked e = true → e' = e).

(** A status event of one of the three outbound conflict kinds, recorded
    for the given proxy under the given listener key. *)
Definition isOutboundConflict (node : Proxy) (key : string)
    (ev : StatusEvent) : Prop :=
  ev_metric ev ≠ ProxyStatusConflictInboundListener
  ∧ ev_proxy ev = ID node
  ∧ ev_key ev = key.

(** A status event of the inbound conflict kind; it is recorded for the
    proxy under the ID of the proxy. *)
Definition isInboundConflict (node : Proxy) (ev : StatusEvent) : Prop :=
  ev_metric ev = ProxyStatusConflictInboundListener
  ∧ ev_key ev = ID node
  ∧ ev_proxy ev = ID node.

(** The address of the inbound listener of a service instance. *)
Definition endpointAddress (instance : ServiceInstance) : Address :=
  BuildAddress (ep_Address (Endpoint instance))
               (uint32 (ep_Port (Endpoint instance))).

(** The units of the inbound stage: the ingress listeners of the Sidecar
    resource when there are custom ones, the service instances of the proxy
    otherwise. *)
Definition inboundUnits (node : Proxy) : nat :=
  if HasCustomIngressListeners (proxy_SidecarScope node)
  then length (Ingress (proxy_SidecarScope node))
  else length (ServiceInstances node).

(** The entries of the registry whose listener passes validation and whose
    port is of the TCP family, and those whose listener passes validation
    and whose port is not. *)
Definition collatedAsTCP (ke : string * outboundListenerEntry) : Prop :=
  Listener_Validate D (listener ke.2) = None
  ∧ protocol.IsTCP (port_Protocol (servicePort ke.2)) = true.

Definition collatedAsHTTP (ke : string * outboundListenerEntry) : Prop :=
  Listener_Validate D (listener ke.2) = None
  ∧ protocol.IsTCP (port_Protocol (servicePort ke.2)) = false.

#[global] Instance collatedAsTCP_dec ke : Decision (collatedAsTCP ke).
Proof. unfold collatedAsTCP. apply _. Defined.

#[global] Instance collatedAsHTTP_dec ke : Decision (collatedAsHTTP ke).
Proof. unfold collatedAsHTTP. apply _. Defined.

(** The listener that [buildSidecarOutboundListeners] appends for the HTTP
    proxy, if any. *)
Definition httpProxyListeners (e : Environment) (node : Proxy) : list Listener :=
  match buildHTTPProxy e node with
  | Some (Some httpProxy) => [set_TrafficDirection httpProxy OUTBOUND]
  | _ => []
  end.

(** The port of the HTTP-proxy listener: the one of the mesh configuration,
    or the default one when that is zero and the proxy does not capture
    traffic. *)
Definition httpProxyPort (e : Environment) (node : Proxy) : Z :=
  if bool_decide (Mesh_ProxyHttpPort e = 0)
     && bool_decide (InterceptionMode node = InterceptionNone)
  then int32 (features_DefaultPortHTTPProxy D)
  else Mesh_ProxyHttpPort e.

(** ** More of the concrete mesh *)

(** A plugin whose listener hooks add one TCP filter to every chain of the
    plugins and leave the listener alone. *)
Definition statsFilter : Filter :=
  {| filter_Name := "example.stats"; filter_ConfigType := None |}.

Definition addStatsFilter (mutable : plugin.MutableObjects)
    : plugin.MutableObjects :=
  {| plugin.Listener_ := plugin.Listener_ mutable;
     plugin.FilterChains :=
       (λ c, {| plugin.FilterChainMatch_ := plugin.FilterChainMatch_ c;
                plugin.TLSContext := plugin.TLSContext c;
                plugin.ListenerFilters := plugin.ListenerFilters c;
                plugin.HTTP_ := plugin.HTTP_ c;
                plugin.TCP_ := plugin.TCP_ c ++ [statsFilter] |})
       <$> plugin.FilterChains mutable |}.

Definition statsPlugin : plugin.Plugin :=
  {| plugin.OnInboundFilterChains := λ _, [];
     plugin.OnInboundListener := λ _ mutable, (addStatsFilter mutable, None);
     plugin.OnOutboundListener := λ _ mutable, (addStatsFilter mutable, None) |}.

Definition statsGenerator : ConfigGeneratorImpl := {| Plugins := [statsPlugin] |}.

(** Chain options with SNI hosts and destination CIDRs only. *)
Definition sniChain (hosts cidrs : list string) : filterChainOpts :=
  {| sniHosts := hosts; destinationCIDRs := cidrs; fco_metadata := None;
     tlsContext := None; httpOpts := None; fco_match := None;
     listenerFilters := []; networkFilters := [] |}.

(** A listener with a TCP chain and an HTTP chain, before the assembly:
    the options (no user filters), the listener as [buildListener] leaves
    it, and the chains of the plugins, each with one TCP filter. *)
Definition twoChainOpts : buildListenerOpts :=
  {| env := Some exampleEnvironment; proxy := None; proxyInstances := [];
     proxyLabels := []; bind := "10.1.1.1"; port := 8080;
     filterChainOpts_ :=
       [ {| sniHosts := []; destinationCIDRs := []; fco_metadata := Some "tcp";
            tlsContext := None; httpOpts := None; fco_match := Some rangeMatch;
            listenerFilters := [];
            networkFilters := [tcpProxyTo "first"; tcpProxyTo "last"] |};
         {| sniHosts := []; destinationCIDRs := []; fco_metadata := None;
            tlsContext := None;
            httpOpts :=
              Some {| routeConfig := None; rds := "8080";
                      connectionManager := None; statPrefix := "";
                      direction := EGRESS; addGRPCWebFilter := false;
                      useRemoteAddress := false |};
            fco_match := None; listenerFilters := [];
            networkFilters := [] |} ];
     bindToPort := false; skipUserFilters := true |}.

Definition twoChainListener : Listener :=
  {| l_Name := "10.1.1.1_8080";
     l_Address := BuildAddress "10.1.1.1" 8080;
     l_ListenerFilters := [];
     l_FilterChains :=
       [ {| fc_FilterChainMatch := Some rangeMatch; fc_TlsContext := None;
            fc_Filters := []; fc_Metadata := None |};
         {| fc_FilterChainMatch := None; fc_TlsContext := None;
            fc_Filters := []; fc_Metadata := None |} ];
     l_DeprecatedV1 := Some false;
     l_TrafficDirection := OUTBOUND |}.

Definition twoChainMutable : plugin.MutableObjects :=
  addStatsFilter
    {| plugin.Listener_ := twoChainListener;
       plugin.FilterChains := [plugin.emptyFilterChain; plugin.emptyFilterChain] |}.

(** An environment with three management ports, one of them of a protocol
    without a listener protocol. *)
Definition mgmtEnvironment : Environment :=
  {| Mesh_ProxyListenPort := 15001; Mesh_ProxyHttpPort := 0;
     ManagementPorts := λ _, [tcp8080; udp5353; tcp5353] |}.

(** A service with a privileged and an unprivileged TCP port. *)
Definition tcp80 : Port :=
  {| port_Name := "tcp-low"; port_Port := 80; port_Protocol := protocol.TCP |}.

Definition svcTwoPorts : Service :=
  {| Hostname := "ports.default.svc"; svc_Address := "10.7.7.7";
     Ports := [tcp80; tcp9080] |}.

(** The catch-all egress listener over the given services. *)
Definition catchAllEgress (svcs : list Service) : IstioEgressListenerWrapper :=
  {| IstioListener := None; Services := svcs; VirtualServices := [] |}.

(** The entry of the TCP service with an address of its own, as it is
    registered for a proxy in redirect mode: one chain without a match. *)
Definition vipTCPListener : Listener :=
  {| l_Name := "10.9.9.9_9080";
     l_Address := BuildAddress "10.9.9.9" 9080;
     l_ListenerFilters := [];
     l_FilterChains :=
       [ {| fc_FilterChainMatch := None; fc_TlsContext := None;
            fc_Filters := [tcpProxyTo "outbound|vip.default.svc"];
            fc_Metadata := None |} ];
     l_DeprecatedV1 := Some false;
     l_TrafficDirection := OUTBOUND |}.

Definition vipTCPEntry : outboundListenerEntry :=
  {| services := [svcVipTCP]; servicePort := tcp9080;
     ole_bind := "10.9.9.9"; listener := vipTCPListener; locked := false |}.

(** The registry and the status events after the TCP service on an address
    range and then the HTTP service on the same port were resolved: the
    HTTP service was rejected with a conflict event. *)
Definition conflictRegistry : gmap string outboundListenerEntry :=
  <[ "0.0.0.0:9080" := set_services rangeTCPEntry [svcRangeTCP; svcHTTP] ]>
    rangeTCPRegistry.

Definition conflictEvents (node : Proxy) : PushContext :=
  addMetric
    (conflictTCPOverHTTP (catchAllUnit node http9080 svcHTTP) "0.0.0.0:9080"
       rangeTCPEntry svcHTTP) [].

(** The entry that the catch-all egress listener registers for the
    unprivileged port of [svcTwoPorts] on a proxy in interception mode
    NONE: bound to the port on the localhost address. *)
Definition localTCPListener : Listener :=
  {| l_Name := "127.0.0.1_9080";
     l_Address := BuildAddress "127.0.0.1" 9080;
     l_ListenerFilters := [];
     l_FilterChains :=
       [ {| fc_FilterChainMatch := None; fc_TlsContext := None;
            fc_Filters := [tcpProxyTo "outbound|ports.default.svc"];
            fc_Metadata := None |} ];
     l_DeprecatedV1 := None;
     l_TrafficDirection := OUTBOUND |}.

Definition localTCPEntry : outboundListenerEntry :=
  {| services := [svcTwoPorts]; servicePort := tcp9080;
     ole_bind := "127.0.0.1"; listener := localTCPListener; locked := false |}.

(** A proxy with three service instances: two on the same address and
    port, and one of a protocol without a listener protocol. *)
Definition threeInstances : Proxy :=
  proxyWithInstances
    [ localInstance tcp8080 "a.default.svc";
      localInstance tcp8080 "b.default.svc";
      localInstance udp5353 "dns.default.svc" ] [].



(** An egress listener on port 9080, without a bind, over two TCP services
    with different addresses. *)
Definition egressOn9080 : IstioEgressListenerWrapper :=
  {| IstioListener :=
       Some {| egress_Port :=
                 Some {| np_Number := 9080; np_Protocol := "TCP";
                         np_Name := "tcp" |};
               egress_Bind := "";
               egress_CaptureMode := CaptureMode_DEFAULT |};
     Services := [svcRangeTCP; svcVipTCP];
     VirtualServices := [] |}.

(** * Properties *)

(** ** Address resolution *)

Lemma wildcardAndLocalHostOf_spec addrs :
  wildcardAndLocalHostOf addrs =
  if existsb parsesAsIPv4 addrs
  then (WildcardAddress, LocalhostAddress)
  else (WildcardIPv6Address, LocalhostIPv6Address).
Proof.
  induction addrs as [|a rest IH]; [done|].
  cbn [wildcardAndLocalHostOf existsb]. unfold parsesAsIPv4 at 1.
  destruct (ParseIP D a) as [addr|]; [|done].
  destruct (To4 D addr); [done|].
  rewrite bool_decide_eq_false_2; [done|]. by intros [? ?].
Qed.

(** The resolver decides for IPv4 exactly when some address parses as IPv4;
    whether that address is the loopback address plays no part. *)
Lemma getActualWildcardAndLocalHost_spec node :
  getActualWildcardAndLocalHost node =
  if existsb parsesAsIPv4 (IPAddresses node)
  then (WildcardAddress, LocalhostAddress)
  else (WildcardIPv6Address, LocalhostIPv6Address).
Proof. apply wildcardAndLocalHostOf_spec. Qed.

(** A proxy none of whose addresses parses gets the IPv6 pair. *)
Lemma getActualWildcardAndLocalHost_unparseable node :
  Forall (λ a, ParseIP D a = None) (IPAddresses node) →
  getActualWildcardAndLocalHost node
  = (WildcardIPv6Address, LocalhostIPv6Address).
Proof.
  unfold getActualWildcardAndLocalHost.
  induction 1 as [|a rest Ha _ IH]; [done|].
  cbn [wildcardAndLocalHostOf]. by rewrite Ha.
Qed.

(** C9.  The claim gives a loopback-only proxy the IPv6 pair, as the comment
    on [getActualWildcardAndLocalHost] does ("at least one ipv4 address
    other than 127.0.0.1").  The function does not look at which IPv4
    address it found: for a proxy whose only address is 127.0.0.1, which
    parses as an IPv4 address, it returns the IPv4 pair
    (0.0.0.0, 127.0.0.1). *)
Theorem getActualWildcardAndLocalHost_loopback_only node ip ip4 :
  IPAddresses node = ["127.0.0.1"] →
  ParseIP D "127.0.0.1" = Some ip →
  To4 D ip = Some ip4 →
  getActualWildcardAndLocalHost node = ("0.0.0.0", "127.0.0.1").
Proof.
  intros Hips Hparse H4. unfold getActualWildcardAndLocalHost.
  rewrite Hips. cbn [wildcardAndLocalHostOf]. by rewrite Hparse, H4.
Qed.

(** ** The keys of the outbound registry *)

(** The bind address an HTTP unit is resolved under. *)
Lemma outboundHTTP_key listenerOpts pluginParams listenerMap push actualWildcard :
  oo_listenerMapKey
    (buildSidecarOutboundHTTPListenerOptsForPortOrUDS listenerOpts pluginParams
       listenerMap push actualWildcard)
  = listenerKey
      (if bool_decide (String.length (bind listenerOpts) = 0%nat)
       then actualWildcard else bind listenerOpts)
      (port_Port (plugin.Port_ pluginParams)).
Proof.
  unfold buildSidecarOutboundHTTPListenerOptsForPortOrUDS.
  assert (Hb : ∀ b, bind (set_bind listenerOpts b) = b) by done.
  repeat case_match; simpl; rewrite ?Hb; done.
Qed.

Lemma outboundHTTP_current listenerOpts pluginParams listenerMap push actualWildcard :
  let r := buildSidecarOutboundHTTPListenerOptsForPortOrUDS listenerOpts
             pluginParams listenerMap push actualWildcard in
  oo_currentListenerEntry r = listenerMap !! oo_listenerMapKey r.
Proof.
  unfold buildSidecarOutboundHTTPListenerOptsForPortOrUDS.
  repeat case_match; done.
Qed.

(** ** What the two option builders do to the registry *)

Lemma outboundHTTP_cases listenerOpts pluginParams listenerMap push actualWildcard :
  let r := buildSidecarOutboundHTTPListenerOptsForPortOrUDS listenerOpts
             pluginParams listenerMap push actualWildcard in
  let key := oo_listenerMapKey r in
  match listenerMap !! key with
  | None =>
    ret r = true ∧ oo_listenerMap r = listenerMap ∧ oo_push r = push
  | Some cur =>
    ret r = false ∧
    if locked cur then oo_listenerMap r = listenerMap ∧ oo_push r = push
    else
      match plugin.Service_ pluginParams with
      | Some service =>
        oo_listenerMap r
        = <[ key := set_services cur (services cur ++ [service]) ]> listenerMap
        ∧ oo_push r
          = (if negb (protocol.IsHTTP (port_Protocol (servicePort cur)))
             then addMetric (conflictTCPOverHTTP pluginParams key cur service) push
             else push)
      | None => oo_listenerMap r = listenerMap ∧ oo_push r = push
      end
  end.
Proof.
  cbv zeta. rewrite outboundHTTP_key.
  unfold buildSidecarOutboundHTTPListenerOptsForPortOrUDS.
  set (lo := if bool_decide (String.length (bind listenerOpts) = 0%nat)
             then set_bind listenerOpts actualWildcard else listenerOpts).
  assert (Hlo : bind lo
                = if bool_decide (String.length (bind listenerOpts) = 0%nat)
                  then actualWildcard else bind listenerOpts)
    by (subst lo; by case_bool_decide).
  rewrite <- Hlo.
  destruct (listenerMap !! _) as [cur|] eqn:Hcur; [|done].
  destruct (locked cur); [done|].
  destruct (plugin.Service_ pluginParams); done.
Qed.

Lemma outboundTCP_cases listenerOpts pluginParams listenerMap push vs actualWildcard r :
  buildSidecarOutboundTCPListenerOptsForPortOrUDS listenerOpts pluginParams
    listenerMap push vs actualWildcard = Some r →
  let key := oo_listenerMapKey r in
  oo_listenerMap r = listenerMap ∧
  oo_currentListenerEntry r = listenerMap !! key ∧
  match listenerMap !! key with
  | None => ret r = true ∧ oo_push r = push
  | Some cur =>
    if locked cur then ret r = false ∧ oo_push r = push
    else if negb (protocol.IsTCP (port_Protocol (servicePort cur))) then
      ret r = false
      ∧ oo_push r = addMetric (conflictHTTPOverTCP pluginParams key cur) push
    else ret r = true ∧ oo_push r = push
  end.
Proof.
  unfold buildSidecarOutboundTCPListenerOptsForPortOrUDS. intros H.
  apply bind_Some in H as ([cidr lo] & _ & H). cbv zeta in H.
  destruct (listenerMap !! _) as [cur|] eqn:Hcur.
  - destruct (locked cur) eqn:Hl.
    + simplify_eq; simpl. rewrite Hcur, Hl. done.
    + destruct (negb _) eqn:Hp; simplify_eq; simpl; rewrite Hcur, Hl, Hp; done.
  - simplify_eq; simpl. rewrite Hcur. done.
Qed.

(** ** Cross-protocol conflicts *)

(** C2.  The claim has the incumbent entry unaffected in both directions.
    That holds for a TCP unit arriving at an HTTP entry
    ([tcp_unit_over_http_entry] below).  For an HTTP unit arriving at an
    unlocked TCP entry the code rejects the unit and emits the record, and
    then falls through to the line that serves the HTTP-over-HTTP merge: the
    rejected service is appended to the contributing services of the TCP
    entry. *)
Theorem http_unit_over_tcp_entry listenerOpts pluginParams listenerMap push
    virtualServices actualWildcard cur service :
  let key :=
    oo_listenerMapKey
      (buildSidecarOutboundHTTPListenerOptsForPortOrUDS listenerOpts
         pluginParams listenerMap push actualWildcard) in
  plugin.ListenerProtocol_ pluginParams = plugin.ListenerProtocolHTTP →
  plugin.Service_ pluginParams = Some service →
  listenerMap !! key = Some cur →
  locked cur = false →
  protocol.IsHTTP (port_Protocol (servicePort cur)) = false →
  buildSidecarOutboundListenerForPortOrUDS listenerOpts pluginParams
    listenerMap push virtualServices actualWildcard
  = Some (<[ key := set_services cur (services cur ++ [service]) ]> listenerMap,
          addMetric (conflictTCPOverHTTP pluginParams key cur service) push).
Proof.
  intros key Hproto Hsvc Hcur Hlocked Hhttp.
  unfold buildSidecarOutboundListenerForPortOrUDS. rewrite Hproto.
  pose proof (outboundHTTP_cases listenerOpts pluginParams listenerMap push
                actualWildcard) as Hcases.
  cbv zeta in Hcases. fold key in Hcases.
  rewrite Hcur, Hlocked, Hsvc, Hhttp in Hcases.
  destruct Hcases as (-> & -> & ->). done.
Qed.

(** The other direction: a TCP unit arriving at an unlocked HTTP entry is
    rejected with the HTTP-over-TCP record and the registry is left as it
    is. *)
Lemma tcp_unit_over_http_entry listenerOpts pluginParams listenerMap push
    virtualServices actualWildcard r cur :
  plugin.ListenerProtocol_ pluginParams = plugin.ListenerProtocolTCP →
  buildSidecarOutboundTCPListenerOptsForPortOrUDS listenerOpts pluginParams
    listenerMap push virtualServices actualWildcard = Some r →
  listenerMap !! oo_listenerMapKey r = Some cur →
  locked cur = false →
  protocol.IsTCP (port_Protocol (servicePort cur)) = false →
  buildSidecarOutboundListenerForPortOrUDS listenerOpts pluginParams
    listenerMap push virtualServices actualWildcard
  = Some (listenerMap,
          addMetric (conflictHTTPOverTCP pluginParams (oo_listenerMapKey r) cur)
            push).
Proof.
  intros Hproto Hr Hcur Hlocked Htcp.
  unfold buildSidecarOutboundListenerForPortOrUDS. rewrite Hproto, Hr. simpl.
  destruct (outboundTCP_cases _ _ _ _ _ _ _ Hr) as (Hm & _ & Hcases).
  rewrite Hcur, Hlocked, Htcp in Hcases. destruct Hcases as [-> ->].
  simpl. by rewrite Hm.
Qed.

(** ** Locked entries *)

Lemma lockAll_lookup listenerMap k :
  lockAll listenerMap !! k = (λ e, set_locked e true) <$> listenerMap !! k.
Proof. unfold lockAll. apply lookup_fmap. Qed.

(** A unit resolved against a locked entry changes nothing. *)
Lemma locked_entry_rejects_http listenerOpts pluginParams listenerMap push
    virtualServices actualWildcard cur :
  plugin.ListenerProtocol_ pluginParams = plugin.ListenerProtocolHTTP →
  listenerMap !! oo_listenerMapKey
      (buildSidecarOutboundHTTPListenerOptsForPortOrUDS listenerOpts
         pluginParams listenerMap push actualWildcard) = Some cur →
  locked cur = true →
  buildSidecarOutboundListenerForPortOrUDS listenerOpts pluginParams
    listenerMap push virtualServices actualWildcard
  = Some (listenerMap, push).
Proof.
  intros Hproto Hcur Hlocked.
  unfold buildSidecarOutboundListenerForPortOrUDS. rewrite Hproto.
  pose proof (outboundHTTP_cases listenerOpts pluginParams listenerMap push
                actualWildcard) as Hcases.
  cbv zeta in Hcases. rewrite Hcur, Hlocked in Hcases.
  destruct Hcases as (-> & -> & ->). done.
Qed.

Lemma locked_entry_rejects_tcp listenerOpts pluginParams listenerMap push
    virtualServices actualWildcard r cur :
  plugin.ListenerProtocol_ pluginParams = plugin.ListenerProtocolTCP →
  buildSidecarOutboundTCPListenerOptsForPortOrUDS listenerOpts pluginParams
    listenerMap push virtualServices actualWildcard = Some r →
  listenerMap !! oo_listenerMapKey r = Some cur →
  locked cur = true →
  buildSidecarOutboundListenerForPortOrUDS listenerOpts pluginParams
    listenerMap push virtualServices actualWildcard
  = Some (listenerMap, push).
Proof.
  intros Hproto Hr Hcur Hlocked.
  unfold buildSidecarOutboundListenerForPortOrUDS. rewrite Hproto, Hr. simpl.
  destruct (outboundTCP_cases _ _ _ _ _ _ _ Hr) as (Hm & _ & Hcases).
  rewrite Hcur, Hlocked in Hcases. destruct Hcases as [-> ->].
  simpl. by rewrite Hm.
Qed.

(** What [registerOutboundListener] does to the registry: nothing, or an
    insertion at the key of the unit. *)
Lemma registerOutboundListener_cases r pluginParams actualWildcard m' push' :
  registerOutboundListener r pluginParams actualWildcard = Some (m', push') →
  (m' = oo_listenerMap r ∧ push' = oo_push r)
  ∨ ∃ entry, m' = <[ oo_listenerMapKey r := entry ]> (oo_listenerMap r).
Proof.
  unfold registerOutboundListener. intros H.
  destruct (buildOutboundListener r pluginParams actualWildcard)
    as [[l lo]|msg|]; [|left; by simplify_eq|done].
  destruct (oo_currentListenerEntry r) as [cur|].
  - destruct (mergeListener _ _ _ _ _) as [entry push0]. simplify_eq.
    right. by eexists.
  - apply bind_Some in H as (service & _ & H). simplify_eq.
    right. by eexists.
Qed.

(** A locked entry is never changed by the resolution of a unit, whatever
    key the unit resolves to. *)
Lemma locked_entry_frame listenerOpts pluginParams listenerMap push
    virtualServices actualWildcard m' push' k e :
  buildSidecarOutboundListenerForPortOrUDS listenerOpts pluginParams
    listenerMap push virtualServices actualWildcard = Some (m', push') →
  listenerMap !! k = Some e →
  locked e = true →
  m' !! k = Some e.
Proof.
  unfold buildSidecarOutboundListenerForPortOrUDS. intros H Hk Hlocked.
  destruct (plugin.ListenerProtocol_ pluginParams); [by simplify_eq| |].
  - apply bind_Some in H as (r & Hr & H).
    destruct (outboundTCP_cases _ _ _ _ _ _ _ Hr) as (Hm & _ & Hcases).
    destruct (negb (ret r)) eqn:Hret;
      [injection H as <- <-; by rewrite Hm|].
    apply registerOutboundListener_cases in H as [[-> _]|[entry ->]];
      [by rewrite Hm|].
    rewrite Hm. rewrite lookup_insert_ne; [done|].
    intros <-. rewrite Hk, Hlocked in Hcases.
    destruct Hcases as [Hf _]. by rewrite Hf in Hret.
  - pose proof (outboundHTTP_cases listenerOpts pluginParams listenerMap push
                  actualWildcard) as Hcases.
    cbv zeta in Hcases.
    set (r := buildSidecarOutboundHTTPListenerOptsForPortOrUDS _ _ _ _ _) in *.
    destruct (listenerMap !! oo_listenerMapKey r) as [cur|] eqn:Hcur.
    + destruct Hcases as [Hret Hcases]. rewrite Hret in H. simpl in H.
      simplify_eq.
      destruct (locked cur) eqn:Hl; [destruct Hcases as [-> _]; done|].
      destruct (plugin.Service_ pluginParams);
        [|destruct Hcases as [-> _]; done].
      destruct Hcases as [-> _]. rewrite lookup_insert_ne; [done|].
      intros <-. congruence.
    + destruct Hcases as (Hret & Hm & _). rewrite Hret in H. simpl in H.
      apply registerOutboundListener_cases in H as [[-> _]|[entry ->]];
        [by rewrite Hm|].
      rewrite Hm. rewrite lookup_insert_ne; [done|]. intros <-. congruence.
Qed.

Lemma forEach_invariant {A S : Type} (P : S → Prop) (body : S → A → option S)
    (l : list A) (s s' : S) :
  (∀ s x s', x ∈ l → P s → body s x = Some s' → P s') →
  P s → forEach body s l = Some s' → P s'.
Proof.
  revert s. induction l as [|x l IH]; intros s Hbody Hs H; simpl in H.
  - by simplify_eq.
  - apply bind_Some in H as (s1 & Hx & H).
    apply (IH s1); [|by eapply Hbody; [left|..]|done].
    intros ? ? ? ?. apply Hbody. by right.
Qed.

Lemma locked_entry_rejects listenerOpts pluginParams listenerMap push
    virtualServices actualWildcard key cur :
  resolutionKey listenerOpts pluginParams listenerMap push virtualServices
    actualWildcard = Some key →
  listenerMap !! key = Some cur →
  locked cur = true →
  buildSidecarOutboundListenerForPortOrUDS listenerOpts pluginParams
    listenerMap push virtualServices actualWildcard
  = Some (listenerMap, push).
Proof.
  unfold resolutionKey, outboundUnitOpts. intros Hkey Hcur Hlocked.
  destruct (plugin.ListenerProtocol_ pluginParams) eqn:Hproto; [done| |].
  - apply fmap_Some in Hkey as (r & Hr & ->).
    by eapply locked_entry_rejects_tcp.
  - simpl in Hkey. simplify_eq. by eapply locked_entry_rejects_http.
Qed.

(** C4.  Processing the catch-all egress rule leaves every entry that was in
    the registry before it locked and otherwise as it was; and a unit
    resolved against a locked entry leaves the registry (chains and
    contributing services) and the status events as they are. *)
Theorem catch_all_locks_earlier_entries e node noneMode actualWildcard
    actualLocalHostAddress st egressListener st' :
  isCatchAll egressListener →
  outboundFromEgress e node noneMode actualWildcard actualLocalHostAddress
    st egressListener = Some st' →
  (∀ k entry, st.1 !! k = Some entry →
     st'.1 !! k = Some (set_locked entry true))
  ∧ (∀ listenerOpts pluginParams listenerMap push virtualServices wildcard
       key cur,
       resolutionKey listenerOpts pluginParams listenerMap push
         virtualServices wildcard = Some key →
       listenerMap !! key = Some cur →
       locked cur = true →
       buildSidecarOutboundListenerForPortOrUDS listenerOpts pluginParams
         listenerMap push virtualServices wildcard
       = Some (listenerMap, push)).
Proof.
  intros Hcatch H. split; [|intros; by eapply locked_entry_rejects].
  unfold outboundFromEgress in H. unfold isCatchAll in Hcatch.
  rewrite Hcatch in H.
  set (P := λ s : outboundState,
         ∀ k entry, st.1 !! k = Some entry →
                    s.1 !! k = Some (set_locked entry true)).
  revert H. apply (forEach_invariant P).
  - intros s service s1 _ Hs. apply (forEach_invariant P); [|done].
    intros s2 servicePort s3 _ Hs2 Hstep k entry Hk.
    destruct (negb (validatePort _ _ _)); [simplify_eq; by apply Hs2|].
    destruct s3 as [m3 p3].
    eapply locked_entry_frame; [exact Hstep|by apply Hs2|done].
  - intros k entry Hk. simpl. by rewrite lockAll_lookup, Hk.
Qed.

(** ** HTTP services on one key *)

Lemma registerOutboundListener_new r pluginParams actualWildcard m' push' :
  oo_currentListenerEntry r = None →
  registerOutboundListener r pluginParams actualWildcard = Some (m', push') →
  push' = oo_push r ∧
  (m' = oo_listenerMap r
   ∨ ∃ l lo service,
       plugin.Service_ pluginParams = Some service
       ∧ buildOutboundListener r pluginParams actualWildcard = Ok (l, lo)
       ∧ m' = <[ oo_listenerMapKey r :=
                   {| services := [service];
                      servicePort := plugin.Port_ pluginParams;
                      ole_bind := bind lo; listener := l; locked := false |} ]>
                (oo_listenerMap r)).
Proof.
  unfold registerOutboundListener. intros Hcur H. rewrite Hcur in H.
  destruct (buildOutboundListener r pluginParams actualWildcard)
    as [[l lo]|msg|]; [|simplify_eq; by split; [|left]|done].
  apply bind_Some in H as (service & Hsvc & H). simplify_eq.
  split; [done|]. right. by exists l, lo, service.
Qed.

(** C5.  Two HTTP services resolved to the same key, the key being free
    before the first and the listener of the first being built: the registry
    then holds, under that one key, the listener built for the first service
    with its filter chains as they were, both services as contributors, and
    no status event is added by the second. *)
Theorem two_http_services_one_listener listenerOpts pp1 pp2 listenerMap push
    virtualServices actualWildcard s1 s2 m1 push1 e1 :
  let key :=
    oo_listenerMapKey
      (buildSidecarOutboundHTTPListenerOptsForPortOrUDS listenerOpts pp1
         listenerMap push actualWildcard) in
  plugin.ListenerProtocol_ pp1 = plugin.ListenerProtocolHTTP →
  plugin.ListenerProtocol_ pp2 = plugin.ListenerProtocolHTTP →
  protocol.IsHTTP (port_Protocol (plugin.Port_ pp1)) = true →
  port_Port (plugin.Port_ pp2) = port_Port (plugin.Port_ pp1) →
  plugin.Service_ pp1 = Some s1 →
  plugin.Service_ pp2 = Some s2 →
  listenerMap !! key = None →
  buildSidecarOutboundListenerForPortOrUDS listenerOpts pp1 listenerMap push
    virtualServices actualWildcard = Some (m1, push1) →
  m1 !! key = Some e1 →
  services e1 = [s1] ∧ locked e1 = false ∧
  ∃ m2,
    buildSidecarOutboundListenerForPortOrUDS listenerOpts pp2 m1 push1
      virtualServices actualWildcard = Some (m2, push1)
    ∧ dom m2 = dom m1
    ∧ ∃ e2, m2 !! key = Some e2
            ∧ listener e2 = listener e1
            ∧ l_FilterChains (listener e2) = l_FilterChains (listener e1)
            ∧ services e2 = [s1; s2].
Proof.
  intros key Hp1 Hp2 Hhttp Hport Hs1 Hs2 Hfree Hfirst He1.
  (* the first service creates the entry *)
  assert (He1' : e1 = {| services := [s1]; servicePort := plugin.Port_ pp1;
                         ole_bind := ole_bind e1; listener := listener e1;
                         locked := false |} ∧ push1 = push).
  { unfold buildSidecarOutboundListenerForPortOrUDS in Hfirst.
    rewrite Hp1 in Hfirst.
    pose proof (outboundHTTP_cases listenerOpts pp1 listenerMap push
                  actualWildcard) as Hcases.
    pose proof (outboundHTTP_current listenerOpts pp1 listenerMap push
                  actualWildcard) as Hcur.
    cbv zeta in Hcases, Hcur. fold key in Hcases, Hcur.
    rewrite Hfree in Hcases, Hcur. destruct Hcases as (Hret & Hm & Hpush).
    rewrite Hret in Hfirst. simpl in Hfirst.
    apply registerOutboundListener_new in Hfirst as [-> Hfirst]; [|done].
    split; [|done].
    destruct Hfirst as [->|(l & lo & service & Hsvc & _ & ->)].
    - rewrite Hm in He1. congruence.
    - fold key in He1. rewrite lookup_insert_eq in He1. by simplify_eq. }
  destruct He1' as [He1' ->].
  split; [by rewrite He1'|]. split; [by rewrite He1'|].
  (* the second service is merged into it *)
  assert (Hkey2 : oo_listenerMapKey
                    (buildSidecarOutboundHTTPListenerOptsForPortOrUDS
                       listenerOpts pp2 m1 push actualWildcard) = key).
  { unfold key. rewrite !outboundHTTP_key. by rewrite Hport. }
  pose proof (outboundHTTP_cases listenerOpts pp2 m1 push actualWildcard)
    as Hcases.
  cbv zeta in Hcases. rewrite Hkey2, He1 in Hcases.
  assert (Hl : locked e1 = false) by by rewrite He1'.
  assert (Hh : protocol.IsHTTP (port_Protocol (servicePort e1)) = true)
    by by rewrite He1'.
  rewrite Hl, Hs2, Hh in Hcases. destruct Hcases as (Hret & Hm & Hpush).
  eexists. split.
  { unfold buildSidecarOutboundListenerForPortOrUDS.
    rewrite Hp2, Hret, Hm, Hpush. done. }
  split.
  { rewrite dom_insert_L. apply elem_of_dom_2 in He1.
    by apply subseteq_union_1_L, singleton_subseteq_l. }
  eexists. split; [apply lookup_insert_eq|].
  by rewrite He1'.
Qed.

(** ** TCP services on one key *)

Lemma conflictFound_spec incoming existing :
  conflictFound incoming existing = true ↔ clashes existing incoming.
Proof.
  unfold clashes. induction existing as [|ex rest IH]; simpl.
  - split; [done|]. by intros ?%Exists_nil.
  - rewrite Exists_cons.
    destruct (fc_FilterChainMatch ex) as [em|],
             (fc_FilterChainMatch incoming) as [im|]; simpl.
    + unfold DeepEqual. case_bool_decide as Heq.
      * split; [intros _; left; by f_equal|done].
      * rewrite IH. split; [by right|]. intros [[=]|?]; done.
    + rewrite IH. split; [by right|]. by intros [?|?].
    + rewrite IH. split; [by right|]. by intros [?|?].
    + split; [by left|done].
Qed.

Lemma conflictFound_false incoming existing :
  conflictFound incoming existing = false ↔ ¬ clashes existing incoming.
Proof.
  rewrite <- conflictFound_spec. by destruct (conflictFound incoming existing).
Qed.

Lemma mergeFilterChain_fold pluginParams key existing service incoming :
  plugin.Service_ pluginParams = Some service →
  ∀ acc entry push,
  ∃ evs,
    foldl (mergeFilterChain pluginParams key existing) (acc, entry, push)
          incoming
    = (acc ++ filter (λ c, ¬ clashes existing c) incoming,
       set_services entry
         (services entry ++
          replicate (length (filter (λ c, ¬ clashes existing c) incoming))
                    service),
       push ++ evs)
    ∧ length evs = length (filter (clashes existing) incoming)
    ∧ Forall (isTCPOverTCP key) evs.
Proof.
  intros Hsvc. induction incoming as [|c rest IH]; intros acc entry push.
  - exists []. simpl. rewrite !app_nil_r. by destruct entry.
  - cbn [foldl]. unfold mergeFilterChain at 2. rewrite Hsvc.
    destruct (conflictFound c existing) eqn:Hc.
    + apply conflictFound_spec in Hc.
      rewrite filter_cons_False by (by intros ?).
      rewrite (filter_cons_True (clashes existing)) by done.
      edestruct IH as (evs & -> & Hlen & Hevs).
      eexists (_ :: evs). split; [|split].
      * unfold addMetric, push_Add. by rewrite <- app_assoc.
      * simpl. by rewrite Hlen.
      * by constructor.
    + apply conflictFound_false in Hc.
      rewrite filter_cons_True by done.
      rewrite (filter_cons_False (clashes existing)) by done.
      edestruct IH as (evs & -> & Hlen & Hevs).
      exists evs. split; [|done].
      rewrite <- app_assoc. simpl. by rewrite <- app_assoc.
Qed.

(** C3.  A TCP unit resolved to a key whose entry is an unlocked TCP one,
    the listener of the unit being built: each chain of the new listener
    whose match predicate is structurally equal to that of a chain of the
    incumbent listener (two absent predicates included) is left out and
    gets one TCP-over-TCP status event; every other chain is appended to the
    incumbent listener, in order, and adds the service to the contributing
    services once. *)
Theorem tcp_units_merge_by_match listenerOpts pluginParams listenerMap push
    virtualServices actualWildcard r cur service l lo :
  let key := oo_listenerMapKey r in
  let existing := l_FilterChains (listener cur) in
  let accepted := filter (λ c, ¬ clashes existing c) (l_FilterChains l) in
  let rejected := filter (clashes existing) (l_FilterChains l) in
  plugin.ListenerProtocol_ pluginParams = plugin.ListenerProtocolTCP →
  plugin.Service_ pluginParams = Some service →
  buildSidecarOutboundTCPListenerOptsForPortOrUDS listenerOpts pluginParams
    listenerMap push virtualServices actualWildcard = Some r →
  listenerMap !! key = Some cur →
  locked cur = false →
  protocol.IsTCP (port_Protocol (servicePort cur)) = true →
  buildOutboundListener r pluginParams actualWildcard = Ok (l, lo) →
  ∃ entry evs,
    buildSidecarOutboundListenerForPortOrUDS listenerOpts pluginParams
      listenerMap push virtualServices actualWildcard
    = Some (<[ key := entry ]> listenerMap, push ++ evs)
    ∧ l_FilterChains (listener entry) = existing ++ accepted
    ∧ services entry = services cur ++ replicate (length accepted) service
    ∧ length evs = length rejected
    ∧ Forall (isTCPOverTCP key) evs.
Proof.
  intros key existing accepted rejected Hproto Hsvc Hr Hcur Hlocked Htcp Hbuild.
  destruct (outboundTCP_cases _ _ _ _ _ _ _ Hr) as (Hm & Hcurrent & Hcases).
  fold key in Hcurrent, Hcases.
  rewrite Hcur, Hlocked, Htcp in Hcases. simpl in Hcases.
  destruct Hcases as [Hret Hpush]. rewrite Hcur in Hcurrent.
  destruct (mergeFilterChain_fold pluginParams key existing service
              (l_FilterChains l) Hsvc existing cur push)
    as (evs & Hfold & Hlen & Hevs).
  eexists _, evs. split; [|split; [|split; [|done]]].
  - unfold buildSidecarOutboundListenerForPortOrUDS.
    rewrite Hproto, Hr. simpl. rewrite Hret. simpl.
    unfold registerOutboundListener. rewrite Hbuild, Hcurrent.
    unfold mergeListener. fold key. fold existing. rewrite Hpush, Hfold, Hm.
    reflexivity.
  - done.
  - done.
Qed.

(** ** The address of a built listener *)

Lemma uint32_validPort p : validPort p = true → uint32 p = p.
Proof.
  unfold validPort, uint32. intros H%bool_decide_eq_true.
  by apply Z.mod_small.
Qed.

Lemma buildListener_address opts :
  l_Address (buildListener opts)
  = BuildAddress (bind opts) (uint32 (port opts)).
Proof. unfold buildListener. by destruct (foldl _ _ _). Qed.

Lemma callHooks_address hook pluginParams mutable :
  (∀ p pp mu, p ∈ Plugins configgen →
     l_Address (plugin.Listener_ (hook p pp mu).1)
     = l_Address (plugin.Listener_ mu)) →
  l_Address (plugin.Listener_ (callHooks hook pluginParams mutable))
  = l_Address (plugin.Listener_ mutable).
Proof.
  unfold callHooks. intros Hhook. revert mutable.
  induction (Plugins configgen) as [|p ps IH]; intros mutable; [done|].
  simpl. rewrite IH.
  - apply Hhook. by left.
  - intros ? ? ? ?. apply Hhook. by right.
Qed.

Lemma buildCompleteFilterChain_address pluginParams mutable opts l :
  hooksKeepAddress →
  buildCompleteFilterChain pluginParams mutable opts = Ok l →
  l_Address l = l_Address (plugin.Listener_ mutable).
Proof.
  intros (_ & _ & Huser). unfold buildCompleteFilterChain.
  case_bool_decide; [done|].
  destruct (completeChains _ _ _ _ _ _ _ _) as [[fcs hcms]|]; [|done].
  destruct (negb (skipUserFilters opts)).
  - destruct (DeprecatedInsertUserFilters _ _ _ _) as [l' [err|]] eqn:Hu;
      [done|].
    intros [= <-].
    pose proof (Huser pluginParams
                  (set_FilterChains (plugin.Listener_ mutable) fcs) hcms) as Hx.
    rewrite Hu in Hx. simpl in Hx. by rewrite Hx.
  - by intros [= <-].
Qed.

Lemma assembleInboundListener_address node listenerOpts pluginParams instance l :
  hooksKeepAddress →
  assembleInboundListener node listenerOpts pluginParams instance
  = Some (Ok l) →
  l_Address l
  = BuildAddress (bind listenerOpts) (uint32 (port listenerOpts)).
Proof.
  intros Hkeep. unfold assembleInboundListener. intros H.
  apply bind_Some in H as (fcos & _ & [= H]).
  apply (buildCompleteFilterChain_address _ _ _ _ Hkeep) in H.
  rewrite H, callHooks_address by apply Hkeep.
  simpl. by rewrite buildListener_address.
Qed.

Lemma appendListenerFallthroughRoute_address l opts node cur :
  let r := appendListenerFallthroughRoute l opts node cur in
  l_Address r.1 = l_Address l ∧ bind r.2 = bind opts ∧ port r.2 = port opts.
Proof.
  unfold appendListenerFallthroughRoute. repeat case_match; done.
Qed.

Lemma buildOutboundListener_address r pluginParams actualWildcard l lo :
  hooksKeepAddress →
  buildOutboundListener r pluginParams actualWildcard = Ok (l, lo) →
  l_Address l
  = BuildAddress (bind (oo_listenerOpts r)) (uint32 (port (oo_listenerOpts r))).
Proof.
  intros Hkeep. unfold buildOutboundListener.
  set (lo1 := set_filterChainOpts (oo_listenerOpts r) (opts r)).
  set (lo2 := if _ && _ then _ else lo1).
  assert (Hlo2 : bind lo2 = bind (oo_listenerOpts r)
                 ∧ port lo2 = port (oo_listenerOpts r))
    by (subst lo2; by case_match).
  pose proof (appendListenerFallthroughRoute_address (buildListener lo2) lo2
                (plugin.Node pluginParams) (oo_currentListenerEntry r)) as Ha.
  cbv zeta in Ha.
  destruct (appendListenerFallthroughRoute _ _ _ _) as [l1 lo3].
  destruct Ha as (Ha & _ & _). simpl in Ha.
  destruct (buildCompleteFilterChain _ _ _) as [l'| |] eqn:Hb; [|done..].
  intros [= <- <-].
  apply (buildCompleteFilterChain_address _ _ _ _ Hkeep) in Hb.
  rewrite Hb, callHooks_address by apply Hkeep.
  simpl. rewrite Ha, buildListener_address.
  destruct Hlo2 as [-> ->]. done.
Qed.

Lemma outboundHTTP_opts listenerOpts pluginParams listenerMap push actualWildcard :
  let r := buildSidecarOutboundHTTPListenerOptsForPortOrUDS listenerOpts
             pluginParams listenerMap push actualWildcard in
  oo_listenerMapKey r
  = listenerKey (bind (oo_listenerOpts r)) (port_Port (plugin.Port_ pluginParams))
  ∧ port (oo_listenerOpts r) = port listenerOpts.
Proof.
  unfold buildSidecarOutboundHTTPListenerOptsForPortOrUDS.
  repeat case_match; done.
Qed.

Lemma outboundTCP_opts listenerOpts pluginParams listenerMap push vs actualWildcard r :
  buildSidecarOutboundTCPListenerOptsForPortOrUDS listenerOpts pluginParams
    listenerMap push vs actualWildcard = Some r →
  oo_listenerMapKey r
  = listenerKey (bind (oo_listenerOpts r)) (port_Port (plugin.Port_ pluginParams))
  ∧ port (oo_listenerOpts r) = port listenerOpts.
Proof.
  unfold buildSidecarOutboundTCPListenerOptsForPortOrUDS. intros H.
  apply bind_Some in H as ([cidr lo] & Hlo & H).
  assert (port lo = port listenerOpts).
  { repeat case_match; simplify_option_eq; try done;
      repeat case_match; by simplify_eq. }
  repeat case_match; by simplify_eq.
Qed.

(** ** The inbound listener map *)

Lemma inbound_cases node listenerOpts pluginParams listenerMap push ol m' push' :
  let key := listenerKey (bind listenerOpts) (port listenerOpts) in
  buildSidecarInboundListenerForPortOrUDS node listenerOpts pluginParams
    listenerMap push = Some (ol, m', push') →
  (ol = None ∧ m' = listenerMap
   ∧ (listenerMap !! key = None → push' = push))
  ∨ ∃ l instance,
      ol = Some l ∧ listenerMap !! key = None ∧ push' = push
      ∧ plugin.ServiceInstance_ pluginParams = Some instance
      ∧ assembleInboundListener node listenerOpts pluginParams instance
        = Some (Ok l)
      ∧ m' = <[ key := {| ile_bind := bind listenerOpts;
                          instanceHostname := Hostname (si_Service instance) |} ]>
               listenerMap.
Proof.
  intros key. unfold buildSidecarInboundListenerForPortOrUDS. intros H.
  apply bind_Some in H as (instance & Hinst & H). fold key in H.
  destruct (listenerMap !! key) as [old|] eqn:Hkey.
  { left. by simplify_eq. }
  destruct (assembleInboundListener _ _ _ _) as [[l|msg|]|] eqn:Ha;
    simplify_eq; [|by left..].
  right. by exists l, instance.
Qed.

(** An unsupported listener protocol makes the assembly give up. *)
Lemma assembleInboundListener_unsupported node listenerOpts pluginParams instance :
  plugin.ListenerProtocol_ pluginParams = plugin.ListenerProtocolUnknown →
  assembleInboundListener node listenerOpts pluginParams instance = None.
Proof.
  intros Hproto. unfold assembleInboundListener.
  set (chains := if bool_decide _ then _ else _).
  assert (Hne : chains ≠ @nil plugin.FilterChain).
  { subst chains. case_bool_decide as Hlen; [|done].
    intros Heq. by rewrite Heq in Hlen. }
  destruct chains as [|c rest]; [done|]. simpl. by rewrite Hproto.
Qed.

(** C10.  A build that fails under a free key (the protocol is unsupported,
    or the assembly of the filter chains returns an error) returns no
    listener and leaves the listener map and the status events as they
    were: the key is still free.  A later unit with the same bind and port
    whose assembly succeeds then gets its listener and claims the key, with
    no status event.  In general the key is claimed exactly when a listener
    is returned. *)
Theorem failed_inbound_build_leaves_key_free node listenerOpts pluginParams
    instance listenerMap push :
  let key := listenerKey (bind listenerOpts) (port listenerOpts) in
  plugin.ServiceInstance_ pluginParams = Some instance →
  listenerMap !! key = None →
  (assembleInboundListener node listenerOpts pluginParams instance = None
   ∨ ∃ msg, assembleInboundListener node listenerOpts pluginParams instance
            = Some (Err msg)) →
  buildSidecarInboundListenerForPortOrUDS node listenerOpts pluginParams
    listenerMap push = Some (None, listenerMap, push)
  ∧ (∀ listenerOpts2 pluginParams2 instance2 l2,
       bind listenerOpts2 = bind listenerOpts →
       port listenerOpts2 = port listenerOpts →
       plugin.ServiceInstance_ pluginParams2 = Some instance2 →
       assembleInboundListener node listenerOpts2 pluginParams2 instance2
       = Some (Ok l2) →
       buildSidecarInboundListenerForPortOrUDS node listenerOpts2
         pluginParams2 listenerMap push
       = Some (Some l2,
               <[ key := {| ile_bind := bind listenerOpts2;
                            instanceHostname :=
                              Hostname (si_Service instance2) |} ]>
                 listenerMap,
               push))
  ∧ (∀ pluginParams' ol m' push',
       buildSidecarInboundListenerForPortOrUDS node listenerOpts
         pluginParams' listenerMap push = Some (ol, m', push') →
       (is_Some (m' !! key) ↔ is_Some ol)).
Proof.
  intros key Hinst Hfree Hfail. split; [|split].
  - unfold buildSidecarInboundListenerForPortOrUDS.
    rewrite Hinst. simpl. fold key. rewrite Hfree.
    destruct Hfail as [->|[msg ->]]; done.
  - intros lo2 pp2 instance2 l2 Hbind Hport Hinst2 Hok.
    unfold buildSidecarInboundListenerForPortOrUDS.
    rewrite Hinst2. simpl. rewrite Hbind, Hport. fold key.
    rewrite Hfree, Hok. by rewrite <- Hbind.
  - intros pp' ol m' push' H.
    apply inbound_cases in H
      as [(-> & -> & _)|(l & inst & -> & _ & _ & _ & _ & ->)].
    + rewrite Hfree. split; by intros [? ?].
    + fold key. rewrite lookup_insert_eq. split; by eauto.
Qed.

Lemma inboundAppend_distinct node st listenerOpts pluginParams st' :
  hooksKeepAddress →
  validPort (port listenerOpts) = true →
  inboundAppend node st listenerOpts pluginParams = Some st' →
  (distinctAddresses (in_listeners st)
   ∧ ∀ l, l ∈ in_listeners st →
          is_Some (in_listenerMap st !! keyOfAddress (l_Address l))) →
  distinctAddresses (in_listeners st')
  ∧ ∀ l, l ∈ in_listeners st' →
         is_Some (in_listenerMap st' !! keyOfAddress (l_Address l)).
Proof.
  intros Hkeep Hport. unfold inboundAppend. intros H [Hnodup Hkeys].
  apply bind_Some in H as ([[ol m'] push'] & Hstep & [= <-]). simpl.
  apply inbound_cases in Hstep
    as [(-> & -> & _)|(l & inst & -> & Hfree & _ & _ & Hok & ->)]; [done|].
  apply (assembleInboundListener_address _ _ _ _ _ Hkeep) in Hok.
  rewrite (uint32_validPort _ Hport) in Hok.
  assert (Hkl : keyOfAddress (l_Address l)
                = listenerKey (bind listenerOpts) (port listenerOpts))
    by by rewrite Hok.
  split.
  - unfold distinctAddresses. rewrite fmap_app. apply NoDup_app.
    split; [done|]. split; [|apply NoDup_singleton].
    intros a (l0 & -> & Hl0)%list_elem_of_fmap Ha.
    apply list_elem_of_singleton in Ha.
    apply Hkeys in Hl0 as [old Hold]. rewrite Ha, Hkl in Hold. congruence.
  - intros l0 [Hl0| ->%list_elem_of_singleton]%elem_of_app.
    + destruct (Hkeys l0 Hl0) as [old Hold].
      destruct (decide (listenerKey (bind listenerOpts) (port listenerOpts)
                        = keyOfAddress (l_Address l0))) as [<-|Hne].
      * rewrite lookup_insert_eq. by eexists.
      * rewrite lookup_insert_ne by done. by eexists.
    + rewrite Hkl, lookup_insert_eq. by eexists.
Qed.

Lemma portsInRange_cases node :
  portsInRange node = true →
  (∀ si, si ∈ ServiceInstances node → validPort (ep_Port (Endpoint si)) = true)
  ∧ (∀ il, il ∈ Ingress (proxy_SidecarScope node) →
           validPort (np_Number (ingress_Port il)) = true)
  ∧ (∀ egressListener,
       egressListener ∈ EgressListeners (proxy_SidecarScope node) →
       (∀ p, IstioListener egressListener ≫= egress_Port = Some p →
             validPort (np_Number p) = true)
       ∧ ∀ s p, s ∈ Services egressListener → p ∈ Ports s →
                validPort (port_Port p) = true).
Proof.
  unfold portsInRange. rewrite !andb_true_iff, !forallb_forall.
  intros [[Hsi Hil] Heg]. split; [|split].
  - intros si Hin. by apply Hsi, list_elem_of_In.
  - intros il Hin. by apply Hil, list_elem_of_In.
  - intros eg Hin%list_elem_of_In. specialize (Heg eg Hin).
    apply andb_true_iff in Heg as [Hp Hs]. split.
    + intros p Hport. by rewrite Hport in Hp.
    + intros s p Hs'%list_elem_of_In Hp'%list_elem_of_In.
      rewrite forallb_forall in Hs. specialize (Hs s Hs').
      rewrite forallb_forall in Hs. by apply Hs.
Qed.

Lemma buildSidecarInboundListeners_distinct e node push ls push' :
  hooksKeepAddress →
  portsInRange node = true →
  buildSidecarInboundListeners e node push = Some (ls, push') →
  distinctAddresses ls.
Proof.
  intros Hkeep (Hsi & Hil & _)%portsInRange_cases.
  unfold buildSidecarInboundListeners.
  set (P := λ st : inboundState,
         distinctAddresses (in_listeners st)
         ∧ ∀ l, l ∈ in_listeners st →
                is_Some (in_listenerMap st !! keyOfAddress (l_Address l))).
  assert (HP0 : P {| in_listeners := []; in_listenerMap := ∅; in_push := push |}).
  { split; [apply NoDup_nil_2|]. by intros l ?%elem_of_nil. }
  destruct (negb _).
  - case_bool_decide as Hmode; [intros [= <- _]; apply NoDup_nil_2|].
    intros H. apply bind_Some in H as (st & Hloop & [= <- _]).
    eapply (forEach_invariant P); [|exact HP0|exact Hloop].
    intros s si s' Hin Hs Hstep. unfold inboundFromInstance in Hstep.
    eapply inboundAppend_distinct; [done| |exact Hstep|done].
    by apply Hsi.
  - intros H. apply bind_Some in H as (st & Hloop & [= <- _]).
    eapply (forEach_invariant P); [|exact HP0|exact Hloop].
    intros s il s' Hin Hs Hstep. unfold inboundFromIngress in Hstep.
    destruct (findServiceInstanceForIngressListener _ _ _);
      [|by simplify_eq].
    eapply inboundAppend_distinct; [done| |exact Hstep|done].
    by apply Hil.
Qed.

(** ** The outbound registry *)

Lemma keyOfAddress_BuildAddress b p :
  keyOfAddress (BuildAddress b p) = listenerKey b p.
Proof. done. Qed.

Lemma registryKeyed_insert m k e :
  registryKeyed m →
  keyOfAddress (l_Address (listener e)) = k →
  registryKeyed (<[ k := e ]> m).
Proof.
  intros Hm He k' e'. destruct (decide (k = k')) as [<-|Hne].
  - rewrite lookup_insert_eq. by intros [= <-].
  - rewrite lookup_insert_ne by done. apply Hm.
Qed.

Lemma registryKeyed_lockAll m : registryKeyed m → registryKeyed (lockAll m).
Proof.
  intros Hm k e. rewrite lockAll_lookup.
  intros (e0 & He0 & ->)%fmap_Some. by apply Hm in He0.
Qed.

(** The merge changes the chains of the listener of the entry and the
    services of the entry, nothing else. *)
Lemma mergeListener_address pluginParams key cur l push :
  l_Address (listener (mergeListener pluginParams key cur l push).1)
  = l_Address (listener cur).
Proof.
  unfold mergeListener.
  set (existing := l_FilterChains (listener cur)).
  assert (Hfold : ∀ incoming acc entry p,
            listener entry = listener cur →
            listener (foldl (mergeFilterChain pluginParams key existing)
                            (acc, entry, p) incoming).1.2
            = listener cur).
  { induction incoming as [|c rest IH]; intros acc entry p Hentry; [done|].
    cbn [foldl]. unfold mergeFilterChain at 2.
    destruct (conflictFound c existing); [by apply IH|].
    apply IH. by destruct (plugin.Service_ pluginParams). }
  specialize (Hfold (l_FilterChains l) existing cur push eq_refl).
  destruct (foldl _ _ _) as [[chains entry] push0]. simpl in *.
  by rewrite Hfold.
Qed.

Lemma registerOutboundListener_keyed r pluginParams actualWildcard m' push' :
  hooksKeepAddress →
  registryKeyed (oo_listenerMap r) →
  oo_currentListenerEntry r = oo_listenerMap r !! oo_listenerMapKey r →
  oo_listenerMapKey r
  = listenerKey (bind (oo_listenerOpts r)) (uint32 (port (oo_listenerOpts r))) →
  registerOutboundListener r pluginParams actualWildcard = Some (m', push') →
  registryKeyed m'.
Proof.
  intros Hkeep Hm Hcur Hkey. unfold registerOutboundListener.
  destruct (buildOutboundListener r pluginParams actualWildcard)
    as [[l lo]|msg|] eqn:Hbuild; [|by intros [= <- _]|done].
  apply (buildOutboundListener_address _ _ _ _ _ Hkeep) in Hbuild.
  destruct (oo_currentListenerEntry r) as [cur|] eqn:Hc.
  - pose proof (mergeListener_address pluginParams (oo_listenerMapKey r) cur l
                  (oo_push r)) as Hmerge.
    destruct (mergeListener _ _ _ _ _) as [entry push0]. intros [= <- _].
    apply registryKeyed_insert; [done|]. simpl in Hmerge.
    rewrite Hmerge. by apply Hm.
  - intros H. apply bind_Some in H as (service & _ & [= <- _]).
    apply registryKeyed_insert; [done|]. simpl.
    by rewrite Hbuild, keyOfAddress_BuildAddress.
Qed.

Lemma outboundUnit_keyed listenerOpts pluginParams listenerMap push
    virtualServices actualWildcard m' push' :
  hooksKeepAddress →
  validPort (port listenerOpts) = true →
  port listenerOpts = port_Port (plugin.Port_ pluginParams) →
  registryKeyed listenerMap →
  buildSidecarOutboundListenerForPortOrUDS listenerOpts pluginParams
    listenerMap push virtualServices actualWildcard = Some (m', push') →
  registryKeyed m'.
Proof.
  intros Hkeep Hvalid Hport Hm.
  unfold buildSidecarOutboundListenerForPortOrUDS.
  destruct (plugin.ListenerProtocol_ pluginParams); [by intros [= <- _]| |].
  - intros H. apply bind_Some in H as (r & Hr & H).
    destruct (outboundTCP_cases _ _ _ _ _ _ _ Hr) as (Hmap & Hcur & _).
    destruct (outboundTCP_opts _ _ _ _ _ _ _ Hr) as [Hkey Hp].
    destruct (negb (ret r)); [injection H as <- _; by rewrite Hmap|].
    eapply registerOutboundListener_keyed; [done| | | |exact H].
    + by rewrite Hmap.
    + by rewrite Hmap.
    + by rewrite Hkey, Hp, (uint32_validPort _ Hvalid), Hport.
  - pose proof (outboundHTTP_cases listenerOpts pluginParams listenerMap push
                  actualWildcard) as Hcases.
    pose proof (outboundHTTP_current listenerOpts pluginParams listenerMap
                  push actualWildcard) as Hcur.
    pose proof (outboundHTTP_opts listenerOpts pluginParams listenerMap push
                  actualWildcard) as [Hkey Hp].
    cbv zeta in Hcases, Hcur.
    set (r := buildSidecarOutboundHTTPListenerOptsForPortOrUDS _ _ _ _ _) in *.
    destruct (listenerMap !! oo_listenerMapKey r) as [cur|] eqn:Hlook.
    + destruct Hcases as [-> Hcases]. simpl. intros [= <- _].
      destruct (locked cur); [by destruct Hcases as [-> _]|].
      destruct (plugin.Service_ pluginParams);
        [|by destruct Hcases as [-> _]].
      destruct Hcases as [-> _].
      apply registryKeyed_insert; [done|]. simpl. by apply Hm.
    + destruct Hcases as (-> & Hmap & _). simpl. intros H.
      eapply registerOutboundListener_keyed; [done| | | |exact H].
      * by rewrite Hmap.
      * by rewrite Hmap, Hcur.
      * by rewrite Hkey, Hp, (uint32_validPort _ Hvalid), Hport.
Qed.

Lemma outboundListenerMap_keyed e node push m push' :
  hooksKeepAddress →
  portsInRange node = true →
  outboundListenerMap e node push = Some (m, push') →
  registryKeyed m.
Proof.
  intros Hkeep (_ & _ & Heg)%portsInRange_cases.
  unfold outboundListenerMap.
  destruct (getActualWildcardAndLocalHost node) as [wildcard localhost].
  set (P := λ st : outboundState, registryKeyed st.1).
  intros H. change (P (m, push')).
  eapply (forEach_invariant P); [| |exact H]; [|by intros k e0 ?].
  clear H. intros st egressListener st' Hin Hst Hstep.
  destruct (Heg _ Hin) as [Hexplicit Hservices].
  unfold outboundFromEgress in Hstep.
  destruct (IstioListener egressListener ≫= egress_Port) as [ilPort|].
  - revert Hstep. apply (forEach_invariant P); [|done].
    intros s service s' _ Hs Hunit. destruct s' as [m1 p1].
    eapply outboundUnit_keyed; [done| | |exact Hs|exact Hunit]; simpl.
    + by apply Hexplicit.
    + done.
  - revert Hstep. apply (forEach_invariant P);
      [|by apply registryKeyed_lockAll].
    intros s service s' Hsvc Hs. apply (forEach_invariant P); [|done].
    intros s1 servicePort s2 Hp Hs1 Hunit.
    destruct (negb (validatePort _ _ _)); [by simplify_eq|].
    destruct s2 as [m2 p2].
    eapply outboundUnit_keyed; [done| | |exact Hs1|exact Hunit]; simpl.
    + by eapply Hservices.
    + done.
Qed.

Lemma collate_submseteq entries :
  ∀ tcp0 http0 seen,
    l_Address <$> (tcp0 ++ http0) ⊆+ entryAddress <$> seen →
    let '(tcp, http) :=
      foldl (λ '(tcpListeners, httpListeners) '(name, l),
               match Listener_Validate D (listener l) with
               | Some err => (tcpListeners, httpListeners)
               | None =>
                 if protocol.IsTCP (port_Protocol (servicePort l))
                 then (tcpListeners ++ [listener l], httpListeners)
                 else (tcpListeners, httpListeners ++ [listener l])
               end)
            (tcp0, http0) entries in
    l_Address <$> (tcp ++ http) ⊆+ entryAddress <$> (seen ++ entries).
Proof.
  induction entries as [|[name l] rest IH]; intros tcp0 http0 seen Hsub.
  - simpl. by rewrite app_nil_r.
  - cbn [foldl].
    replace (seen ++ (name, l) :: rest) with ((seen ++ [(name, l)]) ++ rest)
      by by rewrite <- app_assoc.
    destruct (Listener_Validate D (listener l)).
    + apply IH. rewrite (fmap_app _ seen). by apply submseteq_inserts_r.
    + destruct (protocol.IsTCP _); apply IH.
      * rewrite (fmap_app _ seen). simpl.
        assert (Hperm : (tcp0 ++ [listener l]) ++ http0
                        ≡ₚ (tcp0 ++ http0) ++ [listener l]).
        { rewrite <- !app_assoc. apply Permutation_app_head.
          apply Permutation_app_comm. }
        rewrite Hperm, fmap_app. by apply submseteq_app.
      * rewrite (fmap_app _ seen), app_assoc, fmap_app.
        by apply submseteq_app.
Qed.

Lemma collate_distinct m entries :
  registryKeyed m →
  entries ≡ₚ map_to_list m →
  distinctAddresses ((collate entries).1 ++ (collate entries).2).
Proof.
  intros Hm Hperm.
  assert (Hnodup : NoDup (entryAddress <$> entries)).
  { apply (NoDup_fmap_1 keyOfAddress). rewrite <- list_fmap_compose.
    replace (keyOfAddress ∘ entryAddress <$> entries) with (entries.*1).
    - rewrite Hperm. apply NoDup_fst_map_to_list.
    - apply list_fmap_ext. intros i [k e0] Hi. simpl.
      symmetry. apply Hm. apply elem_of_map_to_list. rewrite <- Hperm.
      by eapply list_elem_of_lookup_2. }
  pose proof (collate_submseteq entries [] [] [] (submseteq_nil_l _)) as Hsub.
  unfold collate. destruct (foldl _ _ _) as [tcp http]. simpl in *.
  apply submseteq_Permutation in Hsub as [k Hk].
  unfold distinctAddresses. rewrite Hk in Hnodup.
  by apply NoDup_app in Hnodup as [? _].
Qed.

(** ** Management listeners *)

Lemma GetByAddress_None listeners a :
  GetByAddress listeners a = None → a ∉ l_Address <$> listeners.
Proof.
  unfold GetByAddress. intros Hfind (l & -> & Hl)%list_elem_of_fmap.
  apply list_elem_of_In in Hl.
  pose proof (find_none _ _ Hfind l Hl) as Hf. simpl in Hf.
  by apply bool_decide_eq_false in Hf.
Qed.

Lemma generateManagementListeners_distinct node noneMode e listeners ls :
  distinctAddresses listeners →
  generateManagementListeners node noneMode e listeners = Some ls →
  distinctAddresses ls.
Proof.
  unfold generateManagementListeners. intros Hnodup.
  destruct (negb _); [|by intros [= <-]].
  intros H. apply bind_Some in H as (mgmt & _ & [= <-]).
  revert listeners Hnodup.
  induction mgmt as [|m rest IH]; intros listeners Hnodup; [done|].
  cbn [foldl]. apply IH.
  destruct (GetByAddress listeners (l_Address m)) eqn:Hget; [done|].
  apply GetByAddress_None in Hget.
  unfold distinctAddresses. rewrite fmap_app. apply NoDup_app.
  split; [done|]. split; [|apply NoDup_singleton].
  intros a Ha ->%list_elem_of_singleton. done.
Qed.

(** ** Distinct addresses, stage by stage *)

(** C1 (as amended).  With ports that fit 32 bits and hooks that leave the
    address of a listener alone: no two listeners of the inbound stage share
    a (bind address, port) pair; the outbound stage returns the listeners
    collated from its registry, no two of which share one, followed by the
    HTTP-proxy listener when there is one, which is appended without a
    check; and the management stage keeps a set without duplicates without
    duplicates. *)
Theorem stage_listeners_distinct e node push noneMode :
  hooksKeepAddress →
  portsInRange node = true →
  (∀ m, rangeOrder m ≡ₚ map_to_list m) →
  (∀ ls push',
     buildSidecarInboundListeners e node push = Some (ls, push') →
     distinctAddresses ls)
  ∧ (∀ ls push',
       buildSidecarOutboundListeners e node push = Some (ls, push') →
       ∃ registered,
         distinctAddresses registered
         ∧ (ls = registered
            ∨ ∃ httpProxy,
                buildHTTPProxy e node = Some (Some httpProxy)
                ∧ ls = registered ++ [set_TrafficDirection httpProxy OUTBOUND]))
  ∧ (∀ listeners ls,
       distinctAddresses listeners →
       generateManagementListeners node noneMode e listeners = Some ls →
       distinctAddresses ls).
Proof.
  intros Hkeep Hports Hrange. split; [|split].
  - intros ls push'. by apply buildSidecarInboundListeners_distinct.
  - intros ls push'. unfold buildSidecarOutboundListeners. intros H.
    apply bind_Some in H as ([m push1] & Hm & H).
    apply (outboundListenerMap_keyed _ _ _ _ _ Hkeep Hports) in Hm.
    pose proof (collate_distinct m (rangeOrder m) Hm (Hrange m)) as Hd.
    destruct (collate (rangeOrder m)) as [tcp http]. simpl in Hd.
    apply bind_Some in H as (httpProxy & Hproxy & H).
    exists (tcp ++ http). split; [done|].
    destruct httpProxy as [httpProxy|]; injection H as <- _.
    + right. by exists httpProxy.
    + by left.
  - intros listeners ls. apply generateManagementListeners_distinct.
Qed.

(** ** Assembly errors *)

Lemma outboundUnit_unfold listenerOpts pluginParams listenerMap push
    virtualServices actualWildcard r :
  outboundUnitOpts listenerOpts pluginParams listenerMap push virtualServices
    actualWildcard = Some r →
  buildSidecarOutboundListenerForPortOrUDS listenerOpts pluginParams
    listenerMap push virtualServices actualWildcard
  = if negb (ret r) then Some (oo_listenerMap r, oo_push r)
    else registerOutboundListener r pluginParams actualWildcard.
Proof.
  unfold outboundUnitOpts, buildSidecarOutboundListenerForPortOrUDS.
  destruct (plugin.ListenerProtocol_ pluginParams); [done| |].
  - by intros ->.
  - by intros [= <-].
Qed.

(** A unit whose chain options are built has left the registry and the
    status events as they were. *)
Lemma outboundUnit_ret listenerOpts pluginParams listenerMap push
    virtualServices actualWildcard r :
  outboundUnitOpts listenerOpts pluginParams listenerMap push virtualServices
    actualWildcard = Some r →
  ret r = true →
  oo_listenerMap r = listenerMap ∧ oo_push r = push.
Proof.
  unfold outboundUnitOpts.
  destruct (plugin.ListenerProtocol_ pluginParams); [done| |].
  - intros Hr Hret.
    destruct (outboundTCP_cases _ _ _ _ _ _ _ Hr) as (Hm & _ & Hcases).
    split; [done|]. repeat case_match; destruct Hcases; congruence.
  - intros [= <-] Hret.
    pose proof (outboundHTTP_cases listenerOpts pluginParams listenerMap push
                  actualWildcard) as Hcases.
    cbv zeta in Hcases. destruct (listenerMap !! _).
    + destruct Hcases. congruence.
    + by destruct Hcases as (_ & ? & ?).
Qed.

(** C8 (as amended).  The assembly of the filter chains returns its own
    error exactly when the listener has no chain options at all, and
    otherwise only passes on the error of the insertion of user filters; a
    chain that ends up without filters is no error.  When the assembly
    returns an error, the outbound unit leaves the registry and the status
    events as they were, and the inbound function returns no listener and
    leaves its listener map as it was: the listeners built before are still
    there and the ones built after are built as if the unit had not been. *)
Theorem assembly_error_drops_one_listener pluginParams mutable opts :
  (filterChainOpts_ opts = [] →
   buildCompleteFilterChain pluginParams mutable opts
   = Err "must have more than 0 chains in listener")
  ∧ (∀ msg,
       buildCompleteFilterChain pluginParams mutable opts = Err msg →
       filterChainOpts_ opts = []
       ∨ (skipUserFilters opts = false
          ∧ ∃ l hcms l',
              DeprecatedInsertUserFilters D pluginParams l hcms
              = (l', Some msg)))
  ∧ (∀ listenerOpts listenerMap push virtualServices actualWildcard r msg,
       outboundUnitOpts listenerOpts pluginParams listenerMap push
         virtualServices actualWildcard = Some r →
       ret r = true →
       buildOutboundListener r pluginParams actualWildcard = Err msg →
       buildSidecarOutboundListenerForPortOrUDS listenerOpts pluginParams
         listenerMap push virtualServices actualWildcard
       = Some (listenerMap, push))
  ∧ (∀ node listenerOpts instance listenerMap push msg,
       plugin.ServiceInstance_ pluginParams = Some instance →
       listenerMap !! listenerKey (bind listenerOpts) (port listenerOpts)
       = None →
       assembleInboundListener node listenerOpts pluginParams instance
       = Some (Err msg) →
       buildSidecarInboundListenerForPortOrUDS node listenerOpts
         pluginParams listenerMap push
       = Some (None, listenerMap, push)).
Proof.
  split; [|split; [|split]].
  - intros Hempty. unfold buildCompleteFilterChain. by rewrite Hempty.
  - intros msg. unfold buildCompleteFilterChain.
    case_bool_decide as Hlen.
    { intros _. left. by apply nil_length_inv. }
    destruct (completeChains _ _ _ _ _ _ _ _) as [[fcs hcms]|]; [|done].
    destruct (skipUserFilters opts); [done|]. simpl.
    destruct (DeprecatedInsertUserFilters _ _ _ _) as [l' [err|]] eqn:Hu;
      [|done].
    intros [= <-]. right. split; [done|]. by eexists _, _, _.
  - intros lo m push vs aw r msg Hr Hret Hbuild.
    rewrite (outboundUnit_unfold _ _ _ _ _ _ _ Hr), Hret. simpl.
    unfold registerOutboundListener. rewrite Hbuild.
    by destruct (outboundUnit_ret _ _ _ _ _ _ _ Hr Hret) as [-> ->].
  - intros node lo instance m push msg Hinst Hfree Herr.
    unfold buildSidecarInboundListenerForPortOrUDS.
    rewrite Hinst. simpl. by rewrite Hfree, Herr.
Qed.

(** ** The fallthrough chain *)

Lemma filter_none {A} (P : A → Prop) `{∀ x, Decision (P x)} (l : list A) :
  Forall (λ x, ¬ P x) l → filter P l = [].
Proof.
  induction 1 as [|x l Hx _ IH]; [done|]. by rewrite filter_cons_False.
Qed.

(** The pass-through chain is appended exactly when the fallthrough route is
    enabled, the proxy is allowed any outbound traffic, and neither the new
    listener nor the listener of the current entry has a chain with an
    absent or empty match; it is then the last chain, and the only one of
    the new listener with such a match. *)
Lemma appendListenerFallthroughRoute_guard l opts node cur :
  let l' := (appendListenerFallthroughRoute l opts node cur).1 in
  let wanted :=
    features_EnableFallthroughRoute D && isAllowAnyOutbound D node
    && negb (existsb isWildcardChain (l_FilterChains l))
    && negb (match cur with
             | Some e => existsb isWildcardChain (l_FilterChains (listener e))
             | None => false
             end) in
  if wanted then
    ∃ fc, l_FilterChains l' = l_FilterChains l ++ [fc]
          ∧ fc_FilterChainMatch fc = Some emptyMatch
          ∧ filter (λ c, isWildcardChain c = true) (l_FilterChains l') = [fc]
  else l_FilterChains l' = l_FilterChains l.
Proof.
  cbv zeta. unfold appendListenerFallthroughRoute.
  destruct (features_EnableFallthroughRoute D && isAllowAnyOutbound D node);
    [|done]. simpl.
  destruct (existsb isWildcardChain (l_FilterChains l)) eqn:Hl; [done|]. simpl.
  destruct (match cur with Some _ => _ | None => _ end); [done|]. simpl.
  eexists. split; [done|]. split; [done|].
  rewrite filter_app, filter_none; [done|].
  apply Forall_forall. intros c Hc Hw.
  assert (existsb isWildcardChain (l_FilterChains l) = true); [|congruence].
  apply existsb_exists. exists c. by rewrite <- list_elem_of_In.
Qed.

(** * Further properties of the listener code *)

(** ** The listener that [buildListener] initialises *)

Lemma buildListener_fold chains :
  ∀ st fcs,
    foldl (λ '(st, fcs) chain,
             (foldl addListenerFilter st (listenerFilters chain),
              fcs ++ [ {| fc_FilterChainMatch := chainMatch chain;
                          fc_TlsContext := tlsContext chain;
                          fc_Filters := []; fc_Metadata := None |} ]))
          (st, fcs) chains
    = (foldl addListenerFilter st (chains ≫= listenerFilters),
       fcs ++ (chainOf <$> chains)).
Proof.
  induction chains as [|chain chains IH]; intros st fcs; simpl.
  - by rewrite app_nil_r.
  - rewrite IH. rewrite foldl_app. by rewrite <- app_assoc.
Qed.

Lemma buildListener_chains opts :
  l_FilterChains (buildListener opts) = chainOf <$> filterChainOpts_ opts.
Proof. unfold buildListener. rewrite buildListener_fold. reflexivity. Qed.

Lemma buildListener_listenerFilters opts :
  l_ListenerFilters (buildListener opts)
  = (foldl addListenerFilter
       (if existsb needsInspector (filterChainOpts_ opts)
        then ({[ xdsutil_TlsInspector ]}, [tlsInspector]) else (∅, []))
       (filterChainOpts_ opts ≫= listenerFilters)).2.
Proof. unfold buildListener. rewrite buildListener_fold. reflexivity. Qed.

(** The loop that adds the listener filters of the chains keeps the list
    free of duplicate names, keeps what it holds in front, and adds the
    names it meets. *)
Lemma addListenerFilter_fold fs :
  ∀ st : gset string * list ListenerFilter,
    NoDup (lf_Name <$> st.2) →
    (∀ n, n ∈ st.1 ↔ n ∈ lf_Name <$> st.2) →
    let st' := foldl addListenerFilter st fs in
    NoDup (lf_Name <$> st'.2)
    ∧ (∀ n, n ∈ st'.1 ↔ n ∈ lf_Name <$> st'.2)
    ∧ st.2 `prefix_of` st'.2
    ∧ (∀ n, n ∈ lf_Name <$> st'.2
            ↔ n ∈ lf_Name <$> st.2 ∨ n ∈ lf_Name <$> fs).
Proof.
  induction fs as [|f fs IH]; intros st Hnd Hset; simpl.
  - repeat split; try done.
    + apply Hset.
    + apply Hset.
    + by left.
    + intros [?|Hn]; [done|]. by apply elem_of_nil in Hn.
  - assert (NoDup (lf_Name <$> (addListenerFilter st f).2)
            ∧ (∀ n, n ∈ (addListenerFilter st f).1
                    ↔ n ∈ lf_Name <$> (addListenerFilter st f).2)
            ∧ st.2 `prefix_of` (addListenerFilter st f).2
            ∧ (∀ n, n ∈ lf_Name <$> (addListenerFilter st f).2
                    ↔ n ∈ lf_Name <$> st.2 ∨ n = lf_Name f))
      as (Hnd1 & Hset1 & Hpre1 & Hin1).
    { unfold addListenerFilter. case_bool_decide as Hf; simpl.
      - repeat split; try done.
        + apply Hset.
        + apply Hset.
        + by left.
        + intros [?| ->]; [done|]. by apply Hset.
      - rewrite fmap_app. simpl. repeat split.
        + apply NoDup_app. split; [done|]. split.
          * intros n Hn Hn'. apply list_elem_of_singleton in Hn'. subst n.
            apply Hf. by apply Hset.
          * apply NoDup_singleton.
        + intros Hn. apply elem_of_app.
          apply elem_of_union in Hn as [Hn|Hn].
          * apply elem_of_singleton in Hn. right. subst n.
            apply list_elem_of_singleton. done.
          * left. by apply Hset.
        + intros Hn. apply elem_of_app in Hn as [Hn|Hn].
          * apply elem_of_union. right. by apply Hset.
          * apply list_elem_of_singleton in Hn. subst n.
            apply elem_of_union. left. by apply elem_of_singleton.
        + by apply prefix_app_r.
        + intros Hn. apply elem_of_app in Hn as [Hn|Hn]; [by left|].
          right. by apply list_elem_of_singleton in Hn.
        + intros [Hn| ->]; apply elem_of_app; [by left|].
          right. by apply list_elem_of_singleton. }
    destruct (IH (addListenerFilter st f) Hnd1 Hset1) as (Hnd2 & Hset2 & Hpre2 & Hin2).
    repeat split; try done.
    + apply Hset2.
    + apply Hset2.
    + by etrans.
    + intros Hn. apply Hin2 in Hn as [Hn|Hn].
      * apply Hin1 in Hn as [Hn| ->]; [by left|]. right. left.
      * right. by right.
    + intros [Hn|Hn]; apply Hin2.
      * left. apply Hin1. by left.
      * apply elem_of_cons in Hn as [->|Hn]; [|by right].
        left. apply Hin1. by right.
Qed.

(** X1.  The listener filters of the listener that [buildListener]
    initialises carry pairwise different names: a filter is added only when
    no filter of its name is there.  The names are those of the listener
    filters of the chain options, and the TLS inspector when some chain
    needs it (SNI hosts or ALPN protocols); the TLS inspector then comes
    first. *)
Theorem buildListener_listener_filters_unique opts :
  let chains := filterChainOpts_ opts in
  let lfs := l_ListenerFilters (buildListener opts) in
  NoDup (lf_Name <$> lfs)
  ∧ (∀ n, n ∈ lf_Name <$> lfs
          ↔ (existsb needsInspector chains = true ∧ n = xdsutil_TlsInspector)
            ∨ ∃ chain f, chain ∈ chains ∧ f ∈ listenerFilters chain
                         ∧ lf_Name f = n)
  ∧ (existsb needsInspector chains = true → head lfs = Some tlsInspector).
Proof.
  intros chains lfs. subst lfs. rewrite buildListener_listenerFilters.
  fold chains.
  set (st0 := if existsb needsInspector chains
              then ({[ xdsutil_TlsInspector ]}, [tlsInspector]) else (∅, [])).
  assert (NoDup (lf_Name <$> st0.2)
          ∧ ∀ n, n ∈ st0.1 ↔ n ∈ lf_Name <$> st0.2) as [Hnd Hset].
  { subst st0. destruct (existsb needsInspector chains); simpl.
    - split; [apply NoDup_singleton|]. intros n.
      rewrite elem_of_singleton, list_elem_of_singleton. done.
    - split; [apply NoDup_nil_2|]. intros n. split; intros Hn.
      + by apply elem_of_empty in Hn.
      + by apply elem_of_nil in Hn. }
  destruct (addListenerFilter_fold (chains ≫= listenerFilters) st0 Hnd Hset)
    as (Hnd' & _ & Hpre & Hin).
  split; [done|]. split.
  - intros n. rewrite Hin. split.
    + intros [Hn|Hn].
      * left. subst st0. destruct (existsb needsInspector chains); simpl in Hn.
        -- split; [done|]. by apply list_elem_of_singleton in Hn.
        -- by apply elem_of_nil in Hn.
      * right. apply list_elem_of_fmap in Hn as (f & -> & Hf).
        apply list_elem_of_bind in Hf as (chain & Hf & Hchain). eauto.
    + intros [[Hneed ->]|(chain & f & Hchain & Hf & <-)].
      * left. subst st0. rewrite Hneed. simpl. by apply list_elem_of_singleton.
      * right. apply list_elem_of_fmap. exists f. split; [done|].
        apply list_elem_of_bind. eauto.
  - intros Hneed. subst st0. rewrite Hneed in *. simpl in Hpre.
    destruct Hpre as [k ->]. reflexivity.
Qed.

(** ** The match of a chain *)

Lemma String_compare_le_trans (a b c : string) :
  String.compare a b ≠ Gt → String.compare b c ≠ Gt → String.compare a c ≠ Gt.
Proof.
  revert b c. induction a as [|x a IH]; intros [|y b] [|z c]; simpl; try done.
  unfold Ascii.compare.
  destruct (N.compare_spec (N_of_ascii x) (N_of_ascii y)) as [Hxy|Hxy|Hxy];
    destruct (N.compare_spec (N_of_ascii y) (N_of_ascii z)) as [Hyz|Hyz|Hyz];
    destruct (N.compare_spec (N_of_ascii x) (N_of_ascii z)) as [Hxz|Hxz|Hxz];
    try done; try lia.
  apply IH.
Qed.

#[local] Instance String_leb_trans :
  Transitive (λ a b : string, Is_true (String.leb a b)).
Proof.
  intros a b c. unfold String.leb.
  pose proof (String_compare_le_trans a b c) as H.
  destruct (String.compare a b), (String.compare b c), (String.compare a c);
    simpl; try done; intros _ _; exfalso; by apply H.
Qed.

#[local] Instance String_leb_total :
  Total (λ a b : string, Is_true (String.leb a b)).
Proof.
  intros a b. destruct (String.leb_total a b) as [H|H]; rewrite H; simpl; auto.
Qed.

#[local] Instance String_leb_antisym :
  AntiSymm eq (λ a b : string, Is_true (String.leb a b)).
Proof.
  intros a b Hab Hba. apply String.leb_antisym; by apply Is_true_eq_true.
Qed.

(** [sort.Strings] gives the same list for every order of the same strings. *)
Lemma sort_Strings_Permutation (l1 l2 : list string) :
  l1 ≡ₚ l2 → sort_Strings l1 = sort_Strings l2.
Proof.
  intros Hp. unfold sort_Strings.
  apply (Sorted_unique (λ a b : string, Is_true (String.leb a b))).
  - apply Sorted_merge_sort; apply _.
  - apply Sorted_merge_sort; apply _.
  - by rewrite !merge_sort_Permutation.
Qed.

Lemma addPrefixRange_cidrOf m d :
  addPrefixRange m d
  = set_PrefixRanges m (PrefixRanges m ++ option_list (cidrOf d)).
Proof.
  unfold addPrefixRange, cidrOf.
  assert (set_PrefixRanges m (PrefixRanges m ++ []) = m) as Hid.
  { rewrite app_nil_r. by destruct m. }
  case_bool_decide; simpl; [done|].
  destruct (ConvertAddressToCidr D d) as [cidr|]; simpl; [|done].
  by destruct (negb _); simpl.
Qed.

Lemma addPrefixRange_fold ds :
  ∀ m, foldl addPrefixRange m ds
       = set_PrefixRanges m (PrefixRanges m ++ omap cidrOf ds).
Proof.
  induction ds as [|d ds IH]; intros m; simpl.
  - rewrite app_nil_r. by destruct m.
  - rewrite IH, addPrefixRange_cidrOf. unfold set_PrefixRanges; simpl.
    destruct (cidrOf d); simpl; by rewrite <- app_assoc.
Qed.

(** X2.  The match of a chain does not depend on the order in which the
    chain options list the SNI hosts and the destination CIDRs: both are
    sorted before they go into the match, so two options that differ only in
    these orders get equal matches, and the comparison of matches that the
    merge of listeners relies on sees them as the same. *)
Theorem chainMatch_order_independent (c1 c2 : filterChainOpts) :
  sniHosts c1 ≡ₚ sniHosts c2 →
  destinationCIDRs c1 ≡ₚ destinationCIDRs c2 →
  fco_match c1 = fco_match c2 →
  chainMatch c1 = chainMatch c2.
Proof.
  intros Hs Hd Hm. unfold chainMatch.
  rewrite (sort_Strings_Permutation _ _ Hs), (sort_Strings_Permutation _ _ Hd).
  rewrite (Permutation_length Hs), (Permutation_length Hd), Hm.
  reflexivity.
Qed.

Lemma sort_Strings_elem_of (x : string) (l : list string) :
  x ∈ sort_Strings l ↔ x ∈ l.
Proof. unfold sort_Strings. by rewrite merge_sort_Permutation. Qed.

Lemma sort_Strings_nil (l : list string) : sort_Strings l = [] ↔ l = [].
Proof.
  split; [|by intros ->].
  intros H. apply Permutation_nil_r. rewrite <- H. unfold sort_Strings.
  by rewrite merge_sort_Permutation.
Qed.

Lemma existsb_eqb_elem_of (x : string) (l : list string) :
  existsb (String.eqb x) l = true ↔ x ∈ l.
Proof.
  rewrite existsb_exists. split.
  - intros (y & Hy & Heq). apply String.eqb_eq in Heq. subst y.
    by apply list_elem_of_In.
  - intros Hx. exists x. split; [by apply list_elem_of_In|].
    apply String.eqb_refl.
Qed.

Lemma omap_nil_Forall {A B} (f : A → option B) (l : list A) :
  omap f l = [] ↔ Forall (λ x, f x = None) l.
Proof.
  induction l as [|x l IH]; simpl.
  - split; [constructor|done].
  - destruct (f x) eqn:Hx.
    + split; [done|]. intros H. apply Forall_cons in H as [H _]. congruence.
    + rewrite IH. split.
      * intros H. by constructor.
      * intros H. by apply Forall_cons in H as [_ H].
Qed.

(** The match of a chain with the two loops of [buildListener] written as
    what they add. *)
Lemma chainMatch_closed chain :
  let m0 := default emptyMatch (fco_match chain) in
  let sorted := sort_Strings (sniHosts chain) in
  let m :=
    {| DestinationPort := DestinationPort m0;
       PrefixRanges :=
         PrefixRanges m0
         ++ omap cidrOf (sort_Strings (destinationCIDRs chain));
       ServerNames :=
         if bool_decide (0 < length (sniHosts chain))%nat
            && negb (existsb (String.eqb "*") sorted)
         then sorted else ServerNames m0;
       TransportProtocol := TransportProtocol m0;
       ApplicationProtocols := ApplicationProtocols m0 |} in
  chainMatch chain
  = if negb (bool_decide (is_Some (fco_match chain))) && DeepEqual m emptyMatch
    then None else Some m.
Proof.
  intros m0 sorted m. unfold chainMatch. fold m0. fold sorted.
  set (match1 := if bool_decide (0 < length (sniHosts chain))%nat then _ else _).
  set (match2 := if bool_decide (0 < length (destinationCIDRs chain))%nat
                 then _ else _).
  assert (match2 = m) as ->; [|done].
  assert (match2 = set_PrefixRanges match1
            (PrefixRanges match1
             ++ omap cidrOf (sort_Strings (destinationCIDRs chain)))) as ->.
  { subst match2. case_bool_decide as Hd.
    - apply addPrefixRange_fold.
    - destruct (destinationCIDRs chain); [|simpl in Hd; lia].
      simpl. rewrite app_nil_r. by destruct match1. }
  subst match1 m. case_bool_decide; simpl; [|by destruct m0].
  destruct (existsb _ _); simpl; [by destruct m0|done].
Qed.

(** X3.  A chain gets no match at all, which makes it the catch-all chain of
    its listener, exactly when its options carry no explicit match, name no
    SNI host or name the full wildcard host, and have no destination CIDR
    that adds a prefix range (each one is empty, does not convert, or is the
    unspecified address 0.0.0.0). *)
Theorem chainMatch_catch_all chain :
  chainMatch chain = None
  ↔ fco_match chain = None
    ∧ (sniHosts chain = [] ∨ "*" ∈ sniHosts chain)
    ∧ Forall (λ d, cidrOf d = None) (destinationCIDRs chain).
Proof.
  rewrite chainMatch_closed. cbv zeta.
  destruct (fco_match chain) as [m0|] eqn:Hm.
  { rewrite bool_decide_true by eauto. cbn [negb andb].
    split; [done|]. by intros [? _]. }
  rewrite bool_decide_false by (by intros [? ?]). cbn [negb andb default].
  remember (existsb (String.eqb "*") (sort_Strings (sniHosts chain)))
    as ex eqn:Hex.
  symmetry in Hex.
  unfold DeepEqual. case_bool_decide as Heq.
  - split; [|done]. intros _. split; [done|].
    injection Heq as Hranges Hnames. split.
    + destruct (decide (sniHosts chain = [])) as [|Hs]; [by left|]. right.
      rewrite bool_decide_true in Hnames
        by (destruct (sniHosts chain); [done|cbn [length]; lia]).
      destruct ex; cbn [negb andb] in Hnames.
      * apply existsb_eqb_elem_of in Hex.
        by apply (proj1 (sort_Strings_elem_of _ _)) in Hex.
      * by apply (proj1 (sort_Strings_nil _)) in Hnames.
    + cbn [PrefixRanges emptyMatch app] in Hranges.
      apply omap_nil_Forall in Hranges.
      unfold sort_Strings in Hranges.
      by rewrite merge_sort_Permutation in Hranges.
  - split; [done|]. intros (_ & Hsni & Hd). exfalso. apply Heq.
    unfold emptyMatch. cbn [DestinationPort PrefixRanges ServerNames
      TransportProtocol ApplicationProtocols app]. f_equal.
    + apply omap_nil_Forall. unfold sort_Strings.
      by rewrite merge_sort_Permutation.
    + destruct Hsni as [Hnil|Hstar].
      * rewrite Hnil. rewrite bool_decide_false by (cbn [length]; lia). done.
      * apply (proj2 (sort_Strings_elem_of _ _)) in Hstar.
        apply (proj2 (existsb_eqb_elem_of _ _)) in Hstar.
        rewrite Hstar in Hex. subst ex. cbn [negb]. by rewrite andb_false_r.
Qed.

(** ** The assembly of the filter chains *)

Lemma completeChain_fields node e name chain opt fc :
  let fc' := (completeChain node e name chain opt fc).1 in
  fc_FilterChainMatch fc' = fc_FilterChainMatch fc
  ∧ fc_TlsContext fc' = fc_TlsContext fc
  ∧ fc_Metadata fc' = fco_metadata opt
  ∧ fc_Filters fc' = fc_Filters fc ++ appendedFilters node e name chain opt.
Proof.
  unfold completeChain, appendedFilters.
  destruct (httpOpts opt) as [ho|]; simpl; [done|].
  case_bool_decide as Hn; simpl; [done|].
  destruct (networkFilters opt); [|simpl in Hn; lia].
  simpl. by rewrite app_nil_r.
Qed.

(** The loop over the chains of the plugins runs to its end exactly when
    every index it reaches is one of the chain options and of the chains of
    the listener. *)
Lemma completeChains_is_Some node e name chains opts :
  ∀ i fcs hcms,
    is_Some (completeChains node e name i chains opts fcs hcms)
    ↔ chains = []
      ∨ (i + length chains ≤ length opts ∧ i + length chains ≤ length fcs)%nat.
Proof.
  induction chains as [|chain rest IH]; intros i fcs hcms; simpl.
  - split; [by left|]. intros _. eauto.
  - destruct (opts !! i) as [opt|] eqn:Hopt; simpl.
    2:{ apply lookup_ge_None in Hopt. split; [by intros [? ?]|].
        intros [?|[? ?]]; [done|lia]. }
    apply lookup_lt_Some in Hopt.
    destruct (fcs !! i) as [fc|] eqn:Hfc; simpl.
    2:{ apply lookup_ge_None in Hfc. split; [by intros [? ?]|].
        intros [?|[? ?]]; [done|lia]. }
    apply lookup_lt_Some in Hfc.
    destruct (completeChain node e name chain opt fc) as [fc' hcm].
    rewrite IH, length_insert. split.
    + intros [->|[? ?]]; right; simpl; lia.
    + intros [?|[? ?]]; [done|]. destruct rest; [by left|right].
      simpl in *. lia.
Qed.

(** What the loop leaves: chain [i + k] of the listener is completed with
    plugin chain [k] and chain option [i + k]; the other chains are as they
    were. *)
Lemma completeChains_result node e name chains opts :
  ∀ i fcs hcms fcs' hcms',
    completeChains node e name i chains opts fcs hcms = Some (fcs', hcms') →
    length fcs' = length fcs
    ∧ (∀ j, (j < i ∨ i + length chains ≤ j)%nat → fcs' !! j = fcs !! j)
    ∧ (∀ k chain, chains !! k = Some chain →
         ∃ opt fc, opts !! (i + k)%nat = Some opt
                   ∧ fcs !! (i + k)%nat = Some fc
                   ∧ fcs' !! (i + k)%nat
                     = Some (completeChain node e name chain opt fc).1).
Proof.
  induction chains as [|chain rest IH]; intros i fcs hcms fcs' hcms' H;
    simpl in H.
  - injection H as <- <-. split; [done|]. split; [done|].
    intros k chain Hk. by rewrite lookup_nil in Hk.
  - destruct (opts !! i) as [opt|] eqn:Hopt; simpl in H; [|done].
    destruct (fcs !! i) as [fc|] eqn:Hfc; simpl in H; [|done].
    destruct (completeChain node e name chain opt fc) as [fc1 hcm] eqn:Hc.
    apply IH in H as (Hlen & Hout & Hin).
    rewrite length_insert in Hlen. split; [done|]. split.
    + intros j Hj. rewrite Hout by (simpl in Hj; lia).
      apply list_lookup_insert_ne. simpl in Hj. lia.
    + intros [|k] chain' Hk; simpl in Hk.
      * injection Hk as <-. exists opt, fc. rewrite Nat.add_0_r.
        split; [done|]. split; [done|].
        rewrite Hout by lia. rewrite Hc. simpl.
        apply list_lookup_insert_eq. by apply lookup_lt_Some in Hfc.
      * destruct (Hin k chain' Hk) as (opt' & fc' & Ho & Hf & Hr).
        replace (i + S k)%nat with (S i + k)%nat by lia.
        exists opt', fc'. split; [done|]. split; [|done].
        rewrite list_lookup_insert_ne in Hf by lia. done.
Qed.

(** X4.  The assembly of the filter chains panics (an index out of range)
    exactly when there is at least one chain option and the chains of the
    plugins outnumber the chain options or the chains of the listener: the
    three lists are walked by the index of the plugins' chains.  With no
    chain option at all it returns its error instead. *)
Theorem assembly_panics_iff pluginParams mutable opts :
  buildCompleteFilterChain pluginParams mutable opts = Panic
  ↔ filterChainOpts_ opts ≠ []
    ∧ (length (filterChainOpts_ opts) < length (plugin.FilterChains mutable)
       ∨ length (l_FilterChains (plugin.Listener_ mutable))
         < length (plugin.FilterChains mutable))%nat.
Proof.
  unfold buildCompleteFilterChain.
  case_bool_decide as Hlen.
  { split; [done|]. intros [Hne _].
    by destruct (filterChainOpts_ opts). }
  assert (filterChainOpts_ opts ≠ []) as Hne by (by intros Hnil; rewrite Hnil in Hlen).
  pose proof (completeChains_is_Some (plugin.Node pluginParams) (env opts)
                (l_Name (plugin.Listener_ mutable))
                (plugin.FilterChains mutable) (filterChainOpts_ opts) 0
                (l_FilterChains (plugin.Listener_ mutable)) []) as Hsome.
  destruct (completeChains _ _ _ _ _ _ _ _) as [[fcs hcms]|].
  - split.
    + destruct (negb (skipUserFilters opts)); [|done].
      by destruct (DeprecatedInsertUserFilters _ _ _ _) as [? [?|]].
    + intros [_ Hlt]. exfalso.
      destruct (proj1 Hsome) as [Hnil|[? ?]]; [by eauto| |simpl in *; lia].
      rewrite Hnil in Hlt. simpl in Hlt. lia.
  - split; [|done]. intros _. split; [done|].
    destruct (decide (length (filterChainOpts_ opts)
                      < length (plugin.FilterChains mutable))%nat); [by left|].
    destruct (decide (length (l_FilterChains (plugin.Listener_ mutable))
                      < length (plugin.FilterChains mutable))%nat); [by right|].
    exfalso. assert (is_Some (@None (list FilterChain * list (option Message))))
      as [? ?]; [|done].
    apply Hsome. right. simpl. lia.
Qed.

Lemma buildCompleteFilterChain_skip pluginParams mutable opts l :
  skipUserFilters opts = true →
  buildCompleteFilterChain pluginParams mutable opts = Ok l →
  ∃ fcs hcms,
    completeChains (plugin.Node pluginParams) (env opts)
      (l_Name (plugin.Listener_ mutable)) 0 (plugin.FilterChains mutable)
      (filterChainOpts_ opts) (l_FilterChains (plugin.Listener_ mutable)) []
    = Some (fcs, hcms)
    ∧ l = set_FilterChains (plugin.Listener_ mutable) fcs.
Proof.
  intros Hskip H. unfold buildCompleteFilterChain in H.
  case_bool_decide; [done|].
  destruct (completeChains _ _ _ _ _ _ _ _) as [[fcs hcms]|]; [|done].
  rewrite Hskip in H. simpl in H. injection H as <-. eauto.
Qed.

(** X5.  The assembly works on the filters and the metadata of the chains
    only.  When no user filters are inserted, the listener it returns has
    the name, the address, the listener filters and the traffic direction it
    was given, and as many chains in the same order, each with the match and
    the TLS context it had: the matches that the detection of conflicts
    compares are the ones [buildListener] computed. *)
Theorem assembly_keeps_chain_matches pluginParams mutable opts l :
  skipUserFilters opts = true →
  buildCompleteFilterChain pluginParams mutable opts = Ok l →
  let l0 := plugin.Listener_ mutable in
  l_Name l = l_Name l0
  ∧ l_Address l = l_Address l0
  ∧ l_ListenerFilters l = l_ListenerFilters l0
  ∧ l_DeprecatedV1 l = l_DeprecatedV1 l0
  ∧ l_TrafficDirection l = l_TrafficDirection l0
  ∧ length (l_FilterChains l) = length (l_FilterChains l0)
  ∧ fc_FilterChainMatch <$> l_FilterChains l
    = fc_FilterChainMatch <$> l_FilterChains l0
  ∧ fc_TlsContext <$> l_FilterChains l = fc_TlsContext <$> l_FilterChains l0.
Proof.
  intros Hskip H l0.
  destruct (buildCompleteFilterChain_skip _ _ _ _ Hskip H)
    as (fcs & hcms & Hc & ->).
  apply completeChains_result in Hc as (Hlen & Hout & Hin). fold l0 in Hlen, Hout, Hin.
  simpl. repeat split; try done.
  - apply list_eq. intros j. rewrite !list_lookup_fmap.
    destruct (decide (j < length (plugin.FilterChains mutable))%nat) as [Hj|Hj].
    + destruct (lookup_lt_is_Some_2 _ _ Hj) as [chain Hchain].
      destruct (Hin j chain Hchain) as (opt & fc & _ & Hfc & Hfc').
      simpl in Hfc, Hfc'. rewrite Hfc, Hfc'. simpl. f_equal.
      apply completeChain_fields.
    + rewrite Hout by (simpl; lia). done.
  - apply list_eq. intros j. rewrite !list_lookup_fmap.
    destruct (decide (j < length (plugin.FilterChains mutable))%nat) as [Hj|Hj].
    + destruct (lookup_lt_is_Some_2 _ _ Hj) as [chain Hchain].
      destruct (Hin j chain Hchain) as (opt & fc & _ & Hfc & Hfc').
      simpl in Hfc, Hfc'. rewrite Hfc, Hfc'. simpl. f_equal.
      apply completeChain_fields.
    + rewrite Hout by (simpl; lia). done.
Qed.

(** X6.  The order of the filters of an assembled chain.  Chain [k] of the
    listener gets the metadata of chain option [k] and, after the filters it
    had, the filters of option [k] and of plugin chain [k] in this order:
    in a TCP chain the network filters of the option except the last, then
    the TCP filters of the plugins, then the last network filter, which so
    stays the last filter of the chain; in an HTTP chain the TCP filters of
    the plugins and then the connection manager.  A chain of the listener
    beyond the chains of the plugins is left as it was. *)
Theorem assembly_filter_order pluginParams mutable opts l :
  skipUserFilters opts = true →
  buildCompleteFilterChain pluginParams mutable opts = Ok l →
  let node := plugin.Node pluginParams in
  let name := l_Name (plugin.Listener_ mutable) in
  let before := l_FilterChains (plugin.Listener_ mutable) in
  (∀ k chain, plugin.FilterChains mutable !! k = Some chain →
     ∃ opt fc fc',
       filterChainOpts_ opts !! k = Some opt
       ∧ before !! k = Some fc
       ∧ l_FilterChains l !! k = Some fc'
       ∧ fc_Metadata fc' = fco_metadata opt
       ∧ fc_Filters fc'
         = fc_Filters fc ++ appendedFilters node (env opts) name chain opt
       ∧ (∀ ho, httpOpts opt = Some ho →
            last (fc_Filters fc')
            = Some (connectionManagerFilter node (env opts) name ho
                      (plugin.HTTP_ chain)))
       ∧ (httpOpts opt = None → networkFilters opt ≠ [] →
            last (fc_Filters fc') = last (networkFilters opt)))
  ∧ (∀ k, (length (plugin.FilterChains mutable) ≤ k)%nat →
       l_FilterChains l !! k = before !! k).
Proof.
  intros Hskip H node name before.
  destruct (buildCompleteFilterChain_skip _ _ _ _ Hskip H)
    as (fcs & hcms & Hc & ->).
  apply completeChains_result in Hc as (Hlen & Hout & Hin).
  fold node name before in Hlen, Hout, Hin. simpl. split.
  - intros k chain Hchain.
    destruct (Hin k chain Hchain) as (opt & fc & Hopt & Hfc & Hfc').
    simpl in Hopt, Hfc, Hfc'. exists opt, fc, (completeChain node (env opts) name chain opt fc).1.
    destruct (completeChain_fields node (env opts) name chain opt fc)
      as (_ & _ & Hmd & Hfs).
    repeat split; try done.
    + intros ho Hho. rewrite Hfs. unfold appendedFilters. rewrite Hho.
      by rewrite !app_assoc, last_snoc.
    + intros Hho Hnf. rewrite Hfs. unfold appendedFilters. rewrite Hho.
      destruct (networkFilters opt) as [|f nf] eqn:Hn using rev_ind; [done|].
      rewrite length_app. simpl.
      replace (length nf + 1 - 1)%nat with (length nf) by lia.
      rewrite drop_app_length. by rewrite !app_assoc, !last_snoc.
  - intros k Hk. apply Hout. simpl. lia.
Qed.

(** ** Panics *)

Lemma buildCompleteFilterChain_no_panic pluginParams mutable opts :
  (length (plugin.FilterChains mutable) ≤ length (filterChainOpts_ opts))%nat →
  (length (plugin.FilterChains mutable)
   ≤ length (l_FilterChains (plugin.Listener_ mutable)))%nat →
  buildCompleteFilterChain pluginParams mutable opts ≠ Panic.
Proof.
  intros Ho Hl. unfold buildCompleteFilterChain.
  case_bool_decide; [done|].
  pose proof (completeChains_is_Some (plugin.Node pluginParams) (env opts)
                (l_Name (plugin.Listener_ mutable))
                (plugin.FilterChains mutable) (filterChainOpts_ opts) 0
                (l_FilterChains (plugin.Listener_ mutable)) []) as Hsome.
  destruct (completeChains _ _ _ _ _ _ _ _) as [[fcs hcms]|].
  - destruct (negb (skipUserFilters opts)); [|done].
    by destruct (DeprecatedInsertUserFilters _ _ _ _) as [? [?|]].
  - assert (is_Some (@None (list FilterChain * list (option Message))))
      as [? ?]; [|done].
    apply Hsome. right. simpl. lia.
Qed.

Lemma callHooks_lengths hook pluginParams mutable :
  keepsChains hook →
  length (plugin.FilterChains (callHooks hook pluginParams mutable))
  = length (plugin.FilterChains mutable)
  ∧ length (l_FilterChains
              (plugin.Listener_ (callHooks hook pluginParams mutable)))
    = length (l_FilterChains (plugin.Listener_ mutable)).
Proof.
  unfold callHooks, keepsChains. intros Hhook. revert mutable.
  induction (Plugins configgen) as [|p ps IH]; intros mutable; [done|].
  simpl.
  destruct (IH (λ p pp mu Hp, Hhook p pp mu (list_elem_of_further _ _ _ Hp))
              (hook p pluginParams mutable).1) as [-> ->].
  apply Hhook. by left.
Qed.

Lemma forEach_is_Some {A S : Type} (body : S → A → option S) (l : list A) :
  (∀ s x, x ∈ l → is_Some (body s x)) →
  ∀ s, is_Some (forEach body s l).
Proof.
  induction l as [|x l IH]; intros Hbody s; simpl; [by eauto|].
  destruct (Hbody s x) as [s' ->]; [by left|]. simpl.
  apply IH. intros ? ? ?. apply Hbody. by right.
Qed.

(** The fallthrough route adds a chain and its chain option together. *)
Lemma appendListenerFallthroughRoute_aligned l opts node cur :
  length (l_FilterChains l) = length (filterChainOpts_ opts) →
  let r := appendListenerFallthroughRoute l opts node cur in
  length (l_FilterChains r.1) = length (filterChainOpts_ r.2).
Proof.
  intros Hlen. unfold appendListenerFallthroughRoute.
  repeat case_match; simpl; rewrite ?length_app; simpl; lia.
Qed.

Lemma buildOutboundListener_no_panic r pluginParams actualWildcard :
  keepsChains plugin.OnOutboundListener →
  buildOutboundListener r pluginParams actualWildcard ≠ Panic.
Proof.
  intros Hkeep. unfold buildOutboundListener.
  set (lo1 := set_filterChainOpts (oo_listenerOpts r) (opts r)).
  set (lo2 := if _ && _ then _ else lo1).
  pose proof (appendListenerFallthroughRoute_aligned (buildListener lo2) lo2
                (plugin.Node pluginParams) (oo_currentListenerEntry r)) as Ha.
  cbv zeta in Ha. rewrite buildListener_chains, length_fmap in Ha.
  specialize (Ha eq_refl).
  destruct (appendListenerFallthroughRoute _ _ _ _) as [l1 lo3].
  simpl in Ha.
  destruct (buildCompleteFilterChain _ _ _) as [l'| |] eqn:Hb; [done..|].
  exfalso. revert Hb. apply buildCompleteFilterChain_no_panic.
  - destruct (callHooks_lengths plugin.OnOutboundListener pluginParams
                (newMutableObjects (set_TrafficDirection l1 OUTBOUND)) Hkeep)
      as [-> _].
    simpl. rewrite length_replicate. lia.
  - destruct (callHooks_lengths plugin.OnOutboundListener pluginParams
                (newMutableObjects (set_TrafficDirection l1 OUTBOUND)) Hkeep)
      as [-> ->].
    simpl. rewrite length_replicate. lia.
Qed.

Lemma registerOutboundListener_is_Some r pluginParams actualWildcard :
  keepsChains plugin.OnOutboundListener →
  is_Some (plugin.Service_ pluginParams) →
  is_Some (registerOutboundListener r pluginParams actualWildcard).
Proof.
  intros Hkeep [service Hs]. unfold registerOutboundListener.
  pose proof (buildOutboundListener_no_panic r pluginParams actualWildcard
                Hkeep) as Hnp.
  destruct (buildOutboundListener _ _ _) as [[l lo]| |]; [|by eauto|done].
  destruct (oo_currentListenerEntry r) as [cur|].
  - destruct (mergeListener _ _ _ _ _). by eauto.
  - rewrite Hs. simpl. by eauto.
Qed.

Lemma outboundUnit_is_Some listenerOpts pluginParams listenerMap push
    virtualServices actualWildcard :
  keepsChains plugin.OnOutboundListener →
  is_Some (plugin.Service_ pluginParams) →
  is_Some (buildSidecarOutboundListenerForPortOrUDS listenerOpts pluginParams
             listenerMap push virtualServices actualWildcard).
Proof.
  intros Hkeep Hs. unfold buildSidecarOutboundListenerForPortOrUDS.
  destruct (plugin.ListenerProtocol_ pluginParams); [by eauto| |].
  - assert (is_Some (buildSidecarOutboundTCPListenerOptsForPortOrUDS
                       listenerOpts pluginParams listenerMap push
                       virtualServices actualWildcard)) as [r ->].
    { unfold buildSidecarOutboundTCPListenerOptsForPortOrUDS.
      destruct Hs as [service ->]. simpl.
      repeat case_match; simpl; repeat case_match; by eauto. }
    simpl. destruct (negb (ret r)); [by eauto|].
    by apply registerOutboundListener_is_Some.
  - destruct (negb (ret _)); [by eauto|].
    by apply registerOutboundListener_is_Some.
Qed.

Lemma outboundFromEgress_is_Some e node noneMode actualWildcard
    actualLocalHostAddress st egressListener :
  keepsChains plugin.OnOutboundListener →
  is_Some (outboundFromEgress e node noneMode actualWildcard
             actualLocalHostAddress st egressListener).
Proof.
  intros Hkeep. unfold outboundFromEgress.
  destruct (IstioListener egressListener ≫= egress_Port) as [ilPort|].
  - apply forEach_is_Some. intros s service _.
    apply outboundUnit_is_Some; [done|]. simpl. by eauto.
  - apply forEach_is_Some. intros s service _.
    apply forEach_is_Some. intros s' servicePort _.
    destruct (negb (validatePort _ _ _)); [by eauto|].
    apply outboundUnit_is_Some; [done|]. simpl. by eauto.
Qed.

Lemma buildHTTPProxy_is_Some e node : is_Some (buildHTTPProxy e node).
Proof.
  unfold buildHTTPProxy. case_bool_decide; [by eauto|].
  match goal with
  | |- context [buildCompleteFilterChain ?pp ?mu ?o] =>
    pose proof (buildCompleteFilterChain_no_panic pp mu o) as Hnp;
    destruct (buildCompleteFilterChain pp mu o)
  end; [by eauto..|].
  exfalso. apply Hnp; [simpl; lia| |done].
  cbn [plugin.Listener_ plugin.FilterChains length].
  rewrite buildListener_chains. simpl. lia.
Qed.

(** X7.  The outbound stage does not panic when the outbound hooks of the
    plugins keep the chains as many as they are: every unit it builds has a
    service, every listener starts with one chain per chain option, the
    fallthrough route adds a chain and its option together, and so the
    assembly never indexes past the chain options or the chains of the
    listener; the same holds of the HTTP-proxy listener. *)
Theorem outbound_stage_never_panics e node push :
  keepsChains plugin.OnOutboundListener →
  is_Some (buildSidecarOutboundListeners e node push).
Proof.
  intros Hkeep. unfold buildSidecarOutboundListeners.
  assert (is_Some (outboundListenerMap e node push)) as [[m push'] ->].
  { unfold outboundListenerMap.
    destruct (getActualWildcardAndLocalHost node) as [w lh].
    apply forEach_is_Some. intros s egressListener _.
    by apply outboundFromEgress_is_Some. }
  simpl. destruct (collate (rangeOrder m)) as [tcp http].
  destruct (buildHTTPProxy_is_Some e node) as [[httpProxy|] ->]; simpl;
    by eauto.
Qed.

Lemma assembleInboundListener_no_panic node listenerOpts pluginParams instance :
  keepsChains plugin.OnInboundListener →
  assembleInboundListener node listenerOpts pluginParams instance
  ≠ Some Panic.
Proof.
  intros Hkeep. unfold assembleInboundListener.
  destruct (inboundFilterChainOpts _ _ _ _ _) as [fcos|]; simpl; [|done].
  intros [= Hb]. revert Hb. apply buildCompleteFilterChain_no_panic.
  - match goal with
    | |- context [callHooks ?h ?pp ?mu] =>
      destruct (callHooks_lengths h pp mu Hkeep) as [-> _]
    end.
    simpl. rewrite length_replicate, buildListener_chains, length_fmap.
    simpl. lia.
  - match goal with
    | |- context [callHooks ?h ?pp ?mu] =>
      destruct (callHooks_lengths h pp mu Hkeep) as [-> ->]
    end.
    simpl. rewrite length_replicate. lia.
Qed.

Lemma inboundAppend_is_Some node st listenerOpts pluginParams :
  keepsChains plugin.OnInboundListener →
  is_Some (plugin.ServiceInstance_ pluginParams) →
  is_Some (inboundAppend node st listenerOpts pluginParams).
Proof.
  intros Hkeep [instance Hi]. unfold inboundAppend.
  assert (is_Some (buildSidecarInboundListenerForPortOrUDS node listenerOpts
                     pluginParams (in_listenerMap st) (in_push st)))
    as [[[l m] p] ->]; [|simpl; by eauto].
  unfold buildSidecarInboundListenerForPortOrUDS. rewrite Hi. simpl.
  destruct (_ !! _); [by eauto|].
  pose proof (assembleInboundListener_no_panic node listenerOpts pluginParams
                instance Hkeep) as Hnp.
  destruct (assembleInboundListener _ _ _ _) as [[l| |]|]; by eauto.
Qed.

(** X8.  The inbound stage does not panic when the inbound hooks of the
    plugins keep the chains as many as they are: every unit it builds has a
    service instance, and the listener of a unit starts with one chain per
    chain option, so the assembly never indexes out of range. *)
Theorem inbound_stage_never_panics e node push :
  keepsChains plugin.OnInboundListener →
  is_Some (buildSidecarInboundListeners e node push).
Proof.
  intros Hkeep. unfold buildSidecarInboundListeners.
  destruct (negb (HasCustomIngressListeners (proxy_SidecarScope node))).
  - case_bool_decide; [by eauto|].
    match goal with
    | |- context [forEach ?body ?s0 ?l] =>
      assert (∀ s x, x ∈ l → is_Some (body s x)) as Hbody;
        [|destruct (forEach_is_Some body l Hbody s0) as [st ->];
          simpl; by eauto]
    end.
    intros s instance _. unfold inboundFromInstance.
    apply inboundAppend_is_Some; [done|]. simpl. by eauto.
  - match goal with
    | |- context [forEach ?body ?s0 ?l] =>
      assert (∀ s x, x ∈ l → is_Some (body s x)) as Hbody;
        [|destruct (forEach_is_Some body l Hbody s0) as [st ->];
          simpl; by eauto]
    end.
    intros s ingressListener _. unfold inboundFromIngress.
    destruct (findServiceInstanceForIngressListener _ _ _); [|by eauto].
    apply inboundAppend_is_Some; [done|]. simpl. by eauto.
Qed.

(** ** Management listeners *)

Lemma mgmtFromPort_spec node e managementIP listeners mPort :
  mgmtFromPort node e managementIP listeners mPort
  = Some (if isManagementProtocol (port_Protocol mPort)
          then listeners ++ [managementListener e node managementIP mPort]
          else listeners).
Proof.
  unfold mgmtFromPort. destruct (isManagementProtocol _); [|done].
  fold (managementInstance managementIP mPort).
  set (nf := buildInboundNetworkFilters D e node _).
  unfold buildCompleteFilterChain, buildListener, managementListener.
  fold nf. simpl.
  unfold completeChain. simpl.
  assert (take (length nf - 1) nf ++ drop (length nf - 1) nf = nf) as Htd
    by apply take_drop.
  case_bool_decide as Hn; simpl.
  - by rewrite Htd.
  - destruct nf; [done|simpl in Hn; lia].
Qed.

Lemma mgmtFromPort_forEach node e managementIP ports :
  ∀ listeners,
    forEach (mgmtFromPort node e managementIP) listeners ports
    = Some (listeners
            ++ (managementListener e node managementIP
                <$> filter (λ p, isManagementProtocol (port_Protocol p) = true)
                           ports)).
Proof.
  induction ports as [|p ports IH]; intros listeners; simpl.
  - by rewrite app_nil_r.
  - rewrite mgmtFromPort_spec. simpl. rewrite IH. rewrite filter_cons.
    destruct (isManagementProtocol (port_Protocol p)) eqn:Hp.
    + rewrite decide_True by done. simpl. by rewrite <- app_assoc.
    + rewrite decide_False by done. done.
Qed.

(** X9.  The listeners of the management ports.  For a management IP that
    is given, on a proxy that captures traffic, the function returns one
    listener per management port of a supported protocol (the HTTP and TCP
    families), in the order of the ports, and skips the others: bound to the
    management IP and the port, inbound, one chain without a match that
    holds the inbound network filters only.  No plugin is called and no
    user filter inserted, and the assembly cannot fail. *)
Theorem management_listeners_by_port node e managementPorts managementIP :
  managementIP ≠ "" →
  InterceptionMode node ≠ InterceptionNone →
  buildSidecarInboundMgmtListeners node e managementPorts managementIP
  = Some (managementListener e node managementIP
          <$> filter (λ p, isManagementProtocol (port_Protocol p) = true)
                     managementPorts).
Proof.
  intros Hip Hmode. unfold buildSidecarInboundMgmtListeners.
  destruct (String.eqb managementIP "") eqn:Heq.
  { by apply String.eqb_eq in Heq. }
  simpl. rewrite bool_decide_false by done.
  by rewrite mgmtFromPort_forEach.
Qed.

Lemma buildSidecarInboundMgmtListeners_None node e managementPorts managementIP :
  buildSidecarInboundMgmtListeners node e managementPorts managementIP = None
  ↔ managementIP = "" ∧ IPAddresses node = [].
Proof.
  unfold buildSidecarInboundMgmtListeners.
  destruct (String.eqb managementIP "") eqn:Heq.
  - apply String.eqb_eq in Heq. subst managementIP.
    destruct (IPAddresses node) as [|first rest]; simpl; [done|].
    split; [|by intros [_ ?]].
    destruct (ParseIP D first) as [addr|]; [destruct (To4 D addr)|]; simpl;
      (case_bool_decide; [done|by rewrite mgmtFromPort_forEach]).
  - apply String.eqb_neq in Heq. simpl. split; [|by intros [? _]].
    case_bool_decide; [done|by rewrite mgmtFromPort_forEach].
Qed.

(** X10.  The management stage never panics.  The function that builds the
    management listeners of one IP panics in one case only, the empty
    management IP on a proxy without any address (it reads the first
    address); the stage calls it once per address of the proxy, so that
    case does not arise there. *)
Theorem management_stage_never_panics node noneMode e listeners :
  (∀ managementPorts managementIP,
     buildSidecarInboundMgmtListeners node e managementPorts managementIP
     = None
     ↔ managementIP = "" ∧ IPAddresses node = [])
  ∧ is_Some (generateManagementListeners node noneMode e listeners).
Proof.
  split; [apply buildSidecarInboundMgmtListeners_None|].
  unfold generateManagementListeners.
  destruct (negb _); [|by eauto].
  match goal with
  | |- context [forEach ?body ?s0 ?l] =>
    assert (∀ s x, x ∈ l → is_Some (body s x)) as Hbody;
      [|destruct (forEach_is_Some body l Hbody s0) as [st ->];
        simpl; by eauto]
  end.
  intros s ip Hip.
  destruct (buildSidecarInboundMgmtListeners node e (ManagementPorts e ip) ip)
    as [management|] eqn:Hm; [simpl; by eauto|].
  apply buildSidecarInboundMgmtListeners_None in Hm as [_ Hnil].
  rewrite Hnil in Hip. by apply elem_of_nil in Hip.
Qed.

Lemma management_merge mgmt :
  ∀ listeners,
    ∃ added,
      foldl (λ listeners m,
               match GetByAddress listeners (l_Address m) with
               | Some _ => listeners
               | None => listeners ++ [m]
               end) listeners mgmt
      = listeners ++ added
      ∧ added `sublist_of` mgmt
      ∧ Forall (λ m, l_Address m ∉ l_Address <$> listeners) added
      ∧ ∀ m, m ∈ mgmt → l_Address m ∈ l_Address <$> (listeners ++ added).
Proof.
  induction mgmt as [|m mgmt IH]; intros listeners; simpl.
  - exists []. rewrite app_nil_r. repeat split; [done|constructor|].
    intros m Hm. by apply elem_of_nil in Hm.
  - destruct (GetByAddress listeners (l_Address m)) as [l|] eqn:Hget.
    + destruct (IH listeners) as (added & -> & Hsub & Hfresh & Hall).
      exists added. repeat split; [by apply sublist_cons|done|].
      intros m' [->|Hm']%elem_of_cons; [|by apply Hall].
      unfold GetByAddress in Hget. apply find_some in Hget as [Hin Heq].
      apply bool_decide_eq_true in Heq. rewrite <- Heq.
      apply list_elem_of_fmap. exists l. split; [done|].
      apply elem_of_app. left. by apply list_elem_of_In.
    + apply GetByAddress_None in Hget.
      destruct (IH (listeners ++ [m])) as (added & -> & Hsub & Hfresh & Hall).
      exists (m :: added). rewrite <- app_assoc. simpl.
      repeat split; [by apply sublist_skip| |].
      * constructor; [done|]. eapply Forall_impl; [exact Hfresh|].
        intros m' Hm' Hin. apply Hm'. rewrite fmap_app.
        apply elem_of_app. by left.
      * intros m' [->|Hm']%elem_of_cons.
        -- apply list_elem_of_fmap. exists m. split; [done|].
           apply elem_of_app. right. by left.
        -- specialize (Hall m' Hm'). by rewrite <- app_assoc in Hall.
Qed.

(** X11.  The management stage appends to the listeners it is given: the
    service listeners stay, in their order, at the front of the result.  A
    management listener is added only when its address is not that of a
    service listener, so the service listener wins such a collision.  On a
    proxy with custom ingress listeners, or in interception mode NONE, the
    stage adds nothing. *)
Theorem management_stage_keeps_service_listeners node noneMode e listeners ls :
  generateManagementListeners node noneMode e listeners = Some ls →
  ∃ added,
    ls = listeners ++ added
    ∧ Forall (λ m, l_Address m ∉ l_Address <$> listeners) added
    ∧ (HasCustomIngressListeners (proxy_SidecarScope node) || noneMode = true
       → added = []).
Proof.
  unfold generateManagementListeners.
  destruct (HasCustomIngressListeners (proxy_SidecarScope node) || noneMode);
    simpl.
  { intros [= <-]. exists []. rewrite app_nil_r. repeat split; constructor. }
  intros H. apply bind_Some in H as (mgmt & _ & [= <-]).
  destruct (management_merge mgmt listeners) as (added & -> & _ & Hfresh & _).
  exists added. repeat split; [done..|]. done.
Qed.

(** ** What one outbound unit does to the registry *)

Lemma entryExtends_refl e : entryExtends e e.
Proof. by repeat split. Qed.

Lemma entryExtends_trans e1 e2 e3 :
  entryExtends e1 e2 → entryExtends e2 e3 → entryExtends e1 e3.
Proof.
  intros (Hp1 & Hb1 & Hs1 & Hc1 & Hl1 & Hk1) (Hp2 & Hb2 & Hs2 & Hc2 & Hl2 & Hk2).
  repeat split; try congruence; try (by etrans).
  intros Hlocked. specialize (Hk1 Hlocked). subst e2. by apply Hk2.
Qed.

Lemma addMetric_event c push :
  ∃ ev, addMetric c push = push ++ [ev]
        ∧ ev_metric ev = olc_metric c
        ∧ ev_proxy ev = ID (olc_node c)
        ∧ ev_key ev = listenerName c.
Proof. unfold addMetric, push_Add. by eexists. Qed.

(** The merge of a newly built listener into the entry of the incumbent. *)
Lemma mergeListener_extends pluginParams key cur l push :
  locked cur = false →
  let r := mergeListener pluginParams key cur l push in
  entryExtends cur r.1
  ∧ ∃ evs, r.2 = push ++ evs
           ∧ Forall (isOutboundConflict (plugin.Node pluginParams) key) evs.
Proof.
  intros Hlocked. unfold mergeListener. cbv zeta.
  set (existing := l_FilterChains (listener cur)).
  assert (∀ incoming acc entry (push0 : PushContext) evs0,
            existing `prefix_of` acc →
            entryExtends cur entry → listener entry = listener cur →
            push0 = push ++ evs0 →
            Forall (isOutboundConflict (plugin.Node pluginParams) key) evs0 →
            ∃ acc' entry' evs,
              foldl (mergeFilterChain pluginParams key existing)
                    (acc, entry, push0) incoming
              = (acc', entry', push ++ evs)
              ∧ existing `prefix_of` acc'
              ∧ entryExtends cur entry' ∧ listener entry' = listener cur
              ∧ Forall (isOutboundConflict (plugin.Node pluginParams) key) evs)
    as Hfold.
  { induction incoming as [|c incoming IH];
      intros acc entry push0 evs0 Hacc Hext Hl -> Hevs; simpl.
    - by exists acc, entry, evs0.
    - destruct (conflictFound c existing).
      + destruct (addMetric_event
                    {| olc_metric := ProxyStatusConflictOutboundListenerTCPOverTCP;
                       olc_node := plugin.Node pluginParams;
                       listenerName := key;
                       currentServices := services entry;
                       currentProtocol := port_Protocol (servicePort entry);
                       newHostname :=
                         match plugin.Service_ pluginParams with
                         | Some service => Hostname service
                         | None => "sidecar-config-egress-tcp-listener"
                         end;
                       newProtocol := port_Protocol (plugin.Port_ pluginParams) |}
                    (push ++ evs0)) as (ev & -> & Hm & Hp & Hk).
        apply (IH acc entry _ (evs0 ++ [ev])); try done.
        * by rewrite app_assoc.
        * apply Forall_app. split; [done|]. constructor; [|constructor].
          simpl in Hm, Hp, Hk. repeat split; [by rewrite Hm|done..].
      + apply (IH _ _ _ evs0); try done.
        * by apply prefix_app_r.
        * destruct (plugin.Service_ pluginParams) as [service|]; [|done].
          destruct Hext as (? & ? & ? & ? & ? & ?).
          repeat split; try done.
          -- simpl. by apply prefix_app_r.
          -- congruence.
        * by destruct (plugin.Service_ pluginParams). }
  destruct (Hfold (l_FilterChains l) existing cur push [])
    as (acc' & entry' & evs & -> & Hacc & Hext & Hl & Hevs);
    [done|apply entryExtends_refl|done|by rewrite app_nil_r|constructor|].
  simpl. split; [|by eauto].
  destruct Hext as (Hp & Hb & Hs & _ & _ & _).
  split; [done|]. split; [done|]. split; [done|]. split; [done|].
  split; [|intros; congruence].
  unfold set_FilterChains. simpl. by rewrite Hl.
Qed.

(** A unit leaves the registry and the events as they were, or changes the
    entry under its key, or registers a new entry under its key. *)
Lemma outboundUnit_cases listenerOpts pluginParams listenerMap push
    virtualServices actualWildcard m' push' :
  buildSidecarOutboundListenerForPortOrUDS listenerOpts pluginParams
    listenerMap push virtualServices actualWildcard = Some (m', push') →
  (m' = listenerMap ∧ push' = push)
  ∨ (∃ key cur entry evs,
       resolutionKey listenerOpts pluginParams listenerMap push
         virtualServices actualWildcard = Some key
       ∧ listenerMap !! key = Some cur
       ∧ locked cur = false
       ∧ m' = <[ key := entry ]> listenerMap
       ∧ entryExtends cur entry
       ∧ push' = push ++ evs
       ∧ Forall (isOutboundConflict (plugin.Node pluginParams) key) evs)
  ∨ (∃ key l b service,
       resolutionKey listenerOpts pluginParams listenerMap push
         virtualServices actualWildcard = Some key
       ∧ listenerMap !! key = None
       ∧ plugin.Service_ pluginParams = Some service
       ∧ plugin.ListenerProtocol_ pluginParams ≠ plugin.ListenerProtocolUnknown
       ∧ m' = <[ key := {| services := [service];
                           servicePort := plugin.Port_ pluginParams;
                           ole_bind := b; listener := l; locked := false |} ]>
                listenerMap
       ∧ push' = push).
Proof.
  intros H.
  destruct (outboundUnitOpts listenerOpts pluginParams listenerMap push
              virtualServices actualWildcard) as [r|] eqn:Hr.
  2:{ left. unfold outboundUnitOpts in Hr.
      unfold buildSidecarOutboundListenerForPortOrUDS in H.
      destruct (plugin.ListenerProtocol_ pluginParams);
        [by simplify_eq| |done].
      by rewrite Hr in H. }
  assert (plugin.ListenerProtocol_ pluginParams
          ≠ plugin.ListenerProtocolUnknown) as Hknown.
  { unfold outboundUnitOpts in Hr.
    by destruct (plugin.ListenerProtocol_ pluginParams). }
  rewrite (outboundUnit_unfold _ _ _ _ _ _ _ Hr) in H.
  assert (resolutionKey listenerOpts pluginParams listenerMap push
            virtualServices actualWildcard = Some (oo_listenerMapKey r))
    as Hkey by (unfold resolutionKey; by rewrite Hr).
  set (key := oo_listenerMapKey r) in *.
  assert (oo_currentListenerEntry r = listenerMap !! key
          ∧ match listenerMap !! key with
            | None => ret r = true
            | Some cur =>
              if locked cur
              then ret r = false ∧ oo_listenerMap r = listenerMap
                   ∧ oo_push r = push
              else
                ret r = true
                ∨ (ret r = false
                   ∧ ∃ entry evs,
                       oo_listenerMap r = <[ key := entry ]> listenerMap
                       ∧ entryExtends cur entry
                       ∧ oo_push r = push ++ evs
                       ∧ Forall (isOutboundConflict
                                   (plugin.Node pluginParams) key) evs)
            end) as [Hcur Hcases].
  { unfold outboundUnitOpts in Hr. subst key.
    destruct (plugin.ListenerProtocol_ pluginParams); [done| |].
    - destruct (outboundTCP_cases _ _ _ _ _ _ _ Hr) as (Hm & Hc & Hcases).
      cbv zeta in Hcases. split; [done|].
      destruct (listenerMap !! oo_listenerMapKey r) as [cur|] eqn:Hlook;
        [|by destruct Hcases].
      destruct (locked cur) eqn:Hl; [by destruct Hcases|].
      destruct (protocol.IsTCP (port_Protocol (servicePort cur)));
        simpl in Hcases; [left; by destruct Hcases|].
      right. destruct Hcases as [Hret Hpush]. split; [done|].
      destruct (addMetric_event
                  (conflictHTTPOverTCP pluginParams (oo_listenerMapKey r) cur)
                  push) as (ev & Hev & Hmetric & Hproxy & Hk).
      exists cur, [ev]. split; [by rewrite Hm, insert_id|].
      split; [apply entryExtends_refl|]. split; [by rewrite Hpush, Hev|].
      constructor; [|constructor].
      simpl in Hmetric, Hproxy, Hk. repeat split; [by rewrite Hmetric|done..].
    - injection Hr as Hr.
      pose proof (outboundHTTP_current listenerOpts pluginParams listenerMap
                    push actualWildcard) as Hc.
      pose proof (outboundHTTP_cases listenerOpts pluginParams listenerMap
                    push actualWildcard) as Hcases.
      cbv zeta in Hc, Hcases. rewrite Hr in Hc, Hcases. split; [done|].
      destruct (listenerMap !! oo_listenerMapKey r) as [cur|] eqn:Hlook;
        [|by destruct Hcases].
      destruct Hcases as [Hret Hcases].
      destruct (locked cur) eqn:Hl; [by destruct Hcases|].
      right. split; [done|].
      destruct (plugin.Service_ pluginParams) as [service|].
      + destruct Hcases as [Hm Hpush].
        exists (set_services cur (services cur ++ [service])).
        assert (entryExtends cur
                  (set_services cur (services cur ++ [service]))) as Hext.
        { repeat split; simpl; try done; [by apply prefix_app_r|].
          intros; congruence. }
        destruct (protocol.IsHTTP (port_Protocol (servicePort cur)));
          simpl in Hpush.
        2:{ destruct (addMetric_event
                      (conflictTCPOverHTTP pluginParams (oo_listenerMapKey r)
                         cur service) push)
            as (ev & Hev & Hmetric & Hproxy & Hk).
          exists [ev]. split; [exact Hm|]. split; [exact Hext|].
          split; [by rewrite Hpush, Hev|].
          constructor; [|constructor].
          simpl in Hmetric, Hproxy, Hk.
          repeat split; [by rewrite Hmetric|done..]. }
        exists []. split; [exact Hm|]. split; [exact Hext|].
        split; [by rewrite app_nil_r|constructor].
      + destruct Hcases as [Hm Hpush]. exists cur, [].
        split; [by rewrite Hm, insert_id|].
        split; [apply entryExtends_refl|].
        split; [by rewrite Hpush, app_nil_r|constructor]. }
  destruct (ret r) eqn:Hret; simpl in H.
  - destruct (outboundUnit_ret _ _ _ _ _ _ _ Hr Hret) as [Hm Hp].
    unfold registerOutboundListener in H.
    destruct (buildOutboundListener r pluginParams actualWildcard)
      as [[l lo]|msg|]; [|left; by injection H as <- <-|done].
    rewrite Hcur in H. fold key in H.
    destruct (listenerMap !! key) as [cur|] eqn:Hlook.
    + right. left.
      assert (locked cur = false) as Hl.
      { destruct (locked cur); [|done]. destruct Hcases; congruence. }
      pose proof (mergeListener_extends pluginParams key cur l (oo_push r) Hl)
        as Hmerge. cbv zeta in Hmerge.
      destruct (mergeListener _ _ _ _ _) as [entry push0].
      destruct Hmerge as (Hext & evs & Hpush & Hevs). simpl in Hext, Hpush.
      injection H as <- <-. exists key, cur, entry, evs.
      rewrite Hm, Hpush, Hp. done.
    + right. right. apply bind_Some in H as (service & Hs & H).
      injection H as <- <-. exists key, l, (bind lo), service.
      rewrite Hm, Hp. done.
  - injection H as <- <-.
    destruct (listenerMap !! key) as [cur|] eqn:Hlook; [|congruence].
    destruct (locked cur) eqn:Hl.
    + left. by destruct Hcases as (_ & ? & ?).
    + destruct Hcases as [?|(_ & entry & evs & Hm & Hext & Hp & Hevs)];
        [congruence|].
      right. left. exists key, cur, entry, evs. done.
Qed.

(** A unit leaves the entries under other keys than its own as they are. *)
Lemma outbound_unit_frame_key listenerOpts pluginParams listenerMap push
    virtualServices actualWildcard m' push' :
  buildSidecarOutboundListenerForPortOrUDS listenerOpts pluginParams
    listenerMap push virtualServices actualWildcard = Some (m', push') →
  ∀ k, resolutionKey listenerOpts pluginParams listenerMap push
         virtualServices actualWildcard ≠ Some k →
       m' !! k = listenerMap !! k.
Proof.
  intros H k Hk.
  destruct (outboundUnit_cases _ _ _ _ _ _ _ _ H)
    as [[-> ->]|[(key & cur & entry & evs & Hkey & _ & _ & -> & _)
                |(key & l & b & service & Hkey & _ & _ & _ & -> & _)]].
  - done.
  - rewrite lookup_insert_ne; [done|]. congruence.
  - rewrite lookup_insert_ne; [done|]. congruence.
Qed.

(** X12.  First registered wins.  A unit of the outbound stage never
    removes an entry of the registry and never touches an entry under
    another key than the one it resolves to.  The entry under its key keeps
    the port and protocol and the bind it was registered with and the name
    and address of its listener; the services and the filter chains it had
    stay where they were, in front of any that the unit adds; and a locked
    entry is left exactly as it is. *)
Theorem outbound_unit_keeps_entries listenerOpts pluginParams listenerMap
    push virtualServices actualWildcard m' push' :
  buildSidecarOutboundListenerForPortOrUDS listenerOpts pluginParams
    listenerMap push virtualServices actualWildcard = Some (m', push') →
  (∀ k e, listenerMap !! k = Some e →
     ∃ e', m' !! k = Some e' ∧ entryExtends e e')
  ∧ (∀ k, resolutionKey listenerOpts pluginParams listenerMap push
            virtualServices actualWildcard ≠ Some k →
          m' !! k = listenerMap !! k).
Proof.
  intros H.
  destruct (outboundUnit_cases _ _ _ _ _ _ _ _ H)
    as [[-> ->]|[(key & cur & entry & evs & Hkey & Hcur & _ & -> & Hext & _)
                |(key & l & b & service & Hkey & Hnone & _ & _ & -> & _)]].
  - split; [|done]. intros k e He. exists e. split; [done|].
    apply entryExtends_refl.
  - split.
    + intros k e He. destruct (decide (k = key)) as [->|Hne].
      * rewrite lookup_insert_eq. exists entry. split; [done|]. congruence.
      * rewrite lookup_insert_ne by done. exists e. split; [done|].
        apply entryExtends_refl.
    + intros k Hk. rewrite lookup_insert_ne; [done|]. congruence.
  - split.
    + intros k e He. rewrite lookup_insert_ne by congruence.
      exists e. split; [done|]. apply entryExtends_refl.
    + intros k Hk. rewrite lookup_insert_ne; [done|]. congruence.
Qed.

(** X13.  A unit of the outbound stage registers at most one new entry, and
    only under the key it resolves to: the entry is for the port of the
    unit, which is of the HTTP or the TCP family, it is not locked, the
    service of the unit is its only contributor, and the unit records no
    status event. *)
Theorem outbound_unit_new_entry listenerOpts pluginParams listenerMap
    push virtualServices actualWildcard m' push' k e' :
  buildSidecarOutboundListenerForPortOrUDS listenerOpts pluginParams
    listenerMap push virtualServices actualWildcard = Some (m', push') →
  listenerMap !! k = None →
  m' !! k = Some e' →
  resolutionKey listenerOpts pluginParams listenerMap push virtualServices
    actualWildcard = Some k
  ∧ servicePort e' = plugin.Port_ pluginParams
  ∧ plugin.ListenerProtocol_ pluginParams ≠ plugin.ListenerProtocolUnknown
  ∧ locked e' = false
  ∧ (∃ service, plugin.Service_ pluginParams = Some service
                ∧ services e' = [service])
  ∧ push' = push
  ∧ dom m' = {[ k ]} ∪ dom listenerMap.
Proof.
  intros H Hnone He'.
  destruct (outboundUnit_cases _ _ _ _ _ _ _ _ H)
    as [[-> ->]|[(key & cur & entry & evs & Hkey & Hcur & _ & -> & Hext & _)
                |(key & l & b & service & Hkey & Hfree & Hs & Hp & -> & ->)]].
  - congruence.
  - destruct (decide (k = key)) as [->|Hne]; [congruence|].
    rewrite lookup_insert_ne in He' by done. congruence.
  - destruct (decide (k = key)) as [->|Hne].
    + rewrite lookup_insert_eq in He'. injection He' as <-. simpl.
      repeat split; try done; [by eauto|]. by rewrite dom_insert_L.
    + rewrite lookup_insert_ne in He' by done. congruence.
Qed.

(** ** Invariants of the registry over the outbound stage *)

(** A property of the registry and the status events that holds at the
    start, that locking the entries keeps, and that every unit built for
    the proxy keeps, holds of what the loop over the egress listeners
    leaves. *)
Lemma outboundListenerMap_invariant (P : outboundState → Prop) e node push st :
  P (∅, push) →
  (∀ m p, P (m, p) → P (lockAll m, p)) →
  (∀ listenerOpts pluginParams m p virtualServices actualWildcard m' p',
     plugin.Node pluginParams = node →
     plugin.ListenerProtocol_ pluginParams
     = plugin.ModelProtocolToListenerProtocol
         (port_Protocol (plugin.Port_ pluginParams)) →
     P (m, p) →
     buildSidecarOutboundListenerForPortOrUDS listenerOpts pluginParams m p
       virtualServices actualWildcard = Some (m', p') →
     P (m', p')) →
  outboundListenerMap e node push = Some st →
  P st.
Proof.
  intros Hinit Hlock Hunit. unfold outboundListenerMap.
  destruct (getActualWildcardAndLocalHost node) as [w lh].
  apply forEach_invariant; [|done].
  intros s egressListener s' _ Hs. unfold outboundFromEgress.
  destruct (IstioListener egressListener ≫= egress_Port) as [ilPort|].
  - apply forEach_invariant; [|done].
    intros [m p] service [m1 p1] _ HP Hu. simpl in Hu.
    refine (Hunit _ _ _ _ _ _ _ _ _ _ HP Hu); reflexivity.
  - apply forEach_invariant; [|destruct s; by apply Hlock].
    intros s1 service s2 _ HP. apply forEach_invariant; [|done].
    intros [m p] servicePort [m1 p1] _ HP1.
    destruct (negb (validatePort _ _ _)); [by intros [= <- <-]|].
    simpl. intros Hu.
    refine (Hunit _ _ _ _ _ _ _ _ _ _ HP1 Hu); reflexivity.
Qed.

(** X14.  The status events of the outbound stage.  The stage appends its
    events after the ones that were there and removes none.  Every event it
    appends is of one of the three outbound conflict kinds, is recorded for
    this proxy, and is recorded under the key of a listener that is in the
    registry: the incumbent that the rejected unit ran into. *)
Theorem outbound_stage_events e node push m push' :
  outboundListenerMap e node push = Some (m, push') →
  ∃ evs,
    push' = push ++ evs
    ∧ Forall (λ ev, ∃ key, isOutboundConflict node key ev ∧ is_Some (m !! key))
             evs.
Proof.
  apply (outboundListenerMap_invariant
           (λ st, ∃ evs,
              st.2 = push ++ evs
              ∧ Forall (λ ev, ∃ key, isOutboundConflict node key ev
                                     ∧ is_Some (st.1 !! key)) evs)).
  - exists []. simpl. by rewrite app_nil_r.
  - intros m0 p (evs & Hp & Hevs). exists evs. split; [done|].
    eapply Forall_impl; [exact Hevs|]. simpl.
    intros ev (key & Hev & Hkey). exists key. split; [done|].
    rewrite lockAll_lookup. by destruct Hkey as [? ->].
  - intros lo pp m0 p vs w m1 p1 Hnode _ (evs & Hp & Hevs) Hu.
    simpl in Hp, Hevs. subst p.
    destruct (outboundUnit_cases _ _ _ _ _ _ _ _ Hu)
      as [[-> ->]|[(key & cur & entry & evs1 & _ & Hcur & _ & -> & _ & -> & Hevs1)
                  |(key & l & b & service & _ & _ & _ & _ & -> & ->)]]; simpl.
    + by exists evs.
    + exists (evs ++ evs1). split; [by rewrite app_assoc|].
      apply Forall_app. split.
      * eapply Forall_impl; [exact Hevs|]. simpl.
        intros ev (k & Hev & Hk). exists k. split; [done|].
        destruct (decide (key = k)) as [->|Hne].
        -- by rewrite lookup_insert_eq.
        -- by rewrite lookup_insert_ne.
      * eapply Forall_impl; [exact Hevs1|]. simpl.
        intros ev Hev. exists key. rewrite Hnode in Hev. split; [done|].
        by rewrite lookup_insert_eq.
    + exists evs. split; [done|].
      eapply Forall_impl; [exact Hevs|]. simpl.
      intros ev (k & Hev & Hk). exists k. split; [done|].
      destruct (decide (key = k)) as [->|Hne].
      * by rewrite lookup_insert_eq.
      * by rewrite lookup_insert_ne.
Qed.

(** X15.  The entries of the registry of the outbound stage.  Every entry
    is for a port of the HTTP or of the TCP family (a port of another
    protocol registers nothing), so the collation by protocol puts its
    listener with the TCP listeners or with the HTTP ones; and every entry
    has at least one contributing service. *)
Theorem outbound_registry_entries e node push m push' :
  outboundListenerMap e node push = Some (m, push') →
  ∀ k entry, m !! k = Some entry →
    (protocol.IsHTTP (port_Protocol (servicePort entry)) = true
     ∨ protocol.IsTCP (port_Protocol (servicePort entry)) = true)
    ∧ services entry ≠ [].
Proof.
  apply (outboundListenerMap_invariant
           (λ st, ∀ k entry, st.1 !! k = Some entry →
              (protocol.IsHTTP (port_Protocol (servicePort entry)) = true
               ∨ protocol.IsTCP (port_Protocol (servicePort entry)) = true)
              ∧ services entry ≠ [])).
  - intros k entry Hk. simpl in Hk. by rewrite lookup_empty in Hk.
  - intros m0 p HP k entry Hk. simpl in Hk. rewrite lockAll_lookup in Hk.
    destruct (m0 !! k) as [e0|] eqn:He0; [|done]. injection Hk as <-.
    simpl. by apply (HP k).
  - intros lo pp m0 p vs w m1 p1 _ Hproto HP Hu k entry Hk. simpl in *.
    destruct (outboundUnit_cases _ _ _ _ _ _ _ _ Hu)
      as [[-> ->]|[(key & cur & e1 & evs1 & _ & Hcur & _ & -> & Hext & _)
                  |(key & l & b & service & _ & _ & _ & Hknown & -> & ->)]].
    + by apply (HP k).
    + destruct (decide (key = k)) as [->|Hne].
      * rewrite lookup_insert_eq in Hk. injection Hk as <-.
        destruct (HP k cur Hcur) as [Hfam Hsvc].
        destruct Hext as (-> & _ & [extra ->] & _). split; [done|].
        by destruct (services cur).
      * rewrite lookup_insert_ne in Hk by done. by apply (HP k).
    + destruct (decide (key = k)) as [->|Hne].
      * rewrite lookup_insert_eq in Hk. injection Hk as <-. simpl.
        split; [|done]. rewrite Hproto in Hknown.
        unfold plugin.ModelProtocolToListenerProtocol in Hknown.
        destruct (protocol.IsHTTP _); [by left|].
        destruct (protocol.IsTCP _); [by right|done].
      * rewrite lookup_insert_ne in Hk by done. by apply (HP k).
Qed.

(** ** Privileged ports *)

Lemma validatePort_unprivileged node i :
  metadata node NodeMetadataSidecarUID ≠ "0" →
  validatePort node i true = true →
  i > 1024.
Proof.
  intros Huid. unfold validatePort. simpl.
  case_bool_decide; [done|]. intros Heq. by apply String.eqb_eq in Heq.
Qed.

(** X16.  A proxy that binds its listeners to ports and does not run as
    root gets no listener on a privileged port from the catch-all egress
    listener: every entry that the catch-all listener adds to the registry
    is for a port above 1024, the service ports up to 1024 being skipped
    silently. *)
Theorem catch_all_skips_privileged_ports e node noneMode actualWildcard
    actualLocalHostAddress st egressListener st' :
  isCatchAll egressListener →
  (noneMode = true
   ∨ ∃ il, IstioListener egressListener = Some il
           ∧ egress_CaptureMode il = CaptureMode_NONE) →
  metadata node NodeMetadataSidecarUID ≠ "0" →
  outboundFromEgress e node noneMode actualWildcard actualLocalHostAddress
    st egressListener = Some st' →
  ∀ k entry, st.1 !! k = None → st'.1 !! k = Some entry →
    port_Port (servicePort entry) > 1024.
Proof.
  intros Hcatch Hbind Huid. unfold outboundFromEgress, isCatchAll in *.
  rewrite Hcatch.
  set (bindToPort := if noneMode then true else _).
  assert (bindToPort = true) as Hb.
  { subst bindToPort. destruct noneMode; [done|].
    destruct Hbind as [?|(il & -> & Hmode)]; [done|].
    by rewrite bool_decide_true. }
  clearbody bindToPort. subst bindToPort.
  intros H k entry Hfree Hentry. revert H k entry Hfree Hentry.
  apply (forEach_invariant
           (λ s : outboundState, ∀ k entry, st.1 !! k = None →
              s.1 !! k = Some entry → port_Port (servicePort entry) > 1024)).
  2:{ intros k entry Hfree Hk. simpl in Hk. rewrite lockAll_lookup in Hk.
      by rewrite Hfree in Hk. }
  intros s1 service s2 _ HP.
  apply (forEach_invariant
           (λ s : outboundState, ∀ k entry, st.1 !! k = None →
              s.1 !! k = Some entry → port_Port (servicePort entry) > 1024));
    [|done].
  intros [m p] servicePort [m1 p1] _ HP1.
  destruct (validatePort node (port_Port servicePort) true) eqn:Hvalid;
    simpl; [|by intros [= <- <-]].
  apply (validatePort_unprivileged _ _ Huid) in Hvalid.
  intros Hu k entry Hfree Hk. simpl in *.
  destruct (outboundUnit_cases _ _ _ _ _ _ _ _ Hu)
    as [[-> ->]|[(key & cur & e1 & evs1 & _ & Hcur & _ & -> & Hext & _)
                |(key & l & b & svc & _ & _ & _ & _ & -> & ->)]].
  - by apply (HP1 k).
  - destruct (decide (key = k)) as [->|Hne].
    + rewrite lookup_insert_eq in Hk. injection Hk as <-.
      destruct Hext as (-> & _). by apply (HP1 k).
    + rewrite lookup_insert_ne in Hk by done. by apply (HP1 k).
  - destruct (decide (key = k)) as [->|Hne].
    + rewrite lookup_insert_eq in Hk. injection Hk as <-. done.
    + rewrite lookup_insert_ne in Hk by done. by apply (HP1 k).
Qed.

(** ** The inbound stage *)

(** One unit of the inbound stage adds a listener, or an event, or
    nothing. *)
Lemma inboundAppend_cases node st listenerOpts pluginParams st' :
  inboundAppend node st listenerOpts pluginParams = Some st' →
  ∃ added evs,
    in_listeners st' = in_listeners st ++ added
    ∧ in_push st' = in_push st ++ evs
    ∧ (length added + length evs ≤ 1)%nat
    ∧ Forall (isInboundConflict (plugin.Node pluginParams)) evs
    ∧ (hooksKeepAddress →
       Forall (λ l, l_Address l
                    = BuildAddress (bind listenerOpts)
                                   (uint32 (port listenerOpts))) added).
Proof.
  unfold inboundAppend. intros H.
  apply bind_Some in H as ([[ol m] p] & Hb & [= <-]). simpl.
  unfold buildSidecarInboundListenerForPortOrUDS in Hb.
  apply bind_Some in Hb as (instance & Hi & Hb).
  destruct (in_listenerMap st !! _) as [old|].
  - injection Hb as <- <- <-. unfold push_Add.
    eexists [], [_]. split; [by rewrite app_nil_r|].
    split; [reflexivity|]. split; [simpl; lia|].
    split; [|intros; constructor].
    constructor; [|constructor]. by repeat split.
  - destruct (assembleInboundListener node listenerOpts pluginParams instance)
      as [[l|msg|]|] eqn:Ha; simplify_eq.
    + exists [l], []. rewrite app_nil_r.
      split; [done|]. split; [done|]. split; [simpl; lia|].
      split; [constructor|].
      intros Hkeep. constructor; [|constructor].
      by apply (assembleInboundListener_address _ _ _ _ _ Hkeep Ha).
    + exists [], []. rewrite !app_nil_r.
      split; [done|]. split; [done|]. split; [simpl; lia|].
      split; [constructor|]. intros; constructor.
    + exists [], []. rewrite !app_nil_r.
      split; [done|]. split; [done|]. split; [simpl; lia|].
      split; [constructor|]. intros; constructor.
Qed.

Lemma inboundFromInstance_forEach e node instances :
  ∀ st st',
    forEach (inboundFromInstance e node) st instances = Some st' →
    ∃ added evs,
      in_listeners st' = in_listeners st ++ added
      ∧ in_push st' = in_push st ++ evs
      ∧ (length added + length evs ≤ length instances)%nat
      ∧ Forall (isInboundConflict node) evs
      ∧ (hooksKeepAddress →
         l_Address <$> added `sublist_of` endpointAddress <$> instances).
Proof.
  induction instances as [|instance instances IH]; intros st st' H;
    simpl in H.
  - injection H as <-. exists [], []. rewrite !app_nil_r.
    repeat split; try done; try constructor.
  - apply bind_Some in H as (st1 & H1 & H).
    unfold inboundFromInstance in H1.
    apply inboundAppend_cases in H1
      as (added1 & evs1 & Hl1 & Hp1 & Hn1 & He1 & Ha1).
    apply IH in H as (added & evs & Hl & Hp & Hn & He & Ha).
    exists (added1 ++ added), (evs1 ++ evs).
    rewrite Hl, Hl1, Hp, Hp1, <- !app_assoc, !length_app.
    repeat split; try done.
    + simpl. lia.
    + apply Forall_app. by split.
    + intros Hkeep. specialize (Ha Hkeep). specialize (Ha1 Hkeep).
      simpl in Ha1. rewrite fmap_app.
      destruct added1 as [|l [|l' rest]].
      * simpl. by apply sublist_cons.
      * apply Forall_cons in Ha1 as [Ha1 _]. simpl. rewrite Ha1.
        by apply sublist_skip.
      * simpl in Hn1. lia.
Qed.

Lemma inboundFromIngress_forEach e node noneMode ingress :
  ∀ st st',
    forEach (inboundFromIngress e node noneMode) st ingress = Some st' →
    ∃ added evs,
      in_listeners st' = in_listeners st ++ added
      ∧ in_push st' = in_push st ++ evs
      ∧ (length added + length evs ≤ length ingress)%nat
      ∧ Forall (isInboundConflict node) evs.
Proof.
  induction ingress as [|il ingress IH]; intros st st' H; simpl in H.
  - injection H as <-. exists [], []. rewrite !app_nil_r.
    repeat split; try done.
  - apply bind_Some in H as (st1 & H1 & H).
    apply IH in H as (added & evs & Hl & Hp & Hn & He).
    unfold inboundFromIngress in H1.
    destruct (findServiceInstanceForIngressListener _ _ _) as [instance|].
    + apply inboundAppend_cases in H1
        as (added1 & evs1 & Hl1 & Hp1 & Hn1 & He1 & _).
      exists (added1 ++ added), (evs1 ++ evs).
      rewrite Hl, Hl1, Hp, Hp1, <- !app_assoc, !length_app.
      repeat split; try done.
      * simpl. lia.
      * apply Forall_app. by split.
    + injection H1 as <-. exists added, evs. repeat split; try done.
      simpl. lia.
Qed.

(** X17.  The status events of the inbound stage.  The stage appends its
    events after the ones that were there.  Every event it appends is an
    inbound conflict event of this proxy (recorded under the ID of the
    proxy, not under the key of the listener).  A unit of the stage, which
    is a service instance or an ingress listener of the Sidecar resource,
    gives a listener or an event or neither, never both: listeners and
    events together are no more than the units. *)
Theorem inbound_stage_events e node push ls push' :
  buildSidecarInboundListeners e node push = Some (ls, push') →
  ∃ evs,
    push' = push ++ evs
    ∧ Forall (isInboundConflict node) evs
    ∧ (length ls + length evs ≤ inboundUnits node)%nat.
Proof.
  unfold buildSidecarInboundListeners, inboundUnits.
  destruct (HasCustomIngressListeners (proxy_SidecarScope node)); simpl.
  - intros H. apply bind_Some in H as (st & H & [= <- <-]).
    apply inboundFromIngress_forEach in H
      as (added & evs & Hl & Hp & Hn & He).
    simpl in Hl, Hp. exists evs. by rewrite Hl, Hp.
  - case_bool_decide as Hmode.
    + intros [= <- <-]. exists []. rewrite app_nil_r.
      repeat split; [constructor|simpl; lia].
    + intros H. apply bind_Some in H as (st & H & [= <- <-]).
      apply inboundFromInstance_forEach in H
        as (added & evs & Hl & Hp & Hn & He & _).
      simpl in Hl, Hp. exists evs. by rewrite Hl, Hp.
Qed.

(** X18.  Without custom ingress listeners, the inbound listeners follow
    the service instances of the proxy: their addresses are, in the order
    of the instances, endpoint addresses with endpoint ports of instances,
    with at most one listener per instance.  (The hooks of the plugins and
    the insertion of user filters leave the address of a listener alone.) *)
Theorem inbound_listeners_follow_instances e node push ls push' :
  hooksKeepAddress →
  HasCustomIngressListeners (proxy_SidecarScope node) = false →
  buildSidecarInboundListeners e node push = Some (ls, push') →
  l_Address <$> ls `sublist_of` endpointAddress <$> ServiceInstances node.
Proof.
  intros Hkeep Hcustom. unfold buildSidecarInboundListeners.
  rewrite Hcustom. simpl. case_bool_decide as Hmode.
  - intros [= <- <-]. apply sublist_nil_l.
  - intros H. apply bind_Some in H as (st & H & [= <- <-]).
    apply inboundFromInstance_forEach in H
      as (added & evs & Hl & _ & _ & _ & Ha).
    simpl in Hl. rewrite Hl. by apply Ha.
Qed.

(** ** The order of the outbound listeners *)

Lemma collate_filter entries :
  ∀ tcp0 http0,
    foldl (λ '(tcpListeners, httpListeners) '(name, l),
             match Listener_Validate D (listener l) with
             | Some err => (tcpListeners, httpListeners)
             | None =>
               if protocol.IsTCP (port_Protocol (servicePort l))
               then (tcpListeners ++ [listener l], httpListeners)
               else (tcpListeners, httpListeners ++ [listener l])
             end)
          (tcp0, http0) entries
    = (tcp0 ++ ((λ ke, listener ke.2) <$> filter collatedAsTCP entries),
       http0 ++ ((λ ke, listener ke.2) <$> filter collatedAsHTTP entries)).
Proof.
  induction entries as [|[name l] entries IH]; intros tcp0 http0; simpl.
  - by rewrite !app_nil_r.
  - rewrite !filter_cons.
    destruct (decide (collatedAsTCP (name, l))) as [[Hv Hp]|Hn1];
      destruct (decide (collatedAsHTTP (name, l))) as [[Hv' Hp']|Hn2];
      simpl in *.
    + congruence.
    + rewrite Hv, Hp, IH. simpl. by rewrite <- app_assoc.
    + rewrite Hv', Hp', IH. simpl. by rewrite <- app_assoc.
    + destruct (Listener_Validate D (listener l)) as [err|] eqn:Hv;
        [by rewrite IH|].
      destruct (protocol.IsTCP (port_Protocol (servicePort l))) eqn:Hp.
      * by destruct Hn1.
      * by destruct Hn2.
Qed.

(** X19.  The order of the listeners of the outbound stage.  The stage
    returns, of the entries of its registry in the order the registry is
    ranged over, first the listeners of the entries for ports of the TCP
    family, then the listeners of the other entries (ports of the HTTP
    family), and last the HTTP-proxy listener when there is one, with its
    traffic direction set to outbound.  A listener that fails validation is
    left out, and the status events are those of the registry loop. *)
Theorem outbound_listeners_tcp_before_http e node push ls push' :
  buildSidecarOutboundListeners e node push = Some (ls, push') →
  ∃ m,
    outboundListenerMap e node push = Some (m, push')
    ∧ ls = ((λ ke, listener ke.2) <$> filter collatedAsTCP (rangeOrder m))
           ++ ((λ ke, listener ke.2) <$> filter collatedAsHTTP (rangeOrder m))
           ++ httpProxyListeners e node.
Proof.
  unfold buildSidecarOutboundListeners, httpProxyListeners. intros H.
  apply bind_Some in H as ([m p] & Hm & H). exists m.
  unfold collate in H. rewrite collate_filter in H. simpl in H.
  apply bind_Some in H as (httpProxy & Hp & H). rewrite Hp.
  destruct httpProxy as [httpProxy|]; injection H as <- <-.
  - split; [done|]. by rewrite <- app_assoc.
  - split; [done|]. by rewrite app_nil_r.
Qed.

(** ** The bind address of inbound listeners *)

Lemma firstGlobalUnicast_cases addrs :
  match firstGlobalUnicast addrs with
  | Some s =>
    ∃ before a after ip,
      addrs = before ++ a :: after
      ∧ ParseIP D a = Some ip ∧ IsGlobalUnicast D ip = true
      ∧ s = IP_String D ip
      ∧ Forall (λ b, ∀ ip', ParseIP D b = Some ip' →
                     IsGlobalUnicast D ip' = false) before
  | None =>
    Forall (λ b, ∀ ip', ParseIP D b = Some ip' →
               IsGlobalUnicast D ip' = false) addrs
  end.
Proof.
  induction addrs as [|a addrs IH]; simpl; [constructor|].
  destruct (ParseIP D a) as [ip|] eqn:Hparse.
  - destruct (IsGlobalUnicast D ip) eqn:Hg.
    + exists [], a, addrs, ip. repeat split; try done.
    + destruct (firstGlobalUnicast addrs) as [s|].
      * destruct IH as (before & a' & after & ip' & -> & ? & ? & ? & Hb).
        exists (a :: before), a', after, ip'. repeat split; try done.
        constructor; [|done]. intros ? ?. congruence.
      * constructor; [|done]. intros ? ?. congruence.
  - destruct (firstGlobalUnicast addrs) as [s|].
    + destruct IH as (before & a' & after & ip' & -> & ? & ? & ? & Hb).
      exists (a :: before), a', after, ip'. repeat split; try done.
      constructor; [|done]. intros ? ?. congruence.
    + constructor; [|done]. intros ? ?. congruence.
Qed.

(** X20.  The address that an inbound listener without a bind is bound to
    when it binds to its port.  It is the textual form of the first address
    of the proxy that parses and is a global unicast address; addresses
    that do not parse and addresses such as loopback or link-local ones are
    passed over.  When the proxy has no such address it is the wildcard
    address of the address family of the proxy. *)
Theorem getSidecarInboundBindIP_first_global_unicast node :
  (∃ before a after ip,
     IPAddresses node = before ++ a :: after
     ∧ ParseIP D a = Some ip ∧ IsGlobalUnicast D ip = true
     ∧ Forall (λ b, ∀ ip', ParseIP D b = Some ip' →
                    IsGlobalUnicast D ip' = false) before
     ∧ getSidecarInboundBindIP node = IP_String D ip)
  ∨ (Forall (λ b, ∀ ip', ParseIP D b = Some ip' →
                  IsGlobalUnicast D ip' = false) (IPAddresses node)
     ∧ getSidecarInboundBindIP node = (getActualWildcardAndLocalHost node).1).
Proof.
  unfold getSidecarInboundBindIP.
  pose proof (firstGlobalUnicast_cases (IPAddresses node)) as H.
  destruct (firstGlobalUnicast (IPAddresses node)) as [s|]; simpl.
  - left. destruct H as (before & a & after & ip & ? & ? & ? & ? & ?).
    exists before, a, after, ip. by repeat split.
  - right. by split.
Qed.

(** ** The HTTP-proxy listener *)

(** X21.  The HTTP-proxy listener.  There is none exactly when its port is
    zero: the port of the mesh configuration, replaced by the default port
    when it is zero and the proxy is in interception mode NONE.  Otherwise
    the listener is bound to the localhost address of the address family of
    the proxy and to that port (it binds to the port), has no listener
    filter and one chain without a match, whose only filter is the
    connection manager of the route configuration [http_proxy]; the call
    cannot panic or fail. *)
Theorem http_proxy_listener e node :
  let lh := (getActualWildcardAndLocalHost node).2 in
  let p := httpProxyPort e node in
  (buildHTTPProxy e node = Some None ↔ p = 0)
  ∧ (p ≠ 0 →
     ∃ l ho,
       buildHTTPProxy e node = Some (Some l)
       ∧ rds ho = RDSHttpProxy
       ∧ l_Name l = lh +:+ "_" +:+ pretty p
       ∧ l_Address l = BuildAddress lh (uint32 p)
       ∧ l_DeprecatedV1 l = None
       ∧ l_ListenerFilters l = []
       ∧ l_FilterChains l
         = [ {| fc_FilterChainMatch := None; fc_TlsContext := None;
                fc_Filters :=
                  [connectionManagerFilter node (Some e) (l_Name l) ho []];
                fc_Metadata := None |} ]).
Proof.
  intros lh p. unfold buildHTTPProxy. fold lh.
  change (if bool_decide (Mesh_ProxyHttpPort e = 0)
             && bool_decide (InterceptionMode node = InterceptionNone)
          then int32 (features_DefaultPortHTTPProxy D)
          else Mesh_ProxyHttpPort e) with p.
  case_bool_decide as Hp.
  - split; [done|]. intros Hne. done.
  - unfold buildCompleteFilterChain, buildListener. simpl.
    split; [split; [done|]; by intros ?|].
    intros _. eexists _, _. split; [reflexivity|]. simpl.
    repeat split; try reflexivity.
Qed.

(** ** The address family of a proxy *)

Lemma existsb_Permutation {A} (f : A → bool) (l1 l2 : list A) :
  l1 ≡ₚ l2 → existsb f l1 = existsb f l2.
Proof.
  induction 1 as [|x l1 l2 _ IH|x y l|l1 l2 l3 _ IH1 _ IH2]; simpl.
  - done.
  - by rewrite IH.
  - by destruct (f x), (f y).
  - by rewrite IH1.
Qed.

(** X27.  The wildcard and localhost addresses of a proxy depend on which
    addresses the proxy has and not on their order: two proxies whose
    address lists are permutations of each other get the same pair.  (The
    bind address of inbound listeners and the management IP, by contrast,
    are taken from the first suitable address.) *)
Theorem getActualWildcardAndLocalHost_order_independent node1 node2 :
  IPAddresses node1 ≡ₚ IPAddresses node2 →
  getActualWildcardAndLocalHost node1 = getActualWildcardAndLocalHost node2.
Proof.
  intros Hp. rewrite !getActualWildcardAndLocalHost_spec.
  by rewrite (existsb_Permutation _ _ _ Hp).
Qed.

(** ** An egress listener with a port *)

(** A unit that comes with a bind is resolved to the key of that bind and
    the port of the unit, whatever the address of its service. *)
Lemma resolutionKey_bind listenerOpts pluginParams listenerMap push
    virtualServices actualWildcard key :
  bind listenerOpts ≠ "" →
  resolutionKey listenerOpts pluginParams listenerMap push virtualServices
    actualWildcard = Some key →
  key = listenerKey (bind listenerOpts) (port_Port (plugin.Port_ pluginParams)).
Proof.
  intros Hbind. unfold resolutionKey, outboundUnitOpts.
  assert (bool_decide (String.length (bind listenerOpts) = 0%nat) = false)
    as Hlen.
  { apply bool_decide_eq_false. by destruct (bind listenerOpts). }
  destruct (plugin.ListenerProtocol_ pluginParams); [done| |].
  - unfold buildSidecarOutboundTCPListenerOptsForPortOrUDS. rewrite Hlen.
    simpl. repeat case_match; by intros [= <-].
  - simpl. rewrite outboundHTTP_key, Hlen. by intros [= <-].
Qed.

(** X28.  An egress listener of the sidecar scope that names a port yields
    at most one listener, at its own bind and port: all its services are
    resolved to that one key, whatever their addresses, so processing it
    leaves every other entry of the registry as it is.  The bind is the one
    the egress listener gives; when it gives none, it is the localhost or
    the wildcard address of the proxy. *)
Theorem egress_listener_with_port_one_key e node noneMode actualWildcard
    actualLocalHostAddress st egressListener st' ilPort :
  IstioListener egressListener ≫= egress_Port = Some ilPort →
  actualWildcard ≠ "" →
  actualLocalHostAddress ≠ "" →
  outboundFromEgress e node noneMode actualWildcard actualLocalHostAddress
    st egressListener = Some st' →
  ∃ bind,
    (∀ il, IstioListener egressListener = Some il → egress_Bind il ≠ "" →
           bind = egress_Bind il)
    ∧ (bind = actualWildcard ∨ bind = actualLocalHostAddress
       ∨ ∃ il, IstioListener egressListener = Some il ∧ bind = egress_Bind il)
    ∧ ∀ k, k ≠ listenerKey bind (np_Number ilPort) →
           st'.1 !! k = st.1 !! k.
Proof.
  intros Hport Hw Hlh. unfold outboundFromEgress. rewrite Hport.
  set (bindToPort := if noneMode then true else _).
  set (bind0 := default "" (egress_Bind <$> IstioListener egressListener)).
  set (bind1 := if bindToPort && String.eqb bind0 "" then actualLocalHostAddress
                else if bool_decide (String.length bind0 = 0%nat)
                then actualWildcard else bind0).
  assert (bind1 ≠ "") as Hbind.
  { subst bind1. destruct (bindToPort && String.eqb bind0 ""); [done|].
    case_bool_decide as Hlen; [done|]. intros Heq. apply Hlen.
    by rewrite Heq. }
  intros Hrun. exists bind1. split; [|split].
  - intros il Hil Hne. subst bind1 bind0. rewrite Hil. simpl.
    apply String.eqb_neq in Hne as Hneb. rewrite Hneb, andb_false_r.
    rewrite bool_decide_false; [done|]. by destruct (egress_Bind il).
  - subst bind1. destruct (bindToPort && String.eqb bind0 ""); [by auto|].
    case_bool_decide; [by auto|]. right. right. subst bind0.
    destruct (IstioListener egressListener) as [il|]; [by eauto|done].
  - revert Hrun.
    apply (forEach_invariant
             (λ s : outboundState,
                ∀ k, k ≠ listenerKey bind1 (np_Number ilPort) →
                     s.1 !! k = st.1 !! k)); [|done].
    intros [m p] service [m1 p1] _ HP Hu k Hk. simpl in *.
    rewrite <- (HP k Hk).
    pose proof (outbound_unit_frame_key _ _ _ _ _ _ _ _ Hu) as Hframe.
    apply Hframe. intros Hkey.
    apply resolutionKey_bind in Hkey; [|done]. simpl in Hkey. congruence.
Qed.

End Synthesis.

(** * The properties on the concrete mesh *)

(** The registry [rangeTCPRegistry] is what the code builds for the range
    service. *)
Lemma rangeTCPRegistry_built :
  outboundListenerMap exampleCollaborators noPlugins exampleEnvironment
    (redirectProxy [svcRangeTCP]) []
  = Some (rangeTCPRegistry, []).
Proof. vm_compute. reflexivity. Qed.

(** ** Address resolution of a loopback-only proxy *)

Lemma getActualWildcardAndLocalHost_loopback_only_witness :
  ParseIP exampleCollaborators "127.0.0.1" = Some [127; 0; 0; 1]
  ∧ To4 exampleCollaborators [127; 0; 0; 1] = Some [127; 0; 0; 1]
  ∧ getActualWildcardAndLocalHost exampleCollaborators
      (exampleProxy InterceptionRedirect ["127.0.0.1"] [])
    = ("0.0.0.0", "127.0.0.1").
Proof.
  split; [reflexivity|]. split; [reflexivity|].
  apply (getActualWildcardAndLocalHost_loopback_only exampleCollaborators
           (exampleProxy InterceptionRedirect ["127.0.0.1"] [])
           [127; 0; 0; 1] [127; 0; 0; 1]); reflexivity.
Defined.

(** ** An HTTP service arriving at the TCP listener of the range service *)

Lemma http_unit_over_tcp_entry_witness :
  rangeTCPRegistry !! "0.0.0.0:9080" = Some rangeTCPEntry
  ∧ locked rangeTCPEntry = false
  ∧ protocol.IsHTTP (port_Protocol (servicePort rangeTCPEntry)) = false
  ∧ buildSidecarOutboundListenerForPortOrUDS exampleCollaborators noPlugins
      (catchAllListenerOpts (redirectProxy [svcRangeTCP; svcHTTP]) http9080)
      (catchAllUnit (redirectProxy [svcRangeTCP; svcHTTP]) http9080 svcHTTP)
      rangeTCPRegistry [] [] "0.0.0.0"
    = Some (<[ "0.0.0.0:9080" :=
                 set_services rangeTCPEntry [svcRangeTCP; svcHTTP] ]>
              rangeTCPRegistry,
            addMetric
              (conflictTCPOverHTTP
                 (catchAllUnit (redirectProxy [svcRangeTCP; svcHTTP])
                    http9080 svcHTTP)
                 "0.0.0.0:9080" rangeTCPEntry svcHTTP) []).
Proof.
  split; [reflexivity|]. split; [reflexivity|]. split; [reflexivity|].
  apply (http_unit_over_tcp_entry exampleCollaborators noPlugins
           (catchAllListenerOpts (redirectProxy [svcRangeTCP; svcHTTP])
              http9080)
           (catchAllUnit (redirectProxy [svcRangeTCP; svcHTTP]) http9080
              svcHTTP)
           rangeTCPRegistry [] [] "0.0.0.0" rangeTCPEntry svcHTTP);
    reflexivity.
Defined.

(** ** A second catch-all chain *)

(** C6.  The claim holds of the fallthrough chain
    ([appendListenerFallthroughRoute_guard]); what breaks it is the merge of
    TCP listeners, which takes only an absent match for a catch-all and not
    the empty match of the pass-through chain.  The range service and the
    headless service, both TCP on port 9080, resolve to the wildcard key:
    the listener of the first has the chain for the range and the
    pass-through chain, and the chain of the second, which has no match, is
    appended to it.  The one outbound listener of the proxy then has two
    chains with an absent or empty match. *)
Theorem tcp_merge_admits_second_catch_all :
  ∃ l,
    buildSidecarOutboundListeners exampleCollaborators noPlugins map_to_list
      exampleEnvironment (redirectProxy [svcRangeTCP; svcHeadlessTCP]) []
    = Some ([l], [])
    ∧ fc_FilterChainMatch <$> l_FilterChains l
      = [Some rangeMatch; Some emptyMatch; None]
    ∧ isWildcardChain <$> l_FilterChains l = [false; true; true].
Proof.
  eexists. split; [vm_compute; reflexivity|].
  split; vm_compute; reflexivity.
Qed.

(** ** The order of the outbound listeners *)

(** C7.  The outbound stage ranges over the registry, a map, and appends the
    listeners in the order of the visit, which the language leaves
    unspecified (the comment there says so).  For a proxy with two TCP
    services on different addresses, two orders of visiting the same
    registry give the two listeners in the two different orders. *)
Theorem outbound_order_follows_map_iteration :
  (∀ m : gmap string outboundListenerEntry,
     reverse (map_to_list m) ≡ₚ map_to_list m)
  ∧ namesOf
      (buildSidecarOutboundListeners exampleCollaborators noPlugins
         map_to_list exampleEnvironment
         (redirectProxy [svcRangeTCP; svcVipTCP]) [])
    = Some ["10.9.9.9_9080"; "0.0.0.0_9080"]
  ∧ namesOf
      (buildSidecarOutboundListeners exampleCollaborators noPlugins
         (λ m, reverse (map_to_list m)) exampleEnvironment
         (redirectProxy [svcRangeTCP; svcVipTCP]) [])
    = Some ["0.0.0.0_9080"; "10.9.9.9_9080"]
  ∧ buildSidecarOutboundListeners exampleCollaborators noPlugins
      map_to_list exampleEnvironment
      (redirectProxy [svcRangeTCP; svcVipTCP]) []
    ≠ buildSidecarOutboundListeners exampleCollaborators noPlugins
        (λ m, reverse (map_to_list m)) exampleEnvironment
        (redirectProxy [svcRangeTCP; svcVipTCP]) [].
Proof.
  split; [intros m; apply reverse_Permutation|].
  assert (H1 : namesOf
                 (buildSidecarOutboundListeners exampleCollaborators noPlugins
                    map_to_list exampleEnvironment
                    (redirectProxy [svcRangeTCP; svcVipTCP]) [])
               = Some ["10.9.9.9_9080"; "0.0.0.0_9080"])
    by (vm_compute; reflexivity).
  assert (H2 : namesOf
                 (buildSidecarOutboundListeners exampleCollaborators noPlugins
                    (λ m, reverse (map_to_list m)) exampleEnvironment
                    (redirectProxy [svcRangeTCP; svcVipTCP]) [])
               = Some ["0.0.0.0_9080"; "10.9.9.9_9080"])
    by (vm_compute; reflexivity).
  split; [done|]. split; [done|].
  intros Heq. rewrite Heq, H2 in H1. discriminate H1.
Qed.

(** ** Two listeners on one address *)

(** A proxy without traffic capture binds its outbound listeners to the
    loopback address, and its HTTP proxy listens there on port 15002: with a
    service on HTTP port 15002 the outbound stage returns the listener of
    the service and the HTTP-proxy listener, both on 127.0.0.1:15002, and
    the final set of the proxy is these two listeners. *)
Lemma http_proxy_listener_shares_address :
  addressesOf
    (buildSidecarOutboundListeners exampleCollaborators noPlugins map_to_list
       exampleEnvironment
       (exampleProxy InterceptionNone ["10.1.1.1"] [svcHTTP15002]) [])
  = Some [BuildAddress "127.0.0.1" 15002; BuildAddress "127.0.0.1" 15002]
  ∧ addressesOf
      (buildSidecarListeners exampleCollaborators noPlugins map_to_list
         exampleEnvironment
         (exampleProxy InterceptionNone ["10.1.1.1"] [svcHTTP15002]) [])
    = Some [BuildAddress "127.0.0.1" 15002; BuildAddress "127.0.0.1" 15002]
  ∧ ¬ (∀ ls push',
         buildSidecarListeners exampleCollaborators noPlugins map_to_list
           exampleEnvironment
           (exampleProxy InterceptionNone ["10.1.1.1"] [svcHTTP15002]) []
         = Some (ls, push') →
         distinctAddresses ls).
Proof.
  split; [vm_compute; reflexivity|].
  assert (H : addressesOf
                (buildSidecarListeners exampleCollaborators noPlugins
                   map_to_list exampleEnvironment
                   (exampleProxy InterceptionNone ["10.1.1.1"] [svcHTTP15002])
                   [])
              = Some [BuildAddress "127.0.0.1" 15002;
                      BuildAddress "127.0.0.1" 15002])
    by (vm_compute; reflexivity).
  split; [done|]. intros Hclaim.
  destruct (buildSidecarListeners _ _ _ _ _ _) as [[ls push']|]; [|done].
  specialize (Hclaim ls push' eq_refl). injection H as H.
  unfold distinctAddresses in Hclaim. rewrite H in Hclaim.
  apply NoDup_cons_1_1 in Hclaim. apply Hclaim. by left.
Qed.

(** ** A chain without filters *)

(** With collaborators that contribute no inbound network filter, the
    listener of a local TCP instance has one chain, the chain ends up
    without any filter, the assembly returns no error, and the listener is
    in the output of the inbound stage. *)
Lemma chain_without_filters_is_assembled :
  ∃ l,
    buildSidecarInboundListeners bareCollaborators noPlugins
      exampleEnvironment
      (proxyWithInstances [localInstance tcp8080 "local.default.svc"] []) []
    = Some ([l], [])
    ∧ fc_Filters <$> l_FilterChains l = [[]].
Proof.
  eexists. split; vm_compute; reflexivity.
Qed.

(** ** A second TCP service on the range of the first *)

Lemma tcp_units_merge_by_match_witness :
  ∃ r l lo,
    buildSidecarOutboundTCPListenerOptsForPortOrUDS exampleCollaborators
      (catchAllListenerOpts (redirectProxy [svcRangeTCP; svcRangeTCP2]) tcp9080)
      (catchAllUnit (redirectProxy [svcRangeTCP; svcRangeTCP2]) tcp9080
         svcRangeTCP2)
      rangeTCPRegistry [] [] "0.0.0.0" = Some r
    ∧ rangeTCPRegistry !! oo_listenerMapKey r = Some rangeTCPEntry
    ∧ buildOutboundListener exampleCollaborators noPlugins r
        (catchAllUnit (redirectProxy [svcRangeTCP; svcRangeTCP2]) tcp9080
           svcRangeTCP2) "0.0.0.0" = Ok (l, lo)
    ∧ ∃ entry evs,
        buildSidecarOutboundListenerForPortOrUDS exampleCollaborators
          noPlugins
          (catchAllListenerOpts (redirectProxy [svcRangeTCP; svcRangeTCP2])
             tcp9080)
          (catchAllUnit (redirectProxy [svcRangeTCP; svcRangeTCP2]) tcp9080
             svcRangeTCP2)
          rangeTCPRegistry [] [] "0.0.0.0"
        = Some (<[ oo_listenerMapKey r := entry ]> rangeTCPRegistry, [] ++ evs)
        ∧ l_FilterChains (listener entry)
          = l_FilterChains (listener rangeTCPEntry) ++
            filter (λ c, ¬ clashes (l_FilterChains (listener rangeTCPEntry)) c)
                   (l_FilterChains l)
        ∧ services entry
          = services rangeTCPEntry ++
            replicate
              (length
                 (filter
                    (λ c, ¬ clashes (l_FilterChains (listener rangeTCPEntry)) c)
                    (l_FilterChains l)))
              svcRangeTCP2
        ∧ length evs
          = length (filter (clashes (l_FilterChains (listener rangeTCPEntry)))
                           (l_FilterChains l))
        ∧ Forall (isTCPOverTCP (oo_listenerMapKey r)) evs.
Proof.
  eexists _, _, _.
  split; [vm_compute; reflexivity|].
  split; [vm_compute; reflexivity|].
  split; [vm_compute; reflexivity|].
  eapply (tcp_units_merge_by_match exampleCollaborators noPlugins);
    vm_compute; reflexivity.
Defined.

(** ** The catch-all rule after the listener of the range service *)

Lemma catch_all_locks_earlier_entries_witness :
  isCatchAll {| IstioListener := None; Services := [svcHTTP];
                VirtualServices := [] |}
  ∧ outboundFromEgress exampleCollaborators noPlugins exampleEnvironment
      (redirectProxy [svcHTTP]) false "0.0.0.0" "127.0.0.1"
      (rangeTCPRegistry, [])
      {| IstioListener := None; Services := [svcHTTP];
         VirtualServices := [] |}
    = Some (lockAll rangeTCPRegistry, [])
  ∧ (∀ k entry,
       (rangeTCPRegistry, @nil StatusEvent).1 !! k = Some entry →
       (lockAll rangeTCPRegistry, @nil StatusEvent).1 !! k
       = Some (set_locked entry true))
  ∧ (∀ listenerOpts pluginParams listenerMap push virtualServices wildcard
       key cur,
       resolutionKey exampleCollaborators listenerOpts pluginParams
         listenerMap push virtualServices wildcard = Some key →
       listenerMap !! key = Some cur →
       locked cur = true →
       buildSidecarOutboundListenerForPortOrUDS exampleCollaborators
         noPlugins listenerOpts pluginParams listenerMap push
         virtualServices wildcard
       = Some (listenerMap, push)).
Proof.
  split; [reflexivity|].
  split; [vm_compute; reflexivity|].
  apply (catch_all_locks_earlier_entries exampleCollaborators noPlugins
           exampleEnvironment (redirectProxy [svcHTTP]) false "0.0.0.0"
           "127.0.0.1" (rangeTCPRegistry, [])
           {| IstioListener := None; Services := [svcHTTP];
              VirtualServices := [] |}
           (lockAll rangeTCPRegistry, []));
    [reflexivity|vm_compute; reflexivity].
Defined.

(** ** Two HTTP services on port 9080 *)

Lemma two_http_services_one_listener_witness :
  buildSidecarOutboundListenerForPortOrUDS exampleCollaborators noPlugins
    (catchAllListenerOpts (redirectProxy [svcHTTP; svcHTTP2]) http9080)
    (catchAllUnit (redirectProxy [svcHTTP; svcHTTP2]) http9080 svcHTTP)
    ∅ [] [] "0.0.0.0" = Some (webHTTPRegistry, [])
  ∧ webHTTPRegistry !! "0.0.0.0:9080" = Some webHTTPEntry
  ∧ services webHTTPEntry = [svcHTTP] ∧ locked webHTTPEntry = false
  ∧ ∃ m2,
      buildSidecarOutboundListenerForPortOrUDS exampleCollaborators
        noPlugins
        (catchAllListenerOpts (redirectProxy [svcHTTP; svcHTTP2]) http9080)
        (catchAllUnit (redirectProxy [svcHTTP; svcHTTP2]) http9080 svcHTTP2)
        webHTTPRegistry [] [] "0.0.0.0" = Some (m2, [])
      ∧ dom m2 = dom webHTTPRegistry
      ∧ ∃ e2, m2 !! "0.0.0.0:9080" = Some e2
              ∧ listener e2 = listener webHTTPEntry
              ∧ l_FilterChains (listener e2)
                = l_FilterChains (listener webHTTPEntry)
              ∧ services e2 = [svcHTTP; svcHTTP2].
Proof.
  pose proof (two_http_services_one_listener exampleCollaborators noPlugins
           (catchAllListenerOpts (redirectProxy [svcHTTP; svcHTTP2]) http9080)
           (catchAllUnit (redirectProxy [svcHTTP; svcHTTP2]) http9080 svcHTTP)
           (catchAllUnit (redirectProxy [svcHTTP; svcHTTP2]) http9080 svcHTTP2)
           ∅ [] [] "0.0.0.0" svcHTTP svcHTTP2 webHTTPRegistry []
           webHTTPEntry) as W.
  cbv zeta in W.
  assert (Hk : oo_listenerMapKey
                 (buildSidecarOutboundHTTPListenerOptsForPortOrUDS
                    exampleCollaborators
                    (catchAllListenerOpts (redirectProxy [svcHTTP; svcHTTP2])
                       http9080)
                    (catchAllUnit (redirectProxy [svcHTTP; svcHTTP2]) http9080
                       svcHTTP)
                    ∅ [] "0.0.0.0")
               = "0.0.0.0:9080") by (vm_compute; reflexivity).
  rewrite Hk in W.
  split; [vm_compute; reflexivity|].
  split; [vm_compute; reflexivity|].
  apply W; vm_compute; reflexivity.
Defined.

(** ** A failed inbound build and the instance after it *)

(** The instance on port 5353 with a protocol that has no listener protocol
    fails to build and leaves the key 10.1.1.1:5353 free; the TCP instance
    on the same address and port that comes after it gets its listener. *)
Lemma failed_inbound_build_leaves_key_free_witness :
  assembleInboundListener exampleCollaborators noPlugins
    (proxyWithInstances [] [])
    (instanceListenerOpts (proxyWithInstances [] [])
       (localInstance udp5353 "dns.default.svc"))
    (instanceUnit (proxyWithInstances [] [])
       (localInstance udp5353 "dns.default.svc"))
    (localInstance udp5353 "dns.default.svc") = None
  ∧ buildSidecarInboundListenerForPortOrUDS exampleCollaborators noPlugins
      (proxyWithInstances [] [])
      (instanceListenerOpts (proxyWithInstances [] [])
         (localInstance udp5353 "dns.default.svc"))
      (instanceUnit (proxyWithInstances [] [])
         (localInstance udp5353 "dns.default.svc"))
      ∅ []
    = Some (None, ∅, [])
  ∧ ∃ l2,
      buildSidecarInboundListenerForPortOrUDS exampleCollaborators noPlugins
        (proxyWithInstances [] [])
        (instanceListenerOpts (proxyWithInstances [] [])
           (localInstance tcp5353 "dns-tcp.default.svc"))
        (instanceUnit (proxyWithInstances [] [])
           (localInstance tcp5353 "dns-tcp.default.svc"))
        ∅ []
      = Some (Some l2,
              <[ "10.1.1.1:5353" :=
                   {| ile_bind := "10.1.1.1";
                      instanceHostname := "dns-tcp.default.svc" |} ]> ∅,
              []).
Proof.
  split; [vm_compute; reflexivity|].
  destruct (failed_inbound_build_leaves_key_free exampleCollaborators
              noPlugins (proxyWithInstances [] [])
              (instanceListenerOpts (proxyWithInstances [] [])
                 (localInstance udp5353 "dns.default.svc"))
              (instanceUnit (proxyWithInstances [] [])
                 (localInstance udp5353 "dns.default.svc"))
              (localInstance udp5353 "dns.default.svc") ∅ [])
    as (Hfirst & Hlater & _);
    [reflexivity|reflexivity|left; vm_compute; reflexivity|].
  split; [exact Hfirst|].
  eexists.
  apply (Hlater
           (instanceListenerOpts (proxyWithInstances [] [])
              (localInstance tcp5353 "dns-tcp.default.svc"))
           (instanceUnit (proxyWithInstances [] [])
              (localInstance tcp5353 "dns-tcp.default.svc"))
           (localInstance tcp5353 "dns-tcp.default.svc"));
    [reflexivity|reflexivity|reflexivity|vm_compute; reflexivity].
Defined.

(** ** The stages of a proxy with a local instance and four services *)

Lemma stage_listeners_distinct_witness :
  hooksKeepAddress exampleCollaborators noPlugins
  ∧ portsInRange
      (proxyWithInstances [localInstance tcp8080 "local.default.svc"]
         [svcRangeTCP; svcVipTCP; svcHTTP; svcHTTP2]) = true
  ∧ addressesOf
      (buildSidecarInboundListeners exampleCollaborators noPlugins
         exampleEnvironment
         (proxyWithInstances [localInstance tcp8080 "local.default.svc"]
            [svcRangeTCP; svcVipTCP; svcHTTP; svcHTTP2]) [])
    = Some [BuildAddress "10.1.1.1" 8080]
  ∧ addressesOf
      (buildSidecarOutboundListeners exampleCollaborators noPlugins
         map_to_list exampleEnvironment
         (proxyWithInstances [localInstance tcp8080 "local.default.svc"]
            [svcRangeTCP; svcVipTCP; svcHTTP; svcHTTP2]) [])
    = Some [BuildAddress "10.9.9.9" 9080; BuildAddress "0.0.0.0" 9080]
  ∧ (∀ ls push',
       buildSidecarInboundListeners exampleCollaborators noPlugins
         exampleEnvironment
         (proxyWithInstances [localInstance tcp8080 "local.default.svc"]
            [svcRangeTCP; svcVipTCP; svcHTTP; svcHTTP2]) []
       = Some (ls, push') →
       distinctAddresses ls)
  ∧ (∀ ls push',
       buildSidecarOutboundListeners exampleCollaborators noPlugins
         map_to_list exampleEnvironment
         (proxyWithInstances [localInstance tcp8080 "local.default.svc"]
            [svcRangeTCP; svcVipTCP; svcHTTP; svcHTTP2]) []
       = Some (ls, push') →
       ∃ registered,
         distinctAddresses registered
         ∧ (ls = registered
            ∨ ∃ httpProxy,
                buildHTTPProxy exampleCollaborators exampleEnvironment
                  (proxyWithInstances
                     [localInstance tcp8080 "local.default.svc"]
                     [svcRangeTCP; svcVipTCP; svcHTTP; svcHTTP2])
                = Some (Some httpProxy)
                ∧ ls = registered ++ [set_TrafficDirection httpProxy OUTBOUND]))
  ∧ (∀ listeners ls,
       distinctAddresses listeners →
       generateManagementListeners exampleCollaborators
         (proxyWithInstances [localInstance tcp8080 "local.default.svc"]
            [svcRangeTCP; svcVipTCP; svcHTTP; svcHTTP2])
         false exampleEnvironment listeners = Some ls →
       distinctAddresses ls).
Proof.
  assert (Hkeep : hooksKeepAddress exampleCollaborators noPlugins).
  { split; [|split].
    - intros p pp mu Hp. by apply elem_of_nil in Hp.
    - intros p pp mu Hp. by apply elem_of_nil in Hp.
    - reflexivity. }
  split; [exact Hkeep|].
  split; [vm_compute; reflexivity|].
  split; [vm_compute; reflexivity|].
  split; [vm_compute; reflexivity|].
  apply (stage_listeners_distinct exampleCollaborators noPlugins map_to_list
           exampleEnvironment
           (proxyWithInstances [localInstance tcp8080 "local.default.svc"]
              [svcRangeTCP; svcVipTCP; svcHTTP; svcHTTP2]) [] false);
    [exact Hkeep|vm_compute; reflexivity|reflexivity].
Defined.

(** ** A TCP unit without chain options *)

(** With collaborators that give a TCP service no chain options and with the
    fallthrough route off, the listener of the unit has no chain: the
    assembly returns its error, and the registry, which holds the listener
    of the range service, is left as it was. *)
Lemma assembly_error_drops_one_listener_witness :
  buildCompleteFilterChain bareCollaborators
    (catchAllUnit (redirectProxy [svcRangeTCP; svcRangeTCP2]) tcp9080
       svcRangeTCP2)
    (newMutableObjects
       (buildListener bareCollaborators
          (catchAllListenerOpts (redirectProxy [svcRangeTCP; svcRangeTCP2])
             tcp9080)))
    (catchAllListenerOpts (redirectProxy [svcRangeTCP; svcRangeTCP2]) tcp9080)
  = Err "must have more than 0 chains in listener"
  ∧ buildSidecarOutboundListenerForPortOrUDS bareCollaborators noPlugins
      (catchAllListenerOpts (redirectProxy [svcRangeTCP; svcRangeTCP2]) tcp9080)
      (catchAllUnit (redirectProxy [svcRangeTCP; svcRangeTCP2]) tcp9080
         svcRangeTCP2)
      rangeTCPRegistry [] [] "0.0.0.0"
    = Some (rangeTCPRegistry, []).
Proof.
  destruct (assembly_error_drops_one_listener bareCollaborators noPlugins
              (catchAllUnit (redirectProxy [svcRangeTCP; svcRangeTCP2])
                 tcp9080 svcRangeTCP2)
              (newMutableObjects
                 (buildListener bareCollaborators
                    (catchAllListenerOpts
                       (redirectProxy [svcRangeTCP; svcRangeTCP2]) tcp9080)))
              (catchAllListenerOpts
                 (redirectProxy [svcRangeTCP; svcRangeTCP2]) tcp9080))
    as (Hempty & _ & Houtbound & _).
  split; [apply Hempty; reflexivity|].
  eapply Houtbound.
  - vm_compute. reflexivity.
  - vm_compute. reflexivity.
  - vm_compute. reflexivity.
Defined.

(** * The further properties on the concrete mesh *)

Lemma statsGenerator_keepsChains hook :
  (∀ pp mu, hook statsPlugin pp mu = (addStatsFilter mu, None)) →
  keepsChains statsGenerator hook.
Proof.
  intros Hhook p pp mu Hp. apply list_elem_of_singleton in Hp. subst p.
  rewrite Hhook. simpl. by rewrite length_fmap.
Qed.

Lemma chainMatch_order_independent_witness :
  sniHosts (sniChain ["b.example.com"; "a.example.com"]
                     ["10.1.0.0/16"; "10.0.0.0/24"])
  ≡ₚ sniHosts (sniChain ["a.example.com"; "b.example.com"]
                        ["10.0.0.0/24"; "10.1.0.0/16"])
  ∧ destinationCIDRs (sniChain ["b.example.com"; "a.example.com"]
                               ["10.1.0.0/16"; "10.0.0.0/24"])
    ≡ₚ destinationCIDRs (sniChain ["a.example.com"; "b.example.com"]
                                  ["10.0.0.0/24"; "10.1.0.0/16"])
  ∧ chainMatch exampleCollaborators
      (sniChain ["b.example.com"; "a.example.com"]
                ["10.1.0.0/16"; "10.0.0.0/24"])
    = chainMatch exampleCollaborators
        (sniChain ["a.example.com"; "b.example.com"]
                  ["10.0.0.0/24"; "10.1.0.0/16"]).
Proof.
  split; [apply perm_swap|]. split; [apply perm_swap|].
  apply (chainMatch_order_independent exampleCollaborators
           (sniChain ["b.example.com"; "a.example.com"]
                     ["10.1.0.0/16"; "10.0.0.0/24"])
           (sniChain ["a.example.com"; "b.example.com"]
                     ["10.0.0.0/24"; "10.1.0.0/16"]));
    [apply perm_swap|apply perm_swap|reflexivity].
Defined.

Lemma assembly_keeps_chain_matches_witness :
  skipUserFilters twoChainOpts = true
  ∧ ∃ l,
      buildCompleteFilterChain exampleCollaborators
        (catchAllUnit (redirectProxy []) tcp8080 svcRangeTCP)
        twoChainMutable twoChainOpts = Ok l
      ∧ l_Address l = BuildAddress "10.1.1.1" 8080
      ∧ fc_FilterChainMatch <$> l_FilterChains l = [Some rangeMatch; None].
Proof.
  split; [reflexivity|]. eexists. split; [vm_compute; reflexivity|].
  edestruct (assembly_keeps_chain_matches exampleCollaborators
               (catchAllUnit (redirectProxy []) tcp8080 svcRangeTCP)
               twoChainMutable twoChainOpts)
    as (_ & Haddr & _ & _ & _ & _ & Hmatch & _).
  - reflexivity.
  - vm_compute. reflexivity.
  - split; [exact Haddr|exact Hmatch].
Defined.

Lemma assembly_filter_order_witness :
  skipUserFilters twoChainOpts = true
  ∧ ∃ l fc1 fc2,
      buildCompleteFilterChain exampleCollaborators
        (catchAllUnit (redirectProxy []) tcp8080 svcRangeTCP)
        twoChainMutable twoChainOpts = Ok l
      ∧ l_FilterChains l = [fc1; fc2]
      ∧ fc_Filters fc1 = [tcpProxyTo "first"; statsFilter; tcpProxyTo "last"]
      ∧ filter_Name <$> fc_Filters fc2
        = ["example.stats"; xdsutil_HTTPConnectionManager].
Proof.
  split; [reflexivity|]. eexists _, _, _.
  split; [vm_compute; reflexivity|]. split; [reflexivity|].
  edestruct (assembly_filter_order exampleCollaborators
               (catchAllUnit (redirectProxy []) tcp8080 svcRangeTCP)
               twoChainMutable twoChainOpts) as [Hchains _].
  - reflexivity.
  - vm_compute. reflexivity.
  - destruct (Hchains 0%nat _ eq_refl)
      as (opt1 & c1 & c1' & Ho1 & Hc1 & Hc1' & _ & Hf1 & _).
    destruct (Hchains 1%nat _ eq_refl)
      as (opt2 & c2 & c2' & Ho2 & Hc2 & Hc2' & _ & Hf2 & _).
    injection Ho1 as <-. injection Hc1 as <-. injection Hc1' as <-.
    injection Ho2 as <-. injection Hc2 as <-. injection Hc2' as <-.
    split; [exact Hf1|]. rewrite Hf2. reflexivity.
Defined.

Lemma outbound_stage_never_panics_witness :
  keepsChains statsGenerator plugin.OnOutboundListener
  ∧ is_Some (buildSidecarOutboundListeners exampleCollaborators statsGenerator
               map_to_list exampleEnvironment
               (redirectProxy [svcRangeTCP; svcHTTP]) []).
Proof.
  split; [by apply statsGenerator_keepsChains|].
  apply (outbound_stage_never_panics exampleCollaborators statsGenerator
           map_to_list exampleEnvironment
           (redirectProxy [svcRangeTCP; svcHTTP]) []).
  by apply statsGenerator_keepsChains.
Defined.

Lemma inbound_stage_never_panics_witness :
  keepsChains statsGenerator plugin.OnInboundListener
  ∧ is_Some (buildSidecarInboundListeners exampleCollaborators statsGenerator
               exampleEnvironment
               (proxyWithInstances
                  [localInstance tcp8080 "a.default.svc";
                   localInstance tcp8080 "b.default.svc"] []) []).
Proof.
  split; [by apply statsGenerator_keepsChains|].
  apply (inbound_stage_never_panics exampleCollaborators statsGenerator
           exampleEnvironment
           (proxyWithInstances
              [localInstance tcp8080 "a.default.svc";
               localInstance tcp8080 "b.default.svc"] []) []).
  by apply statsGenerator_keepsChains.
Defined.

Lemma management_listeners_by_port_witness :
  "10.1.1.1" ≠ ""
  ∧ InterceptionMode (redirectProxy []) ≠ InterceptionNone
  ∧ buildSidecarInboundMgmtListeners exampleCollaborators (redirectProxy [])
      mgmtEnvironment [tcp8080; udp5353; tcp5353] "10.1.1.1"
    = Some [ managementListener exampleCollaborators mgmtEnvironment
               (redirectProxy []) "10.1.1.1" tcp8080;
             managementListener exampleCollaborators mgmtEnvironment
               (redirectProxy []) "10.1.1.1" tcp5353 ].
Proof.
  split; [done|]. split; [done|].
  apply (management_listeners_by_port exampleCollaborators (redirectProxy [])
           mgmtEnvironment [tcp8080; udp5353; tcp5353] "10.1.1.1"); done.
Defined.

Lemma management_stage_keeps_service_listeners_witness :
  ∃ ls,
    generateManagementListeners exampleCollaborators (redirectProxy []) false
      mgmtEnvironment [twoChainListener] = Some ls
    ∧ ∃ added,
        ls = [twoChainListener] ++ added
        ∧ Forall (λ m, l_Address m ∉ l_Address <$> [twoChainListener]) added
        ∧ (HasCustomIngressListeners (proxy_SidecarScope (redirectProxy []))
           || false = true → added = []).
Proof.
  eexists. split; [vm_compute; reflexivity|].
  apply (management_stage_keeps_service_listeners exampleCollaborators
           (redirectProxy []) false mgmtEnvironment [twoChainListener]).
  vm_compute. reflexivity.
Defined.

Lemma outbound_unit_keeps_entries_witness :
  buildSidecarOutboundListenerForPortOrUDS exampleCollaborators noPlugins
    (catchAllListenerOpts (redirectProxy [svcRangeTCP; svcHTTP]) http9080)
    (catchAllUnit (redirectProxy [svcRangeTCP; svcHTTP]) http9080 svcHTTP)
    rangeTCPRegistry [] [] "0.0.0.0"
  = Some (conflictRegistry,
          conflictEvents (redirectProxy [svcRangeTCP; svcHTTP]))
  ∧ rangeTCPRegistry !! "0.0.0.0:9080" = Some rangeTCPEntry
  ∧ ∃ e', conflictRegistry !! "0.0.0.0:9080" = Some e'
          ∧ entryExtends rangeTCPEntry e'.
Proof.
  assert (buildSidecarOutboundListenerForPortOrUDS exampleCollaborators
            noPlugins
            (catchAllListenerOpts (redirectProxy [svcRangeTCP; svcHTTP])
               http9080)
            (catchAllUnit (redirectProxy [svcRangeTCP; svcHTTP]) http9080
               svcHTTP)
            rangeTCPRegistry [] [] "0.0.0.0"
          = Some (conflictRegistry,
                  conflictEvents (redirectProxy [svcRangeTCP; svcHTTP])))
    as Hrun by (vm_compute; reflexivity).
  split; [exact Hrun|]. split; [reflexivity|].
  destruct (outbound_unit_keeps_entries exampleCollaborators noPlugins
              _ _ _ _ _ _ _ _ Hrun) as [Hkeep _].
  apply (Hkeep "0.0.0.0:9080" rangeTCPEntry). reflexivity.
Defined.

Lemma outbound_unit_new_entry_witness :
  buildSidecarOutboundListenerForPortOrUDS exampleCollaborators noPlugins
    (catchAllListenerOpts (redirectProxy [svcVipTCP]) tcp9080)
    (catchAllUnit (redirectProxy [svcVipTCP]) tcp9080 svcVipTCP)
    rangeTCPRegistry [] [] "0.0.0.0"
  = Some (<[ "10.9.9.9:9080" := vipTCPEntry ]> rangeTCPRegistry, [])
  ∧ rangeTCPRegistry !! "10.9.9.9:9080" = None
  ∧ (<[ "10.9.9.9:9080" := vipTCPEntry ]> rangeTCPRegistry) !! "10.9.9.9:9080"
    = Some vipTCPEntry
  ∧ resolutionKey exampleCollaborators
      (catchAllListenerOpts (redirectProxy [svcVipTCP]) tcp9080)
      (catchAllUnit (redirectProxy [svcVipTCP]) tcp9080 svcVipTCP)
      rangeTCPRegistry [] [] "0.0.0.0" = Some "10.9.9.9:9080"
  ∧ dom (<[ "10.9.9.9:9080" := vipTCPEntry ]> rangeTCPRegistry)
    = {[ "10.9.9.9:9080" ]} ∪ dom rangeTCPRegistry.
Proof.
  assert (buildSidecarOutboundListenerForPortOrUDS exampleCollaborators
            noPlugins
            (catchAllListenerOpts (redirectProxy [svcVipTCP]) tcp9080)
            (catchAllUnit (redirectProxy [svcVipTCP]) tcp9080 svcVipTCP)
            rangeTCPRegistry [] [] "0.0.0.0"
          = Some (<[ "10.9.9.9:9080" := vipTCPEntry ]> rangeTCPRegistry, []))
    as Hrun by (vm_compute; reflexivity).
  assert (rangeTCPRegistry !! "10.9.9.9:9080" = None) as Hfree
    by (vm_compute; reflexivity).
  assert ((<[ "10.9.9.9:9080" := vipTCPEntry ]> rangeTCPRegistry)
            !! "10.9.9.9:9080" = Some vipTCPEntry) as Hnew
    by apply lookup_insert_eq.
  split; [exact Hrun|]. split; [exact Hfree|]. split; [exact Hnew|].
  destruct (outbound_unit_new_entry exampleCollaborators noPlugins
              _ _ _ _ _ _ _ _ _ _ Hrun Hfree Hnew)
    as (Hkey & _ & _ & _ & _ & _ & Hdom).
  split; [exact Hkey|exact Hdom].
Defined.

Lemma outbound_stage_events_witness :
  outboundListenerMap exampleCollaborators noPlugins exampleEnvironment
    (redirectProxy [svcRangeTCP; svcHTTP]) []
  = Some (conflictRegistry,
          conflictEvents (redirectProxy [svcRangeTCP; svcHTTP]))
  ∧ ∃ evs,
      conflictEvents (redirectProxy [svcRangeTCP; svcHTTP]) = [] ++ evs
      ∧ Forall (λ ev, ∃ key,
                  isOutboundConflict (redirectProxy [svcRangeTCP; svcHTTP])
                    key ev
                  ∧ is_Some (conflictRegistry !! key)) evs.
Proof.
  assert (outboundListenerMap exampleCollaborators noPlugins
            exampleEnvironment (redirectProxy [svcRangeTCP; svcHTTP]) []
          = Some (conflictRegistry,
                  conflictEvents (redirectProxy [svcRangeTCP; svcHTTP])))
    as Hrun by (vm_compute; reflexivity).
  split; [exact Hrun|].
  exact (outbound_stage_events exampleCollaborators noPlugins
           exampleEnvironment (redirectProxy [svcRangeTCP; svcHTTP]) []
           _ _ Hrun).
Defined.

Lemma outbound_registry_entries_witness :
  outboundListenerMap exampleCollaborators noPlugins exampleEnvironment
    (redirectProxy [svcRangeTCP; svcHTTP]) []
  = Some (conflictRegistry,
          conflictEvents (redirectProxy [svcRangeTCP; svcHTTP]))
  ∧ conflictRegistry !! "0.0.0.0:9080"
    = Some (set_services rangeTCPEntry [svcRangeTCP; svcHTTP])
  ∧ (protocol.IsHTTP (port_Protocol (servicePort rangeTCPEntry)) = true
     ∨ protocol.IsTCP (port_Protocol (servicePort rangeTCPEntry)) = true)
  ∧ [svcRangeTCP; svcHTTP] ≠ [].
Proof.
  assert (outboundListenerMap exampleCollaborators noPlugins
            exampleEnvironment (redirectProxy [svcRangeTCP; svcHTTP]) []
          = Some (conflictRegistry,
                  conflictEvents (redirectProxy [svcRangeTCP; svcHTTP])))
    as Hrun by (vm_compute; reflexivity).
  assert (conflictRegistry !! "0.0.0.0:9080"
          = Some (set_services rangeTCPEntry [svcRangeTCP; svcHTTP])) as Hk
    by apply lookup_insert_eq.
  split; [exact Hrun|]. split; [exact Hk|].
  exact (outbound_registry_entries exampleCollaborators noPlugins
           exampleEnvironment (redirectProxy [svcRangeTCP; svcHTTP]) []
           _ _ Hrun _ _ Hk).
Defined.

Lemma catch_all_skips_privileged_ports_witness :
  isCatchAll (catchAllEgress [svcTwoPorts])
  ∧ metadata (exampleProxy InterceptionNone ["10.1.1.1"] [svcTwoPorts])
      NodeMetadataSidecarUID ≠ "0"
  ∧ outboundFromEgress exampleCollaborators noPlugins exampleEnvironment
      (exampleProxy InterceptionNone ["10.1.1.1"] [svcTwoPorts]) true
      "0.0.0.0" "127.0.0.1" (∅, []) (catchAllEgress [svcTwoPorts])
    = Some ({[ "127.0.0.1:9080" := localTCPEntry ]}, [])
  ∧ port_Port (servicePort localTCPEntry) > 1024.
Proof.
  assert (outboundFromEgress exampleCollaborators noPlugins exampleEnvironment
            (exampleProxy InterceptionNone ["10.1.1.1"] [svcTwoPorts]) true
            "0.0.0.0" "127.0.0.1" (∅, []) (catchAllEgress [svcTwoPorts])
          = Some ({[ "127.0.0.1:9080" := localTCPEntry ]}, []))
    as Hrun by (vm_compute; reflexivity).
  split; [reflexivity|]. split; [done|]. split; [exact Hrun|].
  apply (catch_all_skips_privileged_ports exampleCollaborators noPlugins
           exampleEnvironment
           (exampleProxy InterceptionNone ["10.1.1.1"] [svcTwoPorts]) true
           "0.0.0.0" "127.0.0.1" (∅, []) (catchAllEgress [svcTwoPorts])
           _ eq_refl (or_introl eq_refl) ltac:(done) Hrun
           "127.0.0.1:9080" localTCPEntry).
  - reflexivity.
  - apply lookup_singleton_eq.
Defined.

Lemma inbound_stage_events_witness :
  ∃ ls push',
    buildSidecarInboundListeners exampleCollaborators noPlugins
      exampleEnvironment threeInstances [] = Some (ls, push')
    ∧ l_Name <$> ls = ["10.1.1.1_8080"]
    ∧ length push' = 1%nat
    ∧ ∃ evs,
        push' = [] ++ evs
        ∧ Forall (isInboundConflict threeInstances) evs
        ∧ (length ls + length evs ≤ inboundUnits threeInstances)%nat.
Proof.
  eexists _, _. split; [vm_compute; reflexivity|].
  split; [reflexivity|]. split; [reflexivity|].
  apply (inbound_stage_events exampleCollaborators noPlugins
           exampleEnvironment threeInstances []).
  vm_compute. reflexivity.
Defined.

Lemma inbound_listeners_follow_instances_witness :
  hooksKeepAddress exampleCollaborators noPlugins
  ∧ HasCustomIngressListeners (proxy_SidecarScope threeInstances) = false
  ∧ ∃ ls push',
      buildSidecarInboundListeners exampleCollaborators noPlugins
        exampleEnvironment threeInstances [] = Some (ls, push')
      ∧ l_Address <$> ls
        `sublist_of` endpointAddress <$> ServiceInstances threeInstances.
Proof.
  assert (Hkeep : hooksKeepAddress exampleCollaborators noPlugins).
  { split; [|split].
    - intros p pp mu Hp. by apply elem_of_nil in Hp.
    - intros p pp mu Hp. by apply elem_of_nil in Hp.
    - reflexivity. }
  split; [exact Hkeep|]. split; [reflexivity|].
  eexists _, _. split; [vm_compute; reflexivity|].
  eapply (inbound_listeners_follow_instances exampleCollaborators noPlugins
            exampleEnvironment threeInstances []).
  - exact Hkeep.
  - reflexivity.
  - vm_compute. reflexivity.
Defined.

Lemma outbound_listeners_tcp_before_http_witness :
  ∃ ls push',
    buildSidecarOutboundListeners exampleCollaborators noPlugins map_to_list
      exampleEnvironment (redirectProxy [svcHTTP15002; svcVipTCP]) []
    = Some (ls, push')
    ∧ l_Name <$> ls = ["10.9.9.9_9080"; "0.0.0.0_15002"]
    ∧ ∃ m,
        outboundListenerMap exampleCollaborators noPlugins exampleEnvironment
          (redirectProxy [svcHTTP15002; svcVipTCP]) [] = Some (m, push')
        ∧ ls = ((λ ke, listener ke.2)
                <$> filter (collatedAsTCP exampleCollaborators) (map_to_list m))
               ++ ((λ ke, listener ke.2)
                   <$> filter (collatedAsHTTP exampleCollaborators)
                              (map_to_list m))
               ++ httpProxyListeners exampleCollaborators exampleEnvironment
                    (redirectProxy [svcHTTP15002; svcVipTCP]).
Proof.
  eexists _, _. split; [vm_compute; reflexivity|]. split; [reflexivity|].
  apply (outbound_listeners_tcp_before_http exampleCollaborators noPlugins
           map_to_list exampleEnvironment
           (redirectProxy [svcHTTP15002; svcVipTCP]) []).
  vm_compute. reflexivity.
Defined.

Lemma getActualWildcardAndLocalHost_order_independent_witness :
  IPAddresses (exampleProxy InterceptionRedirect ["fe80::1"; "10.1.1.1"] [])
  ≡ₚ IPAddresses (exampleProxy InterceptionRedirect ["10.1.1.1"; "fe80::1"] [])
  ∧ getActualWildcardAndLocalHost exampleCollaborators
      (exampleProxy InterceptionRedirect ["fe80::1"; "10.1.1.1"] [])
    = getActualWildcardAndLocalHost exampleCollaborators
        (exampleProxy InterceptionRedirect ["10.1.1.1"; "fe80::1"] []).
Proof.
  split; [apply perm_swap|].
  apply (getActualWildcardAndLocalHost_order_independent exampleCollaborators
           (exampleProxy InterceptionRedirect ["fe80::1"; "10.1.1.1"] [])
           (exampleProxy InterceptionRedirect ["10.1.1.1"; "fe80::1"] [])).
  apply perm_swap.
Defined.

Lemma egress_listener_with_port_one_key_witness :
  IstioListener egressOn9080 ≫= egress_Port
  = Some {| np_Number := 9080; np_Protocol := "TCP"; np_Name := "tcp" |}
  ∧ "0.0.0.0" ≠ ""
  ∧ "127.0.0.1" ≠ ""
  ∧ ∃ st',
      outboundFromEgress exampleCollaborators noPlugins exampleEnvironment
        (redirectProxy []) false "0.0.0.0" "127.0.0.1" (∅, []) egressOn9080
      = Some st'
      ∧ ∃ bind,
          (∀ il, IstioListener egressOn9080 = Some il → egress_Bind il ≠ "" →
                 bind = egress_Bind il)
          ∧ (bind = "0.0.0.0" ∨ bind = "127.0.0.1"
             ∨ ∃ il, IstioListener egressOn9080 = Some il
                     ∧ bind = egress_Bind il)
          ∧ ∀ k, k ≠ listenerKey bind 9080 →
                 st'.1 !! k = (∅ : gmap string outboundListenerEntry) !! k.
Proof.
  split; [reflexivity|]. split; [done|]. split; [done|].
  destruct (outboundFromEgress exampleCollaborators noPlugins
              exampleEnvironment (redirectProxy []) false "0.0.0.0"
              "127.0.0.1" (∅, []) egressOn9080) as [st'|] eqn:Hrun;
    [|exfalso; vm_compute in Hrun; discriminate].
  exists st'. split; [reflexivity|].
  exact (egress_listener_with_port_one_key exampleCollaborators noPlugins
           exampleEnvironment (redirectProxy []) false "0.0.0.0" "127.0.0.1"
           (∅, []) egressOn9080 st' _ eq_refl ltac:(done) ltac:(done) Hrun).
Defined.

(** * SDS secret configuration *)

(** The workload's configuration, for a name and a path that are not
    empty, in terms of the look-up of the marshalled credentials. *)
Lemma ConstructSdsSecretConfig_unfold tokenPathKey timeout marshal name path
    metadata anyMap :
  name ≠ "" → path ≠ "" →
  authn_model.ConstructSdsSecretConfig tokenPathKey timeout marshal name path
    metadata anyMap
  = '(any, anyMap') ←
      authn_model.findOrMarshalFileBasedMetadataConfig marshal
        (authn_model.tokenFileOf tokenPathKey metadata)
        authn_model.K8sSAJwtTokenHeaderKey
        {| authn_model.SecretData_Filename :=
             authn_model.tokenFileOf tokenPathKey metadata;
           authn_model.HeaderKey := authn_model.K8sSAJwtTokenHeaderKey |}
        anyMap;
    Some (Some {| authn_model.sds_Name := name;
                  authn_model.GrpcServices :=
                    [ {| authn_model.TargetUri := path;
                         authn_model.StatPrefix := authn_model.SDSStatPrefix;
                         authn_model.ChannelCredentials_Local := true;
                         authn_model.CredentialsFactoryName :=
                           authn_model.FileBasedMetadataPlugName;
                         authn_model.CallCredentials_ :=
                           [ {| authn_model.FromPlugin_Name :=
                                  authn_model.FileBasedMetadataPlugName;
                                authn_model.FromPlugin_TypedConfig := any |} ]
                      |} ];
                  authn_model.InitialFetchTimeout := timeout |},
          anyMap').
Proof.
  intros Hname Hpath. unfold authn_model.ConstructSdsSecretConfig.
  apply String.eqb_neq in Hname, Hpath. rewrite Hname, Hpath.
  cbn [orb]. unfold authn_model.tokenFileOf.
  destruct (metadata !! tokenPathKey) as [sdsTokenPath|];
    [case_bool_decide|];
    unfold authn_model.ConstructgRPCCallCredentials;
    destruct (authn_model.findOrMarshalFileBasedMetadataConfig _ _ _ _ _)
      as [[any anyMap']|]; reflexivity.
Qed.



(** X23.  When the workload's SDS configuration is nil, when building it
    panics, and what it does to the map of marshalled configurations.  It
    is nil exactly when the name or the path of the SDS socket is empty,
    and the map is then as it was.  It panics exactly when neither is
    empty, the credentials of the token file are not in the map yet, and
    marshalling them fails.  Otherwise it carries the name it was given,
    and the map has kept every entry it had and has at most the entry of
    the token file in addition. *)
Theorem sds_config_nil_panic_and_map tokenPathKey timeout marshal name path
    metadata anyMap :
  let key := (authn_model.tokenFileOf tokenPathKey metadata,
              authn_model.K8sSAJwtTokenHeaderKey) in
  let run :=
    authn_model.ConstructSdsSecretConfig tokenPathKey timeout marshal name
      path metadata anyMap in
  (∀ anyMap', run = Some (None, anyMap')
              ↔ (name = "" ∨ path = "") ∧ anyMap' = anyMap)
  ∧ (run = None
     ↔ name ≠ "" ∧ path ≠ "" ∧ anyMap !! key = None
       ∧ marshal {| authn_model.SecretData_Filename := key.1;
                    authn_model.HeaderKey := key.2 |} = None)
  ∧ (∀ cfg anyMap', run = Some (Some cfg, anyMap') →
       authn_model.sds_Name cfg = name
       ∧ (∀ k v, anyMap !! k = Some v → anyMap' !! k = Some v)
       ∧ dom anyMap' ⊆ {[ key ]} ∪ dom anyMap).
Proof.
  intros key run. subst run.
  destruct (decide (name = "")) as [->|Hname].
  { unfold authn_model.ConstructSdsSecretConfig. simpl.
    split; [|split; [|done]].
    - intros m. split; [intros [= <-]; by eauto|by intros [_ ->]].
    - split; [done|]. by intros [? _]. }
  destruct (decide (path = "")) as [->|Hpath].
  { unfold authn_model.ConstructSdsSecretConfig.
    rewrite orb_true_r.
    split; [|split; [|done]].
    - intros m. split; [intros [= <-]; by eauto|by intros [_ ->]].
    - split; [done|]. by intros (_ & ? & _). }
  rewrite ConstructSdsSecretConfig_unfold by done. fold key.
  unfold authn_model.findOrMarshalFileBasedMetadataConfig. fold key.
  destruct (anyMap !! key) as [v|] eqn:Hv; simpl.
  - split; [|split].
    + intros m. split; [done|]. intros [[?|?] _]; done.
    + split; [done|]. by intros (_ & _ & ? & _).
    + intros cfg m [= <- <-]. simpl. split; [done|]. split; [done|].
      set_solver.
  - destruct (marshal _) as [any|] eqn:Hm; simpl.
    + split; [|split].
      * intros m. split; [done|]. intros [[?|?] _]; done.
      * split; [done|]. by intros (_ & _ & _ & ?).
      * intros cfg m [= <- <-]. simpl. split; [done|]. split.
        -- intros k v Hk. rewrite lookup_insert_ne; [done|]. congruence.
        -- by rewrite dom_insert_L.
    + split; [|split].
      * intros m. split; [done|]. intros [[?|?] _]; done.
      * done.
      * done.
Qed.


(** * Validation of the service model *)

Section ValidationProperties.

Variable IsDNS1123Label : string → bool.
Variable proto_MessageType : string → bool.
Variable config_ValidatePort : Z → option string.
Variable Labels_Validate : list (string * string) → option string.
Variable PortList_Get : list Port → string → option Port.

Lemma app_singleton_not_nil {A} (l : list A) (x : A) : l ++ [x] ≠ [].
Proof. by destruct l. Qed.

Lemma validateSchema_errs st v :
  validation.errs
    (validation.validateSchema IsDNS1123Label proto_MessageType st v) = []
  ↔ validation.errs st = []
    ∧ validation.schemaWellFormed IsDNS1123Label proto_MessageType v = true
    ∧ (validation.schema_Type v ∉ validation.descriptorTypes st)
    ∧ (validation.schema_MessageName v
       ∉ (if validation.schema_ClusterScoped v
          then validation.clusterMessages st else validation.messages st)).
Proof.
  unfold validation.validateSchema, validation.schemaWellFormed.
  destruct (IsDNS1123Label (validation.schema_Type v));
    destruct (IsDNS1123Label (validation.schema_Plural v));
    destruct (proto_MessageType (validation.schema_MessageName v));
    destruct (validation.schema_ClusterScoped v);
    case_bool_decide as Htype; case_bool_decide as Hmsg; simpl;
    split;
    try (intros Hnil;
         first [ by apply app_singleton_not_nil in Hnil | by repeat split ]);
    try (by intros (Hnil & ? & ? & ?)).
Qed.

Lemma validateSchema_seen st v :
  let st' := validation.validateSchema IsDNS1123Label proto_MessageType st v in
  validation.descriptorTypes st'
  = {[ validation.schema_Type v ]} ∪ validation.descriptorTypes st
  ∧ validation.clusterMessages st'
    = (if validation.schema_ClusterScoped v
       then {[ validation.schema_MessageName v ]} ∪ validation.clusterMessages st
       else validation.clusterMessages st)
  ∧ validation.messages st'
    = (if validation.schema_ClusterScoped v
       then validation.messages st
       else {[ validation.schema_MessageName v ]} ∪ validation.messages st).
Proof.
  unfold validation.validateSchema.
  by destruct (validation.schema_ClusterScoped v).
Qed.

Lemma validateSchema_fold descriptor :
  ∀ st,
    validation.errs
      (foldl (validation.validateSchema IsDNS1123Label proto_MessageType)
             st descriptor) = []
    ↔ validation.errs st = []
      ∧ forallb (validation.schemaWellFormed IsDNS1123Label proto_MessageType)
                descriptor = true
      ∧ NoDup (validation.schema_Type <$> descriptor)
      ∧ (∀ t, t ∈ validation.schema_Type <$> descriptor →
              t ∉ validation.descriptorTypes st)
      ∧ NoDup (validation.schema_MessageName
               <$> filter (λ v, validation.schema_ClusterScoped v = true)
                          descriptor)
      ∧ (∀ m, m ∈ validation.schema_MessageName
                  <$> filter (λ v, validation.schema_ClusterScoped v = true)
                             descriptor →
              m ∉ validation.clusterMessages st)
      ∧ NoDup (validation.schema_MessageName
               <$> filter (λ v, validation.schema_ClusterScoped v = false)
                          descriptor)
      ∧ (∀ m, m ∈ validation.schema_MessageName
                  <$> filter (λ v, validation.schema_ClusterScoped v = false)
                             descriptor →
              m ∉ validation.messages st).
Proof.
  induction descriptor as [|v descriptor IH]; intros st.
  - simpl. split; [|by intros [? _]]. intros H. split; [done|].
    split; [done|].
    repeat split; try apply NoDup_nil_2;
      intros ? Hin; by apply elem_of_nil in Hin.
  - cbn [foldl]. rewrite IH, validateSchema_errs.
    destruct (validateSchema_seen st v) as (Ht & Hc & Hm).
    cbv zeta in Ht, Hc, Hm. rewrite Ht, Hc, Hm.
    rewrite !filter_cons. cbn [forallb fmap list_fmap].
    rewrite andb_true_iff, !NoDup_cons.
    destruct (validation.schema_ClusterScoped v) eqn:Hscope.
    + rewrite decide_True by done. rewrite decide_False by done.
      cbn [fmap list_fmap]. rewrite NoDup_cons.
      split.
      * intros ((He & Hwf & Hty & Hmsg) & Hall & Hnd & Hfresh & Hndc & Hfc
                & Hndn & Hfn).
        repeat split; try done.
        -- intros Hin. apply (Hfresh _ Hin).
           apply elem_of_union. left. by apply elem_of_singleton.
        -- intros t Hin. apply elem_of_cons in Hin as [->|Hin]; [done|].
           intros Hin'. apply (Hfresh _ Hin). apply elem_of_union. by right.
        -- intros Hin. apply (Hfc _ Hin).
           apply elem_of_union. left. by apply elem_of_singleton.
        -- intros m Hin. apply elem_of_cons in Hin as [->|Hin]; [done|].
           intros Hin'. apply (Hfc _ Hin). apply elem_of_union. by right.
      * intros (He & [Hwf Hall] & [Hty Hnd] & Hfresh & [Hmsg Hndc] & Hfc
                & Hndn & Hfn).
        repeat split; try done.
        -- apply Hfresh. by left.
        -- apply Hfc. by left.
        -- intros t Hin Hin'. apply elem_of_union in Hin' as [Heq|Hin'].
           ++ apply elem_of_singleton in Heq. by subst t.
           ++ apply (Hfresh t); [by right|done].
        -- intros m Hin Hin'. apply elem_of_union in Hin' as [Heq|Hin'].
           ++ apply elem_of_singleton in Heq. by subst m.
           ++ apply (Hfc m); [by right|done].
    + rewrite decide_False by done. rewrite decide_True by done.
      cbn [fmap list_fmap]. rewrite NoDup_cons.
      split.
      * intros ((He & Hwf & Hty & Hmsg) & Hall & Hnd & Hfresh & Hndc & Hfc
                & Hndn & Hfn).
        repeat split; try done.
        -- intros Hin. apply (Hfresh _ Hin).
           apply elem_of_union. left. by apply elem_of_singleton.
        -- intros t Hin. apply elem_of_cons in Hin as [->|Hin]; [done|].
           intros Hin'. apply (Hfresh _ Hin). apply elem_of_union. by right.
        -- intros Hin. apply (Hfn _ Hin).
           apply elem_of_union. left. by apply elem_of_singleton.
        -- intros m Hin. apply elem_of_cons in Hin as [->|Hin]; [done|].
           intros Hin'. apply (Hfn _ Hin). apply elem_of_union. by right.
      * intros (He & [Hwf Hall] & [Hty Hnd] & Hfresh & Hndc & Hfc
                & [Hmsg Hndn] & Hfn).
        repeat split; try done.
        -- apply Hfresh. by left.
        -- apply Hfn. by left.
        -- intros t Hin Hin'. apply elem_of_union in Hin' as [Heq|Hin'].
           ++ apply elem_of_singleton in Heq. by subst t.
           ++ apply (Hfresh t); [by right|done].
        -- intros m Hin Hin'. apply elem_of_union in Hin' as [Heq|Hin'].
           ++ apply elem_of_singleton in Heq. by subst m.
           ++ apply (Hfn m); [by right|done].
Qed.

(** X24.  A configuration descriptor passes validation exactly when every
    schema has a type and a plural that are DNS labels and a message that
    is known, no two schemas have the same type, and no two schemas of the
    same scope (cluster or namespace) have the same message; two schemas of
    different scopes may share a message. *)
Theorem descriptor_valid_iff descriptor :
  validation.ConfigDescriptor_Validate IsDNS1123Label proto_MessageType
    descriptor = []
  ↔ forallb (validation.schemaWellFormed IsDNS1123Label proto_MessageType)
            descriptor = true
    ∧ NoDup (validation.schema_Type <$> descriptor)
    ∧ NoDup (validation.schema_MessageName
             <$> filter (λ v, validation.schema_ClusterScoped v = true)
                        descriptor)
    ∧ NoDup (validation.schema_MessageName
             <$> filter (λ v, validation.schema_ClusterScoped v = false)
                        descriptor).
Proof.
  unfold validation.ConfigDescriptor_Validate. rewrite validateSchema_fold.
  simpl. split.
  - intros (_ & ? & ? & _ & ? & _ & ? & _). done.
  - intros (? & ? & ? & ?). repeat split; try done;
      intros ? _ Hin; by apply elem_of_empty in Hin.
Qed.

Lemma conditional_errors_fold {A} (P : A → bool) (E : A → validation.ValidationError)
    (l : list A) :
  ∀ errs,
    foldl (λ errs x, if negb (P x) then errs ++ [E x] else errs) errs l = []
    ↔ errs = [] ∧ forallb P l = true.
Proof.
  induction l as [|x l IH]; intros errs; simpl.
  - split; [done|by intros [? _]].
  - rewrite IH. destruct (P x); simpl; [done|].
    split; [|by intros [_ ?]]. intros [Hnil _].
    by apply app_singleton_not_nil in Hnil.
Qed.

Lemma validateServicePort_errs s errs port :
  validation.validateServicePort IsDNS1123Label config_ValidatePort s errs port
  = []
  ↔ errs = []
    ∧ validation.servicePortValid IsDNS1123Label config_ValidatePort s port
      = true.
Proof.
  unfold validation.validateServicePort, validation.servicePortValid.
  destruct (String.eqb (port_Name port) "");
    [case_bool_decide as Hlen|destruct (IsDNS1123Label (port_Name port))];
    destruct (config_ValidatePort (port_Port port)); simpl;
    split;
    try (intros Hnil;
         first [ by apply app_singleton_not_nil in Hnil | by split ]);
    try (by intros [Hnil ?]).
Qed.

Lemma validateServicePort_fold s ports :
  ∀ errs,
    foldl (validation.validateServicePort IsDNS1123Label config_ValidatePort s)
          errs ports = []
    ↔ errs = []
      ∧ forallb (validation.servicePortValid IsDNS1123Label
                   config_ValidatePort s) ports = true.
Proof.
  induction ports as [|port ports IH]; intros errs; simpl.
  - split; [done|by intros [? _]].
  - rewrite IH, validateServicePort_errs, andb_true_iff. tauto.
Qed.

(** X25.  A service passes validation exactly when its hostname is not
    empty and every part of it between dots is a DNS label, it has at least
    one port, and every port has a valid number and a name that is a DNS
    label; the name may be empty only when the port is the only one. *)
Theorem service_valid_iff (s : Service) :
  validation.Service_Validate IsDNS1123Label config_ValidatePort s = []
  ↔ Hostname s ≠ ""
    ∧ forallb IsDNS1123Label (validation.strings_Split (Hostname s) ".") = true
    ∧ Ports s ≠ []
    ∧ forallb (validation.servicePortValid IsDNS1123Label config_ValidatePort s)
              (Ports s) = true.
Proof.
  unfold validation.Service_Validate. rewrite validateServicePort_fold.
  assert (Hostname s ≠ "" ↔ String.length (Hostname s) ≠ 0%nat) as Hhost
    by (by destruct (Hostname s)).
  assert (Ports s ≠ [] ↔ length (Ports s) ≠ 0%nat) as Hports
    by (by destruct (Ports s)).
  rewrite Hhost, Hports.
  case_bool_decide as Hp.
  { split; [|by intros (_ & _ & ? & _)]. intros [Hnil _].
    by apply app_singleton_not_nil in Hnil. }
  rewrite (conditional_errors_fold IsDNS1123Label
             validation.InvalidHostnamePart).
  case_bool_decide as Hh.
  - split; [by intros [[? _] _]|]. by intros (? & _).
  - tauto.
Qed.

(** X26.  A service instance passes validation exactly when it has a
    service that passes validation, valid labels and a valid endpoint port,
    and its service port is the port that the service declares under that
    name, with the same number and the same protocol. *)
Theorem service_instance_valid_iff (instance : validation.ServiceInstance) :
  validation.ServiceInstance_Validate IsDNS1123Label config_ValidatePort
    Labels_Validate PortList_Get instance = []
  ↔ ∃ service port expected,
      validation.instance_Service instance = Some service
      ∧ validation.Service_Validate IsDNS1123Label config_ValidatePort service
        = []
      ∧ Labels_Validate (validation.instance_Labels instance) = None
      ∧ config_ValidatePort (validation.instance_EndpointPort instance) = None
      ∧ validation.instance_ServicePort instance = Some port
      ∧ PortList_Get (Ports service) (port_Name port) = Some expected
      ∧ port_Port expected = port_Port port
      ∧ port_Protocol expected = port_Protocol port.
Proof.
  unfold validation.ServiceInstance_Validate.
  destruct (validation.instance_Service instance) as [service|];
    destruct (Labels_Validate (validation.instance_Labels instance));
    destruct (config_ValidatePort (validation.instance_EndpointPort instance));
    destruct (validation.instance_ServicePort instance) as [port|];
    try destruct (PortList_Get (Ports service) (port_Name port))
      as [expected|] eqn:Hget;
    repeat case_bool_decide; simpl;
    (split;
     [ intros Hnil;
       first [ by apply app_singleton_not_nil in Hnil
             | done
             | by eexists _, _, _ ]
     | intros (service0 & port0 & expected0 & Hs & Hv & Hl & Hp & Hsp & Hg
               & Hport & Hproto);
       simplify_eq; first [ done | congruence ] ]).
Qed.

End ValidationProperties.
